(** * SanityEngine: render hardware interface

    A shallow embedding of the parts of the D3D12 render device, the mesh data
    store, the material data buffer and the bind group builder that the
    engine's specification makes claims about.

    Conventions.
    - [Uint32] and [size_t] values are integers in [Z]; every place where the
      C++ code computes in 32 bits has its wrap-around written as [wrap32].
    - [std::vector] is a [list]; [std::unordered_map] with string keys is a
      [gmap string _]; a map that the code only iterates is the list of its
      entries in iteration order (any order is allowed).
    - [spdlog] calls append to a log that the functions return.
    - [ENSURE] is a fatal assertion: the function has no result.  *)

From Stdlib Require Import ZArith Lia List.
From stdpp Require Import base option list functions gmap strings fin_maps.

Local Open Scope Z_scope.

(** ** Machine integers *)

Definition UINT32_MODULUS : Z := 2 ^ 32.

(** The value a [Uint32] holds after an arithmetic result [z]. *)
Definition wrap32 (z : Z) : Z := z mod UINT32_MODULUS.

Definition is_uint32 (z : Z) : Prop := 0 <= z < UINT32_MODULUS.

(** The half-open ranges [[lo1, hi1)] and [[lo2, hi2)] share no element. *)
Definition ranges_disjoint (lo1 hi1 lo2 hi2 : Z) : Prop :=
  forall x, ~ (lo1 <= x < hi1 /\ lo2 <= x < hi2).

(** ** Log lines (spdlog) *)

Inductive LogLevel := Trace | Info | Warn | Error.

Record LogLine := { level : LogLevel; message : string }.

Definition is_warning (l : LogLine) : bool :=
  match level l with Warn => true | _ => false end.

Definition is_error (l : LogLine) : bool :=
  match level l with Error => true | _ => false end.

(** ** MaterialDataBuffer (material_data_buffer.hpp) *)

Module MaterialDataBuffer.

Record MaterialHandle := { index : Z }.

Record t := {
  buffer_size : Z;
  num_allocated_bytes : Z
}.

(** [get_next_free_material<MaterialDataStruct>()], with
    [struct_size = sizeof(MaterialDataStruct)].  All operands are [uint32_t].
    The trace line the method logs is not part of its result. *)
Definition get_next_free_material (struct_size : Z) (b : t) : MaterialHandle * t :=
  let new_idx := wrap32 (num_allocated_bytes b / struct_size + 1) in
  let b' := {| buffer_size := buffer_size b;
               num_allocated_bytes := wrap32 (struct_size * wrap32 (new_idx + 1)) |} in
  ({| index := new_idx |}, b').

(** [at<MaterialDataStruct>(handle)] is
    [reinterpret_cast<MaterialDataStruct*>(buffer)[handle.index]]: the
    element starts [index * struct_size] bytes into the buffer (pointer
    arithmetic, which does not wrap at 32 bits) and is [struct_size] bytes
    long. *)
Definition byte_offset (struct_size : Z) (h : MaterialHandle) : Z :=
  index h * struct_size.

Definition byte_end (struct_size : Z) (h : MaterialHandle) : Z :=
  (index h + 1) * struct_size.

End MaterialDataBuffer.


(** ** MeshDataStore (mesh_data_store.cpp) *)

Module MeshDataStore.

Record Mesh := {
  first_vertex : Z;
  num_vertices : Z;
  first_index : Z;
  num_indices : Z
}.

(** The store's two buffers, and the resource states its barriers name. *)
Inductive StoreBuffer := VertexBuffer | IndexBuffer.

Inductive ResourceState :=
| STATE_VERTEX_AND_CONSTANT_BUFFER
| STATE_INDEX_BUFFER
| STATE_COPY_DEST.

Record Transition := {
  transition_resource : StoreBuffer;
  state_before : ResourceState;
  state_after : ResourceState
}.

(** What the store records into the command list it is given.  The helper
    [upload_data_with_staging_buffer(commands, device, dst, src, size,
    dst_offset)] lives in rhi/helpers.hpp; a call to it is kept as the
    command it stands for, with the arguments the store passes: the source
    array, the byte count and the byte offset in the destination. *)
Inductive Command (V : Type) :=
| ResourceBarrier (barriers : list Transition)
| UploadVertices (src : list V) (num_bytes : Z) (dst_offset : Z)
| UploadIndices (src : list Z) (num_bytes : Z) (dst_offset : Z).
Arguments ResourceBarrier {V} barriers.
Arguments UploadVertices {V} src num_bytes dst_offset.
Arguments UploadIndices {V} src num_bytes dst_offset.

(** The three write cursors, all [uint32_t], zero in a new store. *)
Record t := {
  next_free_vertex_byte : Z;
  next_vertex_offset : Z;
  next_index_offset : Z
}.

Definition new_store : t :=
  {| next_free_vertex_byte := 0; next_vertex_offset := 0; next_index_offset := 0 |}.

Definition sizeof_Uint32 : Z := 4.

Section WithVertex.
(** [StandardVertex] and its size.  The struct is declared in a header of
    which several versions exist; the store only copies vertices and
    multiplies by [sizeof(StandardVertex)]. *)
Context {StandardVertex : Type}.
Variable sizeof_StandardVertex : Z.

Definition begin_adding_meshes (commands : list (Command StandardVertex))
  : list (Command StandardVertex) :=
  commands ++
  [ResourceBarrier
     [ {| transition_resource := VertexBuffer;
          state_before := STATE_VERTEX_AND_CONSTANT_BUFFER;
          state_after := STATE_COPY_DEST |};
       {| transition_resource := IndexBuffer;
          state_before := STATE_INDEX_BUFFER;
          state_after := STATE_COPY_DEST |} ]].

Definition add_mesh (vertices : list StandardVertex) (indices : list Z)
    (commands : list (Command StandardVertex)) (s : t)
  : Mesh * t * list (Command StandardVertex) :=
  let vertices_size := Z.of_nat (length vertices) in
  let indices_size := Z.of_nat (length indices) in
  let vertex_data_size := wrap32 (vertices_size * sizeof_StandardVertex) in
  let index_data_size := wrap32 (indices_size * sizeof_Uint32) in
  (* Offset the indices so they'll refer to the right vertex *)
  let offset_indices := map (fun idx => wrap32 (idx + next_vertex_offset s)) indices in
  let index_buffer_byte_offset := wrap32 (next_index_offset s * sizeof_Uint32) in
  let commands1 :=
    commands ++ [UploadVertices vertices vertex_data_size (next_free_vertex_byte s)] in
  let commands2 :=
    commands1 ++ [UploadIndices offset_indices index_data_size index_buffer_byte_offset] in
  let vertex_offset := wrap32 (next_free_vertex_byte s / sizeof_StandardVertex) in
  let next_free_vertex_byte' := wrap32 (next_free_vertex_byte s + vertex_data_size) in
  let index_offset := next_index_offset s in
  let next_vertex_offset' := wrap32 (next_vertex_offset s + wrap32 vertices_size) in
  let next_index_offset' := wrap32 (next_index_offset s + wrap32 indices_size) in
  ({| first_vertex := vertex_offset;
      num_vertices := wrap32 vertices_size;
      first_index := index_offset;
      num_indices := wrap32 indices_size |},
   {| next_free_vertex_byte := next_free_vertex_byte';
      next_vertex_offset := next_vertex_offset';
      next_index_offset := next_index_offset' |},
   commands2).

Definition end_adding_meshes (commands : list (Command StandardVertex))
  : list (Command StandardVertex) :=
  commands ++
  [ResourceBarrier
     [ {| transition_resource := VertexBuffer;
          state_before := STATE_COPY_DEST;
          state_after := STATE_VERTEX_AND_CONSTANT_BUFFER |};
       {| transition_resource := IndexBuffer;
          state_before := STATE_COPY_DEST;
          state_after := STATE_INDEX_BUFFER |} ]].

(** A caller's sequence of [add_mesh] calls, each with its vertices and
    indices, threaded through the store and one command list. *)
Fixpoint add_meshes (calls : list (list StandardVertex * list Z))
    (commands : list (Command StandardVertex)) (s : t)
  : list Mesh * t * list (Command StandardVertex) :=
  match calls with
  | [] => ([], s, commands)
  | (vertices, indices) :: rest =>
      let '(mesh, s1, commands1) := add_mesh vertices indices commands s in
      let '(meshes, s2, commands2) := add_meshes rest commands1 s1 in
      (mesh :: meshes, s2, commands2)
  end.

(** [begin_adding_meshes], the calls, [end_adding_meshes]. *)
Definition upload_session (calls : list (list StandardVertex * list Z))
    (commands : list (Command StandardVertex)) (s : t)
  : list Mesh * t * list (Command StandardVertex) :=
  let '(meshes, s', commands') := add_meshes calls (begin_adding_meshes commands) s in
  (meshes, s', end_adding_meshes commands').

End WithVertex.

(** The index arrays handed to the index buffer, in upload order. *)
Definition uploaded_indices {V} (commands : list (Command V)) : list (list Z) :=
  omap (fun c => match c with UploadIndices src _ _ => Some src | _ => None end) commands.

Definition total_vertices {V} (calls : list (list V * list Z)) : Z :=
  foldr (fun c acc => Z.of_nat (length (fst c)) + acc) 0 calls.

Definition total_indices {V} (calls : list (list V * list Z)) : Z :=
  foldr (fun c acc => Z.of_nat (length (snd c)) + acc) 0 calls.

(** The data of [calls] fits: added to the store [s], whose vertices take
    [sizeof_StandardVertex] bytes each, it takes neither the byte cursor of
    the vertex buffer nor the index cursor to [2^32]. *)
Definition fits {V} (sizeof_StandardVertex : Z) (calls : list (list V * list Z))
    (s : t) : Prop :=
  is_uint32 (next_free_vertex_byte s) /\
  is_uint32 (next_index_offset s) /\
  next_free_vertex_byte s + total_vertices calls * sizeof_StandardVertex < UINT32_MODULUS /\
  next_index_offset s + total_indices calls < UINT32_MODULUS.

End MeshDataStore.

(** ** Bind groups (d3d12_bind_group.cpp) *)

Module BindGroup.

(** [ID3D12Resource::GetGPUVirtualAddress()] *)
Record ID3D12Resource := { GetGPUVirtualAddress : Z }.

Record D3D12Buffer := { buffer_resource : ID3D12Resource }.
Record D3D12Image := { image_resource : ID3D12Resource }.

Inductive RootDescriptorType := ConstantBuffer | ShaderResource | UnorderedAccess.

Record RootDescriptorDescription := {
  idx : Z;
  type : RootDescriptorType
}.

Inductive RootParameterType := Empty | Descriptor | DescriptorTable.

#[global] Instance RootParameterType_eq_dec : EqDecision RootParameterType.
Proof. solve_decision. Defined.

Record RootDescriptor := {
  descriptor_type : RootDescriptorType;
  address : Z
}.

Record RootDescriptorTable := { handle : Z }.

Record RootParameter := {
  param_type : RootParameterType;
  descriptor : RootDescriptor;
  table : RootDescriptorTable
}.

(** Modelled from the spec: the declaration of [RootParameter] in
    d3d12_bind_group.hpp is missing.  A value-initialised root parameter is
    an entry "left empty": its type is [Empty], which is what [build] tests
    before it uses a slot, and its payload is zero. *)
Definition empty_root_parameter : RootParameter :=
  {| param_type := Empty;
     descriptor := {| descriptor_type := ConstantBuffer; address := 0 |};
     table := {| handle := 0 |} |}.

Record D3D12BindGroup := { root_parameters : list RootParameter }.

(** What [bound_buffers] holds under a name.  [set_buffer] stores a buffer;
    [set_image_array] stores its vector of images in [bound_buffers] too
    (line 99 of the source), so both kinds of value occur in this map. *)
Inductive BoundBufferEntry :=
| BufferEntry (buffer : D3D12Buffer)
| ImageArrayEntry (images : list D3D12Image).

(** The builder.  The two declaration maps are only iterated by [build]:
    each is the list of its entries in iteration order. *)
Record D3D12BindGroupBuilder := {
  root_descriptor_descriptions : list (string * RootDescriptorDescription);
  descriptor_table_descriptor_mappings : list (string * Z);
  descriptor_table_handles : list (Z * Z);
  bound_buffers : gmap string BoundBufferEntry;
  bound_images : gmap string (list D3D12Image)
}.

Definition new_builder
    (root_descriptor_descriptions_in : list (string * RootDescriptorDescription))
    (descriptor_table_descriptor_mappings_in : list (string * Z))
    (descriptor_table_handles_in : list (Z * Z)) : D3D12BindGroupBuilder :=
  {| root_descriptor_descriptions := root_descriptor_descriptions_in;
     descriptor_table_descriptor_mappings := descriptor_table_descriptor_mappings_in;
     descriptor_table_handles := descriptor_table_handles_in;
     bound_buffers := ∅;
     bound_images := ∅ |}.

Definition with_bound_buffers (b : D3D12BindGroupBuilder)
    (m : gmap string BoundBufferEntry) : D3D12BindGroupBuilder :=
  {| root_descriptor_descriptions := root_descriptor_descriptions b;
     descriptor_table_descriptor_mappings := descriptor_table_descriptor_mappings b;
     descriptor_table_handles := descriptor_table_handles b;
     bound_buffers := m;
     bound_images := bound_images b |}.

Definition set_buffer (name : string) (buffer : D3D12Buffer)
    (b : D3D12BindGroupBuilder) : D3D12BindGroupBuilder :=
  with_bound_buffers b (<[name := BufferEntry buffer]> (bound_buffers b)).

Definition set_image_array (name : string) (images : list D3D12Image)
    (b : D3D12BindGroupBuilder) : D3D12BindGroupBuilder :=
  let d3d12_images := images in
  with_bound_buffers b (<[name := ImageArrayEntry d3d12_images]> (bound_buffers b)).

Definition set_image (name : string) (image : D3D12Image)
    (b : D3D12BindGroupBuilder) : D3D12BindGroupBuilder :=
  set_image_array name [image] b.

(** [ENSURE(cond, ...)]: a fatal assertion. *)
Definition ENSURE {A} (cond : bool) (continue : option A) : option A :=
  if cond then continue else None.

(** A range-for loop whose body may hit a fatal assertion. *)
Fixpoint for_each {A S} (body : S -> A -> option S) (s : S) (l : list A) : option S :=
  match l with
  | [] => Some s
  | x :: rest =>
      match body s x with
      | Some s' => for_each body s' rest
      | None => None
      end
  end.

Definition set_table (h : Z) (p : RootParameter) : RootParameter :=
  {| param_type := DescriptorTable;
     descriptor := descriptor p;
     table := {| handle := h |} |}.

Definition set_descriptor_type (ty : RootDescriptorType) (p : RootParameter) : RootParameter :=
  {| param_type := Descriptor;
     descriptor := {| descriptor_type := ty; address := address (descriptor p) |};
     table := table p |}.

Definition set_descriptor_address (a : Z) (p : RootParameter) : RootParameter :=
  {| param_type := param_type p;
     descriptor := {| descriptor_type := descriptor_type (descriptor p); address := a |};
     table := table p |}.

(** Body of the loop "Save descriptor table information". *)
Definition save_descriptor_table (root_parameters : list RootParameter)
    (entry : Z * Z) : option (list RootParameter) :=
  let '(idx, handle) := entry in
  ENSURE (idx <? 64)
    (Some (alter (set_table handle) (Z.to_nat idx) root_parameters)).

Definition no_resources_bound (name : string) : LogLine :=
  {| level := Warn; message := "No resources bound to root descriptor " ++ name |}.

(** Body of the loop "Save root descriptor information".  The state is the
    vector of root parameters and the log written so far. *)
Definition save_root_descriptor (b : D3D12BindGroupBuilder)
    (st : list RootParameter * list LogLine)
    (entry : string * RootDescriptorDescription)
  : option (list RootParameter * list LogLine) :=
  let '(root_parameters, log) := st in
  let '(name, desc) := entry in
  let i := Z.to_nat (idx desc) in
  ENSURE (idx desc <? 32)
    (match root_parameters !! i with
     | None => None
     | Some p =>
         ENSURE (bool_decide (param_type p = Empty))
           (let root_parameters1 := alter (set_descriptor_type (type desc)) i root_parameters in
            match bound_buffers b !! name with
            | Some (BufferEntry buffer) =>
                Some (alter (set_descriptor_address
                               (GetGPUVirtualAddress (buffer_resource buffer)))
                            i root_parameters1, log)
            | Some (ImageArrayEntry _) =>
                (* [buffer_itr->second->resource] on a vector of images:
                   the expression has no meaning, the build has no result *)
                None
            | None =>
                match bound_images b !! name with
                | Some images =>
                    ENSURE (bool_decide (length images = 1%nat))
                      (match images !! 0%nat with
                       | Some image =>
                           Some (alter (set_descriptor_address
                                          (GetGPUVirtualAddress (image_resource image)))
                                       i root_parameters1, log)
                       | None => None
                       end)
                | None => Some (root_parameters1, log ++ [no_resources_bound name])
                end
            end)
     end).

Definition build (b : D3D12BindGroupBuilder) : option (D3D12BindGroup * list LogLine) :=
  (* D3D12 has a maximum root signature size of 64 descriptor tables *)
  let root_parameters := replicate 64 empty_root_parameter in
  match for_each save_descriptor_table root_parameters (descriptor_table_handles b) with
  | None => None
  | Some root_parameters1 =>
      match for_each (save_root_descriptor b) (root_parameters1, [])
              (root_descriptor_descriptions b) with
      | None => None
      | Some (root_parameters2, log) =>
          (* Bind resources to descriptor table descriptors *)
          Some ({| root_parameters := root_parameters2 |}, log)
      end
  end.

(** A root-descriptor slot that no [set_*] call has bound. *)
Definition unbound (b : D3D12BindGroupBuilder) (name : string) : Prop :=
  bound_buffers b !! name = None /\ bound_images b !! name = None.

(** A root-descriptor slot that [build] can fill: a buffer, or one image
    in [bound_images]. *)
Definition satisfied (b : D3D12BindGroupBuilder) (name : string) : Prop :=
  (exists buffer, bound_buffers b !! name = Some (BufferEntry buffer)) \/
  (bound_buffers b !! name = None /\ exists image, bound_images b !! name = Some [image]).

(** The declarations respect the limits that [build] asserts: table
    indices below 64, root-descriptor indices below 32, no index used
    twice.  Indices are [uint32_t], names are map keys. *)
Record well_declared (b : D3D12BindGroupBuilder) : Prop := {
  table_indices_in_range :
    forall i h, (i, h) ∈ descriptor_table_handles b -> 0 <= i < 64;
  root_indices_in_range :
    forall n d, (n, d) ∈ root_descriptor_descriptions b -> 0 <= idx d < 32;
  root_indices_distinct :
    NoDup (map (fun e => idx (snd e)) (root_descriptor_descriptions b));
  root_indices_free :
    forall n d h, (n, d) ∈ root_descriptor_descriptions b ->
                  (idx d, h) ∉ descriptor_table_handles b;
  root_names_distinct :
    NoDup (map fst (root_descriptor_descriptions b))
}.

End BindGroup.

(** ** Render device: resources (d3d12_render_device.cpp) *)

Module RenderDevice.

(** [HRESULT] and the [FAILED] macro of the Windows headers. *)
Definition FAILED (hr : Z) : bool := hr <? 0.

Definition S_OK : Z := 0.
Definition E_OUTOFMEMORY : Z := -2147024882.

(** Heap types and resource states of d3d12.h.  [HEAP_TYPE_UNSET] is the zero
    that [D3D12MA::ALLOCATION_DESC alloc_desc{}] starts with. *)
Inductive D3D12_HEAP_TYPE := HEAP_TYPE_UNSET | HEAP_TYPE_DEFAULT | HEAP_TYPE_UPLOAD.

Definition D3D12_RESOURCE_STATE_COMMON : Z := 0.
Definition D3D12_RESOURCE_STATE_RENDER_TARGET : Z := 4.
Definition D3D12_RESOURCE_STATE_UNORDERED_ACCESS : Z := 8.
Definition D3D12_RESOURCE_STATE_DEPTH_WRITE : Z := 16.
Definition D3D12_RESOURCE_STATE_NON_PIXEL_SHADER_RESOURCE : Z := 64.
Definition D3D12_RESOURCE_STATE_PIXEL_SHADER_RESOURCE : Z := 128.
Definition D3D12_RESOURCE_STATE_GENERIC_READ : Z := 2755.

Inductive ResourceDesc :=
| BufferDesc (width : Z)
| Tex2DDesc (format : Z) (width height : Z).

Record AllocationRequest := {
  heap_type : D3D12_HEAP_TYPE;
  desc : ResourceDesc;
  initial_state : Z
}.

(** What [device_allocator->CreateResource] answers: the [HRESULT], and the
    allocation and resource it wrote through its out-parameters. *)
Record CreateResourceResult := {
  hresult : Z;
  out_allocation : nat;
  out_resource : nat
}.

(** The GPU memory allocator (D3D12MA), which is not part of the engine. *)
Definition Allocator := AllocationRequest -> CreateResourceResult.

(** [OtherBufferUsage] stands for a value of the enum that the switch of
    [create_buffer] does not list. *)
Inductive BufferUsage :=
| StagingBuffer
| IndexBuffer
| VertexBuffer
| ConstantBuffer
| IndirectCommands
| UnorderedAccess
| OtherBufferUsage.

Record BufferCreateInfo := {
  buffer_name : string;
  buffer_usage : BufferUsage;
  buffer_size : Z
}.

Record D3D12Buffer := {
  allocation : nat;
  resource : nat;
  mapped : bool;
  size : Z;
  object_name : string
}.

(** The request that [create_buffer] hands to the allocator, and whether it
    maps the buffer afterwards. *)
Definition buffer_request (create_info : BufferCreateInfo) : AllocationRequest * bool :=
  let desc := BufferDesc (buffer_size create_info) in
  match buffer_usage create_info with
  | StagingBuffer | ConstantBuffer =>
      ({| heap_type := HEAP_TYPE_UPLOAD; desc := desc;
          initial_state := D3D12_RESOURCE_STATE_GENERIC_READ |}, true)
  | IndirectCommands | UnorderedAccess | IndexBuffer | VertexBuffer =>
      ({| heap_type := HEAP_TYPE_DEFAULT; desc := desc;
          initial_state := D3D12_RESOURCE_STATE_COMMON |}, false)
  | OtherBufferUsage =>
      ({| heap_type := HEAP_TYPE_UNSET; desc := desc;
          initial_state := D3D12_RESOURCE_STATE_COMMON |}, false)
  end.

(** [create_buffer]: [None] is the empty [std::unique_ptr] of [return {}].
    spdlog formats with braces, so the [%s] stays in the line as it is. *)
Definition create_buffer (device_allocator : Allocator) (create_info : BufferCreateInfo)
  : option D3D12Buffer * list LogLine :=
  let '(request, should_map) := buffer_request create_info in
  let result := device_allocator request in
  if FAILED (hresult result) then
    (None, [{| level := Error; message := "Could not create buffer %s" |}])
  else
    (Some {| allocation := out_allocation result;
             resource := out_resource result;
             mapped := should_map;
             size := buffer_size create_info;
             object_name := buffer_name create_info |}, []).

(** [OtherImageUsage] stands for a value of the enum that the switch of
    [create_image] does not list. *)
Inductive ImageUsage :=
| RenderTarget
| SampledImage
| DepthStencil
| ImageUnorderedAccess
| OtherImageUsage.

Record ImageCreateInfo := {
  image_name : string;
  image_usage : ImageUsage;
  image_format : Z;
  image_width : Z;
  image_height : Z
}.

Record D3D12Image := {
  image_allocation : nat;
  image_resource : nat;
  format : Z;
  image_object_name : string
}.

Section CreateImage.
(** [to_dxgi_format] of helpers.hpp. *)
Variable to_dxgi_format : Z -> Z.

Definition image_initial_state (create_info : ImageCreateInfo) : Z * list LogLine :=
  match image_usage create_info with
  | RenderTarget => (D3D12_RESOURCE_STATE_RENDER_TARGET, [])
  | SampledImage =>
      (Z.lor D3D12_RESOURCE_STATE_PIXEL_SHADER_RESOURCE
             D3D12_RESOURCE_STATE_NON_PIXEL_SHADER_RESOURCE, [])
  | DepthStencil => (D3D12_RESOURCE_STATE_DEPTH_WRITE, [])
  | ImageUnorderedAccess => (D3D12_RESOURCE_STATE_UNORDERED_ACCESS, [])
  | OtherImageUsage =>
      (D3D12_RESOURCE_STATE_COMMON,
       [{| level := Warn;
           message := "Unrecognized usage for image " ++ image_name create_info ++
                      ", defaulting to the common resource state" |}])
  end.

(** The request that [create_image] hands to the allocator; the width and
    height are the rounded ones. *)
Definition image_request (create_info : ImageCreateInfo) : AllocationRequest :=
  {| heap_type := HEAP_TYPE_DEFAULT;
     desc := Tex2DDesc (to_dxgi_format (image_format create_info))
                       (image_width create_info) (image_height create_info);
     initial_state := fst (image_initial_state create_info) |}.

Definition create_image (device_allocator : Allocator) (create_info : ImageCreateInfo)
  : option D3D12Image * list LogLine :=
  let format := to_dxgi_format (image_format create_info) in
  let '(_, log) := image_initial_state create_info in
  let result := device_allocator (image_request create_info) in
  if FAILED (hresult result) then
    (None, log ++ [{| level := Error; message := "Could not create image %s" |}])
  else
    (Some {| image_allocation := out_allocation result;
             image_resource := out_resource result;
             format := format;
             image_object_name := image_name create_info |}, log).

End CreateImage.

(** *** Staging buffers *)

(** [resource] and [allocation] are COM pointers, null in a buffer that was
    not created. *)
Record D3D12StagingBuffer := {
  staging_allocation : option nat;
  staging_resource : option nat;
  staging_size : Z;
  staging_mapped : bool;
  staging_name : string
}.

(** Modelled from the spec: [D3D12StagingBuffer] is declared in resources.hpp,
    which is missing.  [return {}] is the "empty result" of a failed creation:
    no allocation, no resource, no mapping, and a value-initialised size. *)
Definition empty_staging_buffer : D3D12StagingBuffer :=
  {| staging_allocation := None;
     staging_resource := None;
     staging_size := 0;
     staging_mapped := false;
     staging_name := "" |}.

Definition staging_request (num_bytes : Z) : AllocationRequest :=
  {| heap_type := HEAP_TYPE_UPLOAD;
     desc := BufferDesc num_bytes;
     initial_state := D3D12_RESOURCE_STATE_GENERIC_READ |}.

(** The device's pool of staging buffers and the counter that names them. *)
Record StagingPool := {
  staging_buffers : list D3D12StagingBuffer;
  staging_buffer_idx : Z
}.

(** [fmt::format("Staging Buffer {}", staging_buffer_idx)]; the digits of the
    counter are not spelled out. *)
Definition staging_buffer_name (idx : Z) : string := "Staging Buffer {}".

Definition create_staging_buffer (device_allocator : Allocator) (num_bytes : Z)
    (pool : StagingPool) : D3D12StagingBuffer * StagingPool * list LogLine :=
  let result := device_allocator (staging_request num_bytes) in
  if FAILED (hresult result) then
    (empty_staging_buffer, pool,
     [{| level := Error; message := "Could not create staging buffer" |}])
  else
    ({| staging_allocation := Some (out_allocation result);
        staging_resource := Some (out_resource result);
        staging_size := num_bytes;
        staging_mapped := true;
        staging_name := staging_buffer_name (staging_buffer_idx pool) |},
     {| staging_buffers := staging_buffers pool;
        staging_buffer_idx := staging_buffer_idx pool + 1 |},
     []).

(** Body of the search loop of [get_staging_buffer], at index [i]. *)
Definition best_fit_step (buffers : list D3D12StagingBuffer) (num_bytes : Z)
    (best_fit_idx i : nat) : nat :=
  match buffers !! i with
  | Some candidate =>
      if num_bytes <=? staging_size candidate then
        if (length buffers <=? best_fit_idx)%nat then
          (* This is the first suitable buffer we've found *)
          i
        else
          match buffers !! best_fit_idx with
          | Some best =>
              if staging_size candidate <? staging_size best then
                (* The current buffer is more suitable than the previous best buffer *)
                i
              else best_fit_idx
          | None => best_fit_idx
          end
      else best_fit_idx
  | None => best_fit_idx
  end.

(** [for(size_t i = 0; i < staging_buffers.size(); i++)] *)
Definition find_best_fit (buffers : list D3D12StagingBuffer) (num_bytes : Z) : nat :=
  foldl (best_fit_step buffers num_bytes) (length buffers) (seq 0 (length buffers)).

Definition get_staging_buffer (device_allocator : Allocator) (num_bytes : Z)
    (pool : StagingPool) : D3D12StagingBuffer * StagingPool * list LogLine :=
  let best_fit_idx := find_best_fit (staging_buffers pool) num_bytes in
  (* [best_fit_idx < staging_buffers.size()] is: the lookup finds a buffer *)
  match staging_buffers pool !! best_fit_idx with
  | Some buffer =>
      (* We found a valid staging buffer! *)
      (buffer,
       {| staging_buffers := delete best_fit_idx (staging_buffers pool);
          staging_buffer_idx := staging_buffer_idx pool |},
       [])
  | None =>
      (* No suitable buffer is available, let's make a new one *)
      create_staging_buffer device_allocator num_bytes pool
  end.

Definition return_staging_buffer (buffer : D3D12StagingBuffer) (pool : StagingPool)
  : StagingPool :=
  {| staging_buffers := staging_buffers pool ++ [buffer];
     staging_buffer_idx := staging_buffer_idx pool |}.

End RenderDevice.

(** ** Render device: submission, completion tracking and the frame ring *)

Module RenderDeviceSync.
Import RenderDevice.

(** The fences of the device: one per frame slot ([frame_fences]), and the
    ones made for submitted command lists, numbered as they are created. *)
Inductive Fence :=
| FrameFence (slot : nat)
| CommandListFence (n : nat).

#[global] Instance Fence_eq_dec : EqDecision Fence.
Proof. solve_decision. Defined.

(** A command list object; [list_id] is its identity (the heap object behind
    the [std::unique_ptr]). *)
Record CommandList := {
  list_id : nat;
  debug_name : string
}.

Definition set_debug_name (name : string) (commands : CommandList) : CommandList :=
  {| list_id := list_id commands; debug_name := name |}.

(** The outcome of a function that may read outside a container. *)
Inductive Outcome (A : Type) :=
| Returns (x : A)
| UndefinedBehaviour.
Arguments Returns {A} x.
Arguments UndefinedBehaviour {A}.

(** [*it] for the iterator of [v] at position [i]; [v.end()] is the position
    [length v].  Nothing is there to read at or past the end. *)
Definition dereference {A} (v : list A) (i : nat) : option A := v !! i.

Definition vector_end {A} (v : list A) : nat := length v.

Definition pop_back {A} (v : list A) : list A := removelast v.

(** [get_next_command_list_done_fence].  [CreateFence] is what
    [device->CreateFence] answers: the [HRESULT] and the fence pointer it
    wrote, null when there is none. *)
Definition get_next_command_list_done_fence (CreateFence : Z * option Fence)
    (command_list_done_fences : list Fence)
  : Outcome (option Fence * list Fence * list LogLine) :=
  match command_list_done_fences with
  | _ :: _ =>
      match dereference command_list_done_fences (vector_end command_list_done_fences) with
      | Some fence => Returns (Some fence, pop_back command_list_done_fences, [])
      | None => UndefinedBehaviour
      end
  | [] =>
      let '(result, fence) := CreateFence in
      if FAILED result then
        Returns (fence, command_list_done_fences,
                 [{| level := Error; message := "Could not create fence: {}" |};
                  {| level := Error; message := "Device removed reason: {}" |}])
      else Returns (fence, command_list_done_fences, [])
  end.

(** What the direct command queue has been given and the GPU has not yet
    executed. *)
Inductive QueueOp :=
| ExecuteCommandLists (commands : CommandList)
| Signal (fence : Fence) (value : Z).

(** What an observer of a run sees, in the order it happens. *)
Inductive Event :=
| Submitted (commands : CommandList) (fence : Fence)
| CompletionFunctionsExecuted (commands : CommandList)
| WorkerWaitReturned (commands : CommandList) (fence : Fence) (fence_signaled : bool)
| FrameWaitReturned (slot : nat) (desired_fence_value completed_value : Z)
| FrameFenceSignal (slot : nat) (value : Z)
| Presented (slot : nat).

(** Where the render thread is: running, or inside the [wait_for_frame] call
    of [begin_frame]. *)
Inductive MainThread :=
| Running
| InWaitForFrame (frame_index : nat).

(** Where [wait_for_command_lists] is: at the top of its loop, or in
    [WaitForSingleObject] for the pair it popped. *)
Inductive CompletionThread :=
| Polling
| Waiting (cur_pair : Fence * CommandList).

(** The members of [D3D12RenderDevice] that take part in submission and frame
    synchronisation, together with the GPU side that they talk to: the
    pending work of the direct queue, the completed value of every fence, and
    the swapchain's current back buffer.  [frame_fence_values] holds fence
    values, counters that only grow; its element type is declared in the
    missing d3d12_render_device.hpp and is not bounded here. *)
Record State := {
  num_frames : nat;
  frame_fence_values : list Z;
  in_flight_command_lists : list (Fence * CommandList);
  done_command_lists : list CommandList;
  command_list_done_fences : list Fence;
  main_thread : MainThread;
  command_completion_thread : CompletionThread;
  direct_command_queue : list QueueOp;
  GetCompletedValue : Fence -> Z;
  GetCurrentBackBufferIndex : nat;
  created_command_lists : nat;
  created_fences : nat;
  events : list Event
}.

(** The device after its constructor: every fence is created with value 0,
    [frame_fence_values.resize(num_images)] fills in zeros. *)
Definition initial (num_frames_in : nat) : State :=
  {| num_frames := num_frames_in;
     frame_fence_values := replicate num_frames_in 0;
     in_flight_command_lists := [];
     done_command_lists := [];
     command_list_done_fences := [];
     main_thread := Running;
     command_completion_thread := Polling;
     direct_command_queue := [];
     GetCompletedValue := fun _ => 0;
     GetCurrentBackBufferIndex := 0;
     created_command_lists := 0;
     created_fences := 0;
     events := [] |}.

Definition emit (e : list Event) (s : State) : State :=
  {| num_frames := num_frames s;
     frame_fence_values := frame_fence_values s;
     in_flight_command_lists := in_flight_command_lists s;
     done_command_lists := done_command_lists s;
     command_list_done_fences := command_list_done_fences s;
     main_thread := main_thread s;
     command_completion_thread := command_completion_thread s;
     direct_command_queue := direct_command_queue s;
     GetCompletedValue := GetCompletedValue s;
     GetCurrentBackBufferIndex := GetCurrentBackBufferIndex s;
     created_command_lists := created_command_lists s;
     created_fences := created_fences s;
     events := events s ++ e |}.

(** The queue and the GPU behind it. *)
Definition with_gpu (queue : list QueueOp) (completed : Fence -> Z) (back_buffer : nat)
    (s : State) : State :=
  {| num_frames := num_frames s;
     frame_fence_values := frame_fence_values s;
     in_flight_command_lists := in_flight_command_lists s;
     done_command_lists := done_command_lists s;
     command_list_done_fences := command_list_done_fences s;
     main_thread := main_thread s;
     command_completion_thread := command_completion_thread s;
     direct_command_queue := queue;
     GetCompletedValue := completed;
     GetCurrentBackBufferIndex := back_buffer;
     created_command_lists := created_command_lists s;
     created_fences := created_fences s;
     events := events s |}.

Definition enqueue (op : QueueOp) (s : State) : State :=
  with_gpu (direct_command_queue s ++ [op]) (GetCompletedValue s)
           (GetCurrentBackBufferIndex s) s.

(** The two mutex-guarded queues and the worker that moves lists between
    them. *)
Definition with_queues (in_flight : list (Fence * CommandList)) (done : list CommandList)
    (worker : CompletionThread) (s : State) : State :=
  {| num_frames := num_frames s;
     frame_fence_values := frame_fence_values s;
     in_flight_command_lists := in_flight;
     done_command_lists := done;
     command_list_done_fences := command_list_done_fences s;
     main_thread := main_thread s;
     command_completion_thread := worker;
     direct_command_queue := direct_command_queue s;
     GetCompletedValue := GetCompletedValue s;
     GetCurrentBackBufferIndex := GetCurrentBackBufferIndex s;
     created_command_lists := created_command_lists s;
     created_fences := created_fences s;
     events := events s |}.

(** The render thread's own data. *)
Definition with_main (values : list Z) (fences : list Fence) (thread : MainThread)
    (lists fences_made : nat) (s : State) : State :=
  {| num_frames := num_frames s;
     frame_fence_values := values;
     in_flight_command_lists := in_flight_command_lists s;
     done_command_lists := done_command_lists s;
     command_list_done_fences := fences;
     main_thread := thread;
     command_completion_thread := command_completion_thread s;
     direct_command_queue := direct_command_queue s;
     GetCompletedValue := GetCompletedValue s;
     GetCurrentBackBufferIndex := GetCurrentBackBufferIndex s;
     created_command_lists := lists;
     created_fences := fences_made;
     events := events s |}.

Definition set_main_thread (thread : MainThread) (s : State) : State :=
  with_main (frame_fence_values s) (command_list_done_fences s) thread
            (created_command_lists s) (created_fences s) s.

Section WithConstants.
(** [CPU_FENCE_SIGNALED] of core/constants.hpp. *)
Variable CPU_FENCE_SIGNALED : Z.

(** [create_render_command_list], when [CreateCommandList] succeeds: a new
    command list object. *)
Definition create_render_command_list (s : State) : CommandList * State :=
  ({| list_id := created_command_lists s; debug_name := "" |},
   with_main (frame_fence_values s) (command_list_done_fences s) (main_thread s)
             (S (created_command_lists s)) (created_fences s) s).

(** [submit_command_list].  [CreateFence] succeeds and gives a fence that no
    one has yet; a null fence or a read outside the pool leaves the call
    without a defined next state. *)
Definition submit_command_list (commands : CommandList) (s : State) : option State :=
  let s1 := enqueue (ExecuteCommandLists commands) s in
  match get_next_command_list_done_fence
          (S_OK, Some (CommandListFence (created_fences s1)))
          (command_list_done_fences s1) with
  | Returns (Some command_list_done_fence, pool, _) =>
      let s2 := with_main (frame_fence_values s1) pool (main_thread s1)
                          (created_command_lists s1) (S (created_fences s1)) s1 in
      let s3 := enqueue (Signal command_list_done_fence CPU_FENCE_SIGNALED) s2 in
      let s4 := with_queues
                  (in_flight_command_lists s3 ++ [(command_list_done_fence, commands)])
                  (done_command_lists s3) (command_completion_thread s3) s3 in
      Some (emit [Submitted commands command_list_done_fence] s4)
  | _ => None
  end.

(** [begin_frame] up to its call of [wait_for_frame]: the completion
    functions of every list in [done_command_lists] run, front first, and the
    thread enters the wait for the current back buffer's slot. *)
Definition begin_frame_enter (s : State) : option State :=
  match main_thread s with
  | Running =>
      let s1 := emit (map CompletionFunctionsExecuted (done_command_lists s)) s in
      let s2 := with_queues (in_flight_command_lists s1) []
                            (command_completion_thread s1) s1 in
      let cur_swapchain_idx := GetCurrentBackBufferIndex s2 in
      Some (set_main_thread (InWaitForFrame cur_swapchain_idx) s2)
  | InWaitForFrame _ => None
  end.

(** [wait_for_frame(frame_index)] returns: at once when the fence has
    completed the desired value, otherwise when [frame_event], set on
    completion of that value, wakes the infinite wait.  Either way the fence
    has reached the value; until then the call does not return. *)
Definition wait_for_frame (frame_index : nat) (s : State) : option (Z * Z) :=
  match frame_fence_values s !! frame_index with
  | Some desired_fence_value =>
      let completed := GetCompletedValue s (FrameFence frame_index) in
      if desired_fence_value <=? completed
      then Some (desired_fence_value, completed)
      else None
  | None => None
  end.

(** The rest of [begin_frame], from the return of [wait_for_frame]. *)
Definition begin_frame_proceed (s : State) : option State :=
  match main_thread s with
  | InWaitForFrame cur_swapchain_idx =>
      match wait_for_frame cur_swapchain_idx s with
      | Some (desired, completed) =>
          let s1 := emit [FrameWaitReturned cur_swapchain_idx desired completed] s in
          let s2 := with_main
                      (<[cur_swapchain_idx := desired + 1]> (frame_fence_values s1))
                      (command_list_done_fences s1) Running
                      (created_command_lists s1) (created_fences s1) s1 in
          let '(cmds, s3) := create_render_command_list s2 in
          let cmds := set_debug_name "Transition Swapchain to Render Target" cmds in
          submit_command_list cmds s3
      | None => None
      end
  | Running => None
  end.

(** [Present] hands the next buffer of the swapchain to the renderer. *)
Definition Present (s : State) : State :=
  let cur := GetCurrentBackBufferIndex s in
  emit [Presented cur]
    (with_gpu (direct_command_queue s) (GetCompletedValue s)
              (S cur mod num_frames s)%nat s).

Definition end_frame (s : State) : option State :=
  match main_thread s with
  | Running =>
      let '(cmds, s1) := create_render_command_list s in
      let cmds := set_debug_name "Transition Swapchain to Presentable" cmds in
      let cur_swapchain_idx := GetCurrentBackBufferIndex s1 in
      match submit_command_list cmds s1 with
      | Some s2 =>
          match frame_fence_values s2 !! cur_swapchain_idx with
          | Some value =>
              let s3 := enqueue (Signal (FrameFence cur_swapchain_idx) value) s2 in
              Some (Present (emit [FrameFenceSignal cur_swapchain_idx value] s3))
          | None => None
          end
      | None => None
      end
  | InWaitForFrame _ => None
  end.

(** A caller of the device creates a command list, records into it and
    submits it, as [Renderer::render_scene] does. *)
Definition render (name : string) (s : State) : option State :=
  match main_thread s with
  | Running =>
      let '(cmds, s1) := create_render_command_list s in
      submit_command_list (set_debug_name name cmds) s1
  | InWaitForFrame _ => None
  end.

(** The GPU executes the operation at the front of the direct queue. *)
Definition gpu_execute (s : State) : option State :=
  match direct_command_queue s with
  | ExecuteCommandLists _ :: rest =>
      Some (with_gpu rest (GetCompletedValue s) (GetCurrentBackBufferIndex s) s)
  | Signal fence value :: rest =>
      Some (with_gpu rest (<[fence := value]> (GetCompletedValue s))
                     (GetCurrentBackBufferIndex s) s)
  | [] => None
  end.

(** One turn of the loop of [wait_for_command_lists] up to its wait: with
    nothing in flight it goes round again, otherwise it pops the front pair.
    [should_wait_for_cv] is never set, so the loop does not wait on the
    condition variable; [should_thread_continue] is cleared only by the
    destructor, which the runs below do not reach. *)
Definition worker_pop (s : State) : option State :=
  match command_completion_thread s with
  | Polling =>
      match in_flight_command_lists s with
      | [] => Some s
      | cur_pair :: rest =>
          Some (with_queues rest (done_command_lists s) (Waiting cur_pair) s)
      end
  | Waiting _ => None
  end.

(** [WaitForSingleObject(event, 2000)] returns, because the fence reached
    [CPU_FENCE_SIGNALED] or because the two seconds are over, and the list
    goes to [done_command_lists].  The event records whether the fence had
    reached the value. *)
Definition worker_wait_returns (s : State) : option State :=
  match command_completion_thread s with
  | Waiting (fence, commands) =>
      let fence_signaled := CPU_FENCE_SIGNALED <=? GetCompletedValue s fence in
      let s1 := emit [WorkerWaitReturned commands fence fence_signaled] s in
      Some (with_queues (in_flight_command_lists s1)
                        (done_command_lists s1 ++ [commands]) Polling s1)
  | Polling => None
  end.

(** The moves of the render thread, the completion thread and the GPU. *)
Inductive Action :=
| Render (name : string)
| BeginFrame
| FrameSlotFree
| EndFrame
| GpuExecutes
| WorkerPops
| WorkerWaitReturns.

(** The actions that are calls made by the render thread. *)
Definition of_render_thread (a : Action) : bool :=
  match a with
  | Render _ | BeginFrame | EndFrame => true
  | _ => false
  end.

Definition step (a : Action) (s : State) : option State :=
  match a with
  | Render name => render name s
  | BeginFrame => begin_frame_enter s
  | FrameSlotFree => begin_frame_proceed s
  | EndFrame => end_frame s
  | GpuExecutes => gpu_execute s
  | WorkerPops => worker_pop s
  | WorkerWaitReturns => worker_wait_returns s
  end.

(** A run: the actions in the order in which they happen.  [None] when an
    action is taken where it cannot happen. *)
Fixpoint run (actions : list Action) (s : State) : option State :=
  match actions with
  | [] => Some s
  | a :: rest =>
      match step a s with
      | Some s' => run rest s'
      | None => None
      end
  end.

End WithConstants.

(** The command lists submitted, and those whose completion functions ran,
    each in the order of the events. *)
Definition submitted (evs : list Event) : list CommandList :=
  omap (fun e => match e with Submitted commands _ => Some commands | _ => None end) evs.

Definition completed (evs : list Event) : list CommandList :=
  omap (fun e => match e with CompletionFunctionsExecuted commands => Some commands
                         | _ => None end) evs.

End RenderDeviceSync.


(** * More of the engine *)

(** ** Material data buffer: a sequence of allocations *)

Module MaterialAllocations.
Import MaterialDataBuffer.

(** A caller's sequence of [get_next_free_material<T>()] calls, each with the
    size of its struct type; the result pairs every handle with that size. *)
Fixpoint allocate (sizes : list Z) (b : t) : list (Z * MaterialHandle) * t :=
  match sizes with
  | [] => ([], b)
  | struct_size :: rest =>
      let '(handle, b1) := get_next_free_material struct_size b in
      let '(handles, b2) := allocate rest b1 in
      ((struct_size, handle) :: handles, b2)
  end.

(** Room that certainly suffices for [sizes]: every allocation moves the
    cursor by less than twice its struct size. *)
Definition room_for (sizes : list Z) : Z :=
  foldr (fun struct_size acc => 2 * struct_size + acc) 0 sizes.

End MaterialAllocations.

(** ** Mesh data store: what a session records *)

Module MeshUploads.
Import MeshDataStore.

Definition is_upload {V} (c : Command V) : bool :=
  match c with
  | ResourceBarrier _ => false
  | UploadVertices _ _ _ | UploadIndices _ _ _ => true
  end.

(** The indices of a mesh refer to the mesh's own vertices. *)
Definition refers_to_own_vertices {V} (vertices : list V) (indices : list Z) : Prop :=
  forall idx, idx ∈ indices -> 0 <= idx < Z.of_nat (length vertices).

End MeshUploads.

(** ** Bind groups: binding to a root signature (d3d12_bind_group.cpp) *)

Module BindGroupBinding.
Import BindGroup.

(** The calls that a bind group makes on the command list it is bound to. *)
Inductive RootCall :=
| SetGraphicsRootConstantBufferView (i : nat) (address : Z)
| SetGraphicsRootShaderResourceView (i : nat) (address : Z)
| SetGraphicsRootUnorderedAccessView (i : nat) (address : Z)
| SetGraphicsRootDescriptorTable (i : nat) (handle : Z)
| SetComputeRootConstantBufferView (i : nat) (address : Z)
| SetComputeRootShaderResourceView (i : nat) (address : Z)
| SetComputeRootUnorderedAccessView (i : nat) (address : Z)
| SetComputeRootDescriptorTable (i : nat) (handle : Z).

(** The two switches on the root parameter [i]; neither has a case for
    [Empty]. *)
Definition graphics_call (i : nat) (param : RootParameter) : list RootCall :=
  match param_type param with
  | Descriptor =>
      match descriptor_type (descriptor param) with
      | ConstantBuffer => [SetGraphicsRootConstantBufferView i (address (descriptor param))]
      | ShaderResource => [SetGraphicsRootShaderResourceView i (address (descriptor param))]
      | UnorderedAccess => [SetGraphicsRootUnorderedAccessView i (address (descriptor param))]
      end
  | DescriptorTable => [SetGraphicsRootDescriptorTable i (handle (table param))]
  | Empty => []
  end.

Definition compute_call (i : nat) (param : RootParameter) : list RootCall :=
  match param_type param with
  | Descriptor =>
      match descriptor_type (descriptor param) with
      | ConstantBuffer => [SetComputeRootConstantBufferView i (address (descriptor param))]
      | ShaderResource => [SetComputeRootShaderResourceView i (address (descriptor param))]
      | UnorderedAccess => [SetComputeRootUnorderedAccessView i (address (descriptor param))]
      end
  | DescriptorTable => [SetComputeRootDescriptorTable i (handle (table param))]
  | Empty => []
  end.

(** [for(uint32_t i = 0; i < root_parameters.size(); i++)], from [i] on. *)
Fixpoint bind_from (call : nat -> RootParameter -> list RootCall) (i : nat)
    (params : list RootParameter) : list RootCall :=
  match params with
  | [] => []
  | param :: rest => call i param ++ bind_from call (S i) rest
  end.

Definition bind_to_graphics_signature (bind_group : D3D12BindGroup) : list RootCall :=
  bind_from graphics_call 0 (root_parameters bind_group).

Definition bind_to_compute_signature (bind_group : D3D12BindGroup) : list RootCall :=
  bind_from compute_call 0 (root_parameters bind_group).

(** The compute call that corresponds to a graphics call. *)
Definition to_compute (c : RootCall) : RootCall :=
  match c with
  | SetGraphicsRootConstantBufferView i a => SetComputeRootConstantBufferView i a
  | SetGraphicsRootShaderResourceView i a => SetComputeRootShaderResourceView i a
  | SetGraphicsRootUnorderedAccessView i a => SetComputeRootUnorderedAccessView i a
  | SetGraphicsRootDescriptorTable i h => SetComputeRootDescriptorTable i h
  | other => other
  end.

(** The graphics call for a root descriptor of type [ty]. *)
Definition graphics_descriptor_call (ty : RootDescriptorType) (i : nat) (a : Z) : RootCall :=
  match ty with
  | ConstantBuffer => SetGraphicsRootConstantBufferView i a
  | ShaderResource => SetGraphicsRootShaderResourceView i a
  | UnorderedAccess => SetGraphicsRootUnorderedAccessView i a
  end.

Definition is_empty_parameter (param : RootParameter) : bool :=
  match param_type param with Empty => true | _ => false end.

(** The element of [root_parameters] that a declaration indexes. *)
Definition root_slot (e : string * RootDescriptorDescription) : nat := Z.to_nat (idx e.2).
Definition table_slot (e : Z * Z) : nat := Z.to_nat e.1.

(** What the body of the root-descriptor loop leaves in the slot of the
    descriptor [name] of type [ty], from the parameter [p] it finds there;
    [None] where it has no result. *)
Definition filled_slot (b : D3D12BindGroupBuilder) (name : string)
    (ty : RootDescriptorType) (p : RootParameter) : option RootParameter :=
  match bound_buffers b !! name with
  | Some (BufferEntry buffer) =>
      Some (set_descriptor_address (GetGPUVirtualAddress (buffer_resource buffer))
              (set_descriptor_type ty p))
  | Some (ImageArrayEntry _) => None
  | None =>
      match bound_images b !! name with
      | Some [image] =>
          Some (set_descriptor_address (GetGPUVirtualAddress (image_resource image))
                  (set_descriptor_type ty p))
      | Some _ => None
      | None => Some (set_descriptor_type ty p)
      end
  end.

(** The declarations and bindings on which no assertion of [build] fires. *)
Record buildable (b : D3D12BindGroupBuilder) : Prop := {
  tables_below_64 :
    forall i h, (i, h) ∈ descriptor_table_handles b -> i < 64;
  root_descriptors_below_32 :
    forall n d, (n, d) ∈ root_descriptor_descriptions b -> idx d < 32;
  root_slots_distinct :
    NoDup (map root_slot (root_descriptor_descriptions b));
  root_slots_free :
    forall e t, e ∈ root_descriptor_descriptions b -> t ∈ descriptor_table_handles b ->
                root_slot e <> table_slot t;
  root_slots_bindable :
    forall n d, (n, d) ∈ root_descriptor_descriptions b -> satisfied b n \/ unbound b n
}.

(** Two builders with the same bindings and the same declarations, in any
    order. *)
Definition same_up_to_order (b b' : D3D12BindGroupBuilder) : Prop :=
  root_descriptor_descriptions b' ≡ₚ root_descriptor_descriptions b /\
  descriptor_table_handles b' ≡ₚ descriptor_table_handles b /\
  bound_buffers b' = bound_buffers b /\
  bound_images b' = bound_images b.

End BindGroupBinding.

(** ** Materials: the descriptor-table builder (d3d12_material.cpp) *)

Module Material.

(** [D3D12Descriptor], with the members that the builder reads. *)
Inductive DescriptorType := CBV | SRV | UAV.

#[global] Instance DescriptorType_eq_dec : EqDecision DescriptorType.
Proof. solve_decision. Defined.

Record D3D12Descriptor := {
  type : DescriptorType;
  handle : Z;
  num_elements : Z;
  element_size : Z
}.

Record D3D12Buffer := {
  buffer_resource : BindGroup.ID3D12Resource;
  size : Z
}.

Record D3D12Image := {
  image_resource : BindGroup.ID3D12Resource;
  format : Z
}.

(** The view descriptions that [update_descriptors] fills in; the members
    it sets to constants are left out. *)
Inductive ShaderResourceViewDesc :=
| BufferSRV (NumElements StructureByteStride : Z)
| Texture2DSRV (Format : Z).

Inductive UnorderedAccessViewDesc :=
| BufferUAV (NumElements StructureByteStride : Z)
| Texture2DUAV (Format : Z).

(** The calls made on the [ID3D12Device]; the last argument is the
    destination descriptor handle. *)
Inductive DeviceCall :=
| CreateConstantBufferView (BufferLocation SizeInBytes : Z) (DestDescriptor : Z)
| CreateShaderResourceView (pResource : BindGroup.ID3D12Resource)
    (desc : ShaderResourceViewDesc) (DestDescriptor : Z)
| CreateUnorderedAccessView (pResource : BindGroup.ID3D12Resource)
    (desc : UnorderedAccessViewDesc) (DestDescriptor : Z).

Definition DestDescriptor_of (c : DeviceCall) : Z :=
  match c with
  | CreateConstantBufferView _ _ d => d
  | CreateShaderResourceView _ _ d => d
  | CreateUnorderedAccessView _ _ d => d
  end.

(** The builder.  [descriptors] is only searched by name and iterated: it
    is the list of its entries in iteration order. *)
Record D3D12MaterialBuilder := {
  descriptors : list (string * D3D12Descriptor);
  should_do_validation : bool;
  bound_buffers : gmap string D3D12Buffer;
  bound_images : gmap string (list D3D12Image)
}.

(** [RX_ASSERT(cond, ...)]: where the condition is false there is no
    result. *)
Definition RX_ASSERT {A} (cond : bool) (continue : option A) : option A :=
  if cond then continue else None.

(** [descriptors.find(name) != nullptr] *)
Definition find_descriptor (b : D3D12MaterialBuilder) (name : string) : bool :=
  bool_decide (name ∈ map fst (descriptors b)).

Definition with_bound_buffers (b : D3D12MaterialBuilder)
    (m : gmap string D3D12Buffer) : D3D12MaterialBuilder :=
  {| descriptors := descriptors b;
     should_do_validation := should_do_validation b;
     bound_buffers := m;
     bound_images := bound_images b |}.

Definition with_bound_images (b : D3D12MaterialBuilder)
    (m : gmap string (list D3D12Image)) : D3D12MaterialBuilder :=
  {| descriptors := descriptors b;
     should_do_validation := should_do_validation b;
     bound_buffers := bound_buffers b;
     bound_images := m |}.

Definition set_buffer (name : string) (buffer : D3D12Buffer)
    (b : D3D12MaterialBuilder) : option D3D12MaterialBuilder :=
  RX_ASSERT (negb (should_do_validation b) || find_descriptor b name)
    (* both branches of the [find] leave [buffer] under [name] *)
    (Some (with_bound_buffers b (<[name := buffer]> (bound_buffers b)))).

Definition set_image_array (name : string) (images : list D3D12Image)
    (b : D3D12MaterialBuilder) : option D3D12MaterialBuilder :=
  RX_ASSERT (negb (should_do_validation b) || find_descriptor b name)
    (RX_ASSERT (negb (should_do_validation b) || negb (bool_decide (images = [])))
       (let d3d12_images := images in
        Some (with_bound_images b (<[name := d3d12_images]> (bound_images b))))).

Definition set_image (name : string) (image : D3D12Image)
    (b : D3D12MaterialBuilder) : option D3D12MaterialBuilder :=
  RX_ASSERT (negb (should_do_validation b) || find_descriptor b name)
    (set_image_array name [image] b).

Section WithDevice.

(** [CD3DX12_CPU_DESCRIPTOR_HANDLE::Offset] of d3dx12.hpp, and the
    device's [get_shader_resource_descriptor_size()]. *)
Variable Offset : Z -> Z -> Z.
Variable shader_resource_descriptor_size : Z.

(** [images.each_fwd] with the handle that the lambda captures by
    reference and advances after every view. *)
Fixpoint each_image (create_view : D3D12Image -> Z -> DeviceCall) (handle : Z)
    (images : list D3D12Image) : list DeviceCall :=
  match images with
  | [] => []
  | image :: rest =>
      create_view image handle ::
      each_image create_view (Offset handle shader_resource_descriptor_size) rest
  end.

Definition image_srv (image : D3D12Image) (handle : Z) : DeviceCall :=
  CreateShaderResourceView (image_resource image) (Texture2DSRV (format image)) handle.

Definition image_uav (image : D3D12Image) (handle : Z) : DeviceCall :=
  CreateUnorderedAccessView (image_resource image) (Texture2DUAV (format image)) handle.

Definition buffer_view (buffer : D3D12Buffer) (descriptor : D3D12Descriptor) : DeviceCall :=
  match type descriptor with
  | CBV =>
      CreateConstantBufferView (BindGroup.GetGPUVirtualAddress (buffer_resource buffer))
        (wrap32 (size buffer)) (handle descriptor)
  | SRV =>
      CreateShaderResourceView (buffer_resource buffer)
        (BufferSRV (num_elements descriptor) (element_size descriptor)) (handle descriptor)
  | UAV =>
      CreateUnorderedAccessView (buffer_resource buffer)
        (BufferUAV (num_elements descriptor) (element_size descriptor)) (handle descriptor)
  end.

Definition image_views (images : list D3D12Image) (descriptor : D3D12Descriptor)
  : list DeviceCall :=
  match type descriptor with
  | SRV => each_image image_srv (handle descriptor) images
  | UAV => each_image image_uav (handle descriptor) images
  | CBV => []
  end.

(** Body of the [each_pair] of [update_descriptors]; the state is the list
    of device calls made so far. *)
Definition update_descriptor (b : D3D12MaterialBuilder) (calls : list DeviceCall)
    (entry : string * D3D12Descriptor) : option (list DeviceCall) :=
  let '(name, descriptor) := entry in
  match bound_buffers b !! name with
  | Some buffer => Some (calls ++ [buffer_view buffer descriptor])
  | None =>
      match bound_images b !! name with
      | Some images =>
          RX_ASSERT (negb (should_do_validation b) ||
                     negb (bool_decide (type descriptor = CBV)))
            (RX_ASSERT (negb (should_do_validation b) || negb (bool_decide (images = [])))
               (Some (calls ++ image_views images descriptor)))
      | None =>
          RX_ASSERT (negb (should_do_validation b)) (Some calls)
      end
  end.

Definition update_descriptors (b : D3D12MaterialBuilder) : option (list DeviceCall) :=
  BindGroup.for_each (update_descriptor b) [] (descriptors b).

(** [build]: the material it returns carries nothing; what it does is the
    device calls of [update_descriptors]. *)
Definition build (b : D3D12MaterialBuilder) : option (list DeviceCall) :=
  update_descriptors b.

(** The device calls for one declared descriptor. *)
Definition entry_calls (b : D3D12MaterialBuilder) (entry : string * D3D12Descriptor)
  : list DeviceCall :=
  match bound_buffers b !! entry.1 with
  | Some buffer => [buffer_view buffer entry.2]
  | None =>
      match bound_images b !! entry.1 with
      | Some images => image_views images entry.2
      | None => []
      end
  end.

End WithDevice.

(** A declared descriptor for which [update_descriptors] has no failing
    assertion. *)
Definition descriptor_ok (b : D3D12MaterialBuilder) (entry : string * D3D12Descriptor) : bool :=
  match bound_buffers b !! entry.1 with
  | Some _ => true
  | None =>
      match bound_images b !! entry.1 with
      | Some images =>
          negb (should_do_validation b) ||
          (negb (bool_decide (type entry.2 = CBV)) && negb (bool_decide (images = [])))
      | None => negb (should_do_validation b)
      end
  end.

End Material.

(** ** The render device: more of its synchronisation *)

Module DeviceRuns.
Import RenderDevice RenderDeviceSync.

(** The actions of the completion thread. *)
Definition of_completion_thread (a : Action) : bool :=
  match a with
  | WorkerPops | WorkerWaitReturns => true
  | _ => false
  end.

(** The completion thread goes through [in_flight]: for every pair it pops
    it and its wait returns. *)
Definition worker_drains (in_flight : list (Fence * CommandList)) : list Action :=
  concat (map (fun _ => [WorkerPops; WorkerWaitReturns]) in_flight).

(** The completion thread finishes what it is at and then goes through the
    queue. *)
Definition worker_catches_up (s : State) : list Action :=
  match command_completion_thread s with
  | Polling => worker_drains (in_flight_command_lists s)
  | Waiting _ => WorkerWaitReturns :: worker_drains (in_flight_command_lists s)
  end.

(** The moves that are not the render thread's: the GPU and the completion
    thread. *)
Definition in_the_background (a : Action) : bool :=
  match a with
  | GpuExecutes | WorkerPops | WorkerWaitReturns => true
  | _ => false
  end.

(** What the GPU's executing [op] does to the completed values of the
    fences. *)
Definition executed (op : QueueOp) (completed : Fence -> Z) : Fence -> Z :=
  match op with
  | ExecuteCommandLists _ => completed
  | Signal fence value => <[fence := value]> completed
  end.

(** [wait_gpu_idle(frame_index)] up to its call of [wait_for_frame]: the
    slot's fence value goes up by one and the queue is asked to signal it.
    The call then returns when [wait_for_frame frame_index] does. *)
Definition wait_gpu_idle_signal (frame_index : nat) (s : State) : option State :=
  match main_thread s with
  | Running =>
      match frame_fence_values s !! frame_index with
      | Some value =>
          let s1 := with_main (<[frame_index := value + 1]> (frame_fence_values s))
                              (command_list_done_fences s) (main_thread s)
                              (created_command_lists s) (created_fences s) s in
          Some (enqueue (Signal (FrameFence frame_index) (value + 1)) s1)
      | None => None
      end
  | InWaitForFrame _ => None
  end.

(** One frame as the render thread drives it. *)
Definition one_frame : list Action := [BeginFrame; FrameSlotFree; EndFrame].

Definition is_frame_signal (slot : nat) (op : QueueOp) : bool :=
  match op with
  | Signal (FrameFence slot') _ => bool_decide (slot' = slot)
  | _ => false
  end.

(** The fences of the command lists submitted, in submission order. *)
Definition submitted_fences (evs : list Event) : list Fence :=
  omap (fun e => match e with Submitted _ fence => Some fence | _ => None end) evs.

End DeviceRuns.

(** ** Material data buffer: the elements behind the handles *)

Module MaterialStorage.
Import MaterialDataBuffer.

(** The bytes behind [buffer], by their offset from it. *)
Definition Bytes := Z -> Z.

(** The object representation [value] written from [offset] on, and
    [count] bytes read from [offset] on. *)
Fixpoint store (offset : Z) (value : list Z) (bytes : Bytes) : Bytes :=
  match value with
  | [] => bytes
  | byte :: rest => store (offset + 1) rest (<[offset := byte]> bytes)
  end.

Fixpoint load (offset : Z) (count : nat) (bytes : Bytes) : list Z :=
  match count with
  | O => []
  | S k => bytes offset :: load (offset + 1) k bytes
  end.

(** [reinterpret_cast<MaterialDataStruct*>(buffer)[handle.index]] names an
    object of the buffer only if the element lies within its
    [buffer_size] bytes; [at] does not check this. *)
Definition in_buffer (struct_size : Z) (b : t) (handle : MaterialHandle) : bool :=
  (0 <=? byte_offset struct_size handle) && (byte_end struct_size handle <=? buffer_size b).

(** [at<MaterialDataStruct>(handle) = value], through the reference that
    the non-const [at] returns. *)
Definition at_assign (struct_size : Z) (b : t) (handle : MaterialHandle)
    (value : list Z) (bytes : Bytes) : option Bytes :=
  if in_buffer struct_size b handle
  then Some (store (byte_offset struct_size handle) value bytes)
  else None.

(** The value of [at<MaterialDataStruct>(handle)]. *)
Definition at_read (struct_size : Z) (b : t) (handle : MaterialHandle)
    (bytes : Bytes) : option (list Z) :=
  if in_buffer struct_size b handle
  then Some (load (byte_offset struct_size handle) (Z.to_nat struct_size) bytes)
  else None.

End MaterialStorage.

(** ** The BVE wrapper: colours, textures and meshes (bve_wrapper.cpp) *)

Module BveWrapper.

Definition INT_MIN : Z := - 2 ^ 31.
Definition INT_MAX : Z := 2 ^ 31 - 1.

(** A value as an [int]: two's complement, 32 bits. *)
Definition to_int (z : Z) : Z := (z + 2 ^ 31) mod 2 ^ 32 - 2 ^ 31.

(** [BVE_Vector4<Uint8>] *)
Record BVE_Vector4 := { x : Z; y : Z; z : Z; w : Z }.

(** [color |= operand]: the [Uint8] member is promoted to [int], a shifted
    one is an [int] again, and the [int] is converted to [Uint32] for the
    [|] with [color]. *)
Definition or_assign (color operand : Z) : Z := Z.lor color (wrap32 operand).

Definition to_uint32 (bve_color : BVE_Vector4) : Z :=
  let color := 0 in
  let color := or_assign color (x bve_color) in
  let color := or_assign color (to_int (Z.shiftl (y bve_color) 8)) in
  let color := or_assign color (to_int (Z.shiftl (z bve_color) 16)) in
  let color := or_assign color (to_int (Z.shiftl (w bve_color) 24)) in
  color.

(** [a * b] on [int]s: an overflow has no defined result. *)
Definition int_mul (a b : Z) : option Z :=
  let r := a * b in
  if (INT_MIN <=? r) && (r <=? INT_MAX) then Some r else None.

(** The body of the loop of [expand_rgb8_to_rgba8] for pixel [i].  The
    elements of [new_data] are [None] until they are written; a read
    outside [texture_data] has no result. *)
Definition expand_pixel (texture_data : list Z) (new_data : list (option Z)) (i : Z)
  : option (list (option Z)) :=
  let src_idx := i * 3 in
  let dst_idx := i * 4 in
  match texture_data !! Z.to_nat src_idx,
        texture_data !! Z.to_nat (src_idx + 1),
        texture_data !! Z.to_nat (src_idx + 2) with
  | Some r, Some g, Some b =>
      let new_data := <[Z.to_nat dst_idx := Some r]> new_data in
      let new_data := <[Z.to_nat (dst_idx + 1) := Some g]> new_data in
      let new_data := <[Z.to_nat (dst_idx + 2) := Some b]> new_data in
      let new_data := <[Z.to_nat (dst_idx + 3) := Some 255]> new_data in
      Some new_data
  | _, _, _ => None
  end.

(** [expand_rgb8_to_rgba8]: [new stbi_uc[total_num_bytes]] with a negative
    size throws. *)
Definition expand_rgb8_to_rgba8 (texture_data : list Z) (width height : Z)
  : option (list (option Z)) :=
  match int_mul width height with
  | None => None
  | Some num_pixels =>
      match int_mul num_pixels 4 with
      | None => None
      | Some total_num_bytes =>
          if total_num_bytes <? 0 then None
          else
            let new_data := replicate (Z.to_nat total_num_bytes) None in
            BindGroup.for_each (expand_pixel texture_data) new_data (seqZ 0 num_pixels)
      end
  end.

Section WithFloat.

(** [Float32] and its negation. *)
Variable Float32 : Type.
Variable fneg : Float32 -> Float32.

(** [BVE_Vertex] and [StandardVertex], with the members that
    [process_vertices] uses. *)
Record BVE_Vertex := {
  position : Float32 * Float32 * Float32;
  normal : Float32 * Float32 * Float32;
  coord : Float32 * Float32;
  color : BVE_Vector4;
  double_sided : bool
}.

Record StandardVertex := {
  vertex_position : Float32 * Float32 * Float32;
  vertex_normal : Float32 * Float32 * Float32;
  vertex_color : Z;
  vertex_texcoord : Float32 * Float32
}.

(** [BVE_Mesh]: each of its two vectors is a pointer and a count. *)
Record BVE_Mesh := {
  mesh_vertices : list BVE_Vertex;
  mesh_indices : list Z
}.

Definition to_standard_vertex (bve_vertex : BVE_Vertex) : StandardVertex :=
  {| vertex_position := position bve_vertex;
     vertex_normal := let '(nx, ny, nz) := normal bve_vertex in (nx, ny, fneg nz);
     vertex_color := to_uint32 (color bve_vertex);
     vertex_texcoord := coord bve_vertex |}.

(** What [bve_vertices.ptr[i].double_sided] reads.  Nothing checks [i]
    against the count of the vertices: with [i] outside them the read
    finds whatever lies behind the vector, [beyond i]. *)
Variable beyond : Z -> bool.

Definition double_sided_at (bve_vertices : list BVE_Vertex) (i : Z) : bool :=
  match bve_vertices !! Z.to_nat i with
  | Some bve_vertex => double_sided bve_vertex
  | None => beyond i
  end.

(** The loop over the indices, three at a time; [indices] is the vector
    filled so far.  The last case is a count that is not a multiple of
    three, which the assertion of [process_vertices] excludes. *)
Fixpoint each_triangle (bve_vertices : list BVE_Vertex) (bve_indices : list Z)
    (indices : list Z) : option (list Z) :=
  match bve_indices with
  | [] => Some indices
  | e0 :: e1 :: e2 :: rest =>
      let i0 := wrap32 e0 in
      let i1 := wrap32 e1 in
      let i2 := wrap32 e2 in
      let indices := indices ++ [i0; i1; i2] in
      let v0_double_sided := double_sided_at bve_vertices i0 in
      let v1_double_sided := double_sided_at bve_vertices i1 in
      let v2_double_sided := double_sided_at bve_vertices i2 in
      if v0_double_sided || v1_double_sided || v2_double_sided
      then each_triangle bve_vertices rest (indices ++ [i2; i1; i0])
      else each_triangle bve_vertices rest indices
  | _ => None
  end.

(** [process_vertices].  The loop counters are [Uint32]: with a count
    that they cannot reach the loops do not end, and there is no result. *)
Definition process_vertices (mesh : BVE_Mesh) : option (list StandardVertex * list Z) :=
  Material.RX_ASSERT (Z.of_nat (length (mesh_indices mesh)) mod 3 =? 0)
    (if (Z.of_nat (length (mesh_vertices mesh)) <? UINT32_MODULUS) &&
        (Z.of_nat (length (mesh_indices mesh)) + 3 <=? UINT32_MODULUS)
     then
       let vertices := map to_standard_vertex (mesh_vertices mesh) in
       match each_triangle (mesh_vertices mesh) (mesh_indices mesh) [] with
       | Some indices => Some (vertices, indices)
       | None => None
       end
     else None).

End WithFloat.

End BveWrapper.
(** * Properties *)

(** ** Machine integers *)

Lemma wrap32_range z : is_uint32 (wrap32 z).
Proof. unfold is_uint32, wrap32, UINT32_MODULUS. apply Z.mod_pos_bound. lia. Qed.

Lemma wrap32_small z : is_uint32 z -> wrap32 z = z.
Proof. unfold is_uint32, wrap32. intros H. apply Z.mod_small. exact H. Qed.

Lemma wrap32_idem z : wrap32 (wrap32 z) = wrap32 z.
Proof. apply wrap32_small, wrap32_range. Qed.

Lemma wrap32_add_l a b : wrap32 (wrap32 a + b) = wrap32 (a + b).
Proof. unfold wrap32, UINT32_MODULUS. apply Zplus_mod_idemp_l. Qed.

Lemma wrap32_add_r a b : wrap32 (a + wrap32 b) = wrap32 (a + b).
Proof. unfold wrap32, UINT32_MODULUS. apply Zplus_mod_idemp_r. Qed.

Module MaterialDataBufferFacts.
Import MaterialDataBuffer.

Lemma consecutive_indices_differ (S n : Z) :
  0 < S < 2 ^ 31 -> is_uint32 n ->
  let i1 := wrap32 (n / S + 1) in
  let n' := wrap32 (S * wrap32 (i1 + 1)) in
  wrap32 (n' / S + 1) <> i1.
Proof.
  unfold is_uint32, wrap32, UINT32_MODULUS. intros HS Hn. cbv zeta.
  change (2 ^ 32) with 4294967296 in *. change (2 ^ 31) with 2147483648 in *.
  destruct (Z.eq_dec S 1) as [->|HS1].
  - rewrite !Z.div_1_r, Z.mul_1_l. Z.to_euclidean_division_equations; lia.
  - assert (Hq : 0 <= n / S < 2147483648).
    { split; [apply Z.div_pos; lia|].
      apply Z.div_lt_upper_bound; lia. }
    set (q := n / S) in *.
    rewrite (Z.mod_small (q + 1)) by lia.
    rewrite (Z.mod_small (q + 1 + 1)) by lia.
    assert (Hn' := Z.mod_pos_bound (S * (q + 1 + 1)) 4294967296 ltac:(lia)).
    assert (Hdm := Z.div_mod (S * (q + 1 + 1)) 4294967296 ltac:(lia)).
    set (n' := (S * (q + 1 + 1)) mod 4294967296) in *.
    set (k := (S * (q + 1 + 1)) / 4294967296) in *.
    assert (Hq' : 0 <= n' / S < 2147483648).
    { split; [apply Z.div_pos; lia|].
      apply Z.div_lt_upper_bound; lia. }
    rewrite (Z.mod_small (n' / S + 1)) by lia.
    intros Heq. assert (Hdiv : n' / S = q) by lia.
    assert (Hk : 0 <= k) by (apply Z.div_pos; nia).
    assert (Hb : S * q <= n' < S * q + S).
    { rewrite <- Hdiv.
      pose proof (Z.mul_div_le n' S ltac:(lia)).
      pose proof (Z.mul_succ_div_gt n' S ltac:(lia)). lia. }
    destruct (Z.eq_dec k 0) as [Hk0|Hk0]; nia.
Qed.

End MaterialDataBufferFacts.

Module MaterialDataBufferTheorems.
Import MaterialDataBuffer MaterialDataBufferFacts.

(** C5. Two consecutive calls of [get_next_free_material<T>()] for a struct
    type of size [S] return handles whose byte ranges
    [[index * S, (index + 1) * S)] do not overlap, and the byte offset of
    each handle is a multiple of [S].  [S] is the size of a struct that the
    buffer, whose size is a [uint32_t], can hold after the slot the method
    skips: [0 < S < 2^31]. *)
Theorem get_next_free_material_twice (S : Z) (b : t) :
  0 < S < 2 ^ 31 ->
  is_uint32 (num_allocated_bytes b) ->
  let r1 := get_next_free_material S b in
  let r2 := get_next_free_material S (snd r1) in
  ranges_disjoint (byte_offset S (fst r1)) (byte_end S (fst r1))
                  (byte_offset S (fst r2)) (byte_end S (fst r2))
  /\ (S | byte_offset S (fst r1))
  /\ (S | byte_offset S (fst r2)).
Proof.
  intros HS Hn. cbv zeta.
  pose proof (consecutive_indices_differ S (num_allocated_bytes b) HS Hn) as Hne.
  cbv zeta in Hne. unfold get_next_free_material, byte_offset, byte_end. simpl.
  set (i1 := wrap32 (num_allocated_bytes b / S + 1)) in *.
  set (i2 := wrap32 (wrap32 (S * wrap32 (i1 + 1)) / S + 1)) in *.
  split; [|split].
  - intros x [H1 H2]. apply Hne. nia.
  - exists i1. reflexivity.
  - exists i2. reflexivity.
Qed.

Lemma get_next_free_material_twice_witness :
  let b := {| buffer_size := 1024; num_allocated_bytes := 0 |} in
  let r1 := get_next_free_material 48 b in
  let r2 := get_next_free_material 48 (snd r1) in
  index (fst r1) = 1 /\ index (fst r2) = 3 /\
  ranges_disjoint (byte_offset 48 (fst r1)) (byte_end 48 (fst r1))
                  (byte_offset 48 (fst r2)) (byte_end 48 (fst r2))
  /\ (48 | byte_offset 48 (fst r1))
  /\ (48 | byte_offset 48 (fst r2)).
Proof.
  cbv zeta. split; [reflexivity|]. split; [reflexivity|].
  apply (get_next_free_material_twice 48 {| buffer_size := 1024; num_allocated_bytes := 0 |}).
  - lia.
  - unfold is_uint32, UINT32_MODULUS. simpl. lia.
Defined.

End MaterialDataBufferTheorems.

(** ** Mesh data store *)

Module MeshDataStoreFacts.
Import MeshDataStore.

Section WithVertex.
Context {V : Type}.
Variable sz : Z.

Lemma uploaded_indices_app (c1 c2 : list (Command V)) :
  uploaded_indices (c1 ++ c2) = uploaded_indices c1 ++ uploaded_indices c2.
Proof. unfold uploaded_indices. apply omap_app. Qed.

Lemma add_mesh_uploaded_indices vertices indices (commands : list (Command V)) s :
  uploaded_indices (add_mesh sz vertices indices commands s).2 =
  uploaded_indices commands ++
    [map (fun idx => wrap32 (idx + next_vertex_offset s)) indices].
Proof.
  unfold add_mesh. simpl. rewrite !uploaded_indices_app. simpl.
  rewrite app_nil_r. reflexivity.
Qed.

Lemma add_mesh_next_vertex_offset vertices indices (commands : list (Command V)) s :
  next_vertex_offset (add_mesh sz vertices indices commands s).1.2 =
  wrap32 (next_vertex_offset s + Z.of_nat (length vertices)).
Proof. unfold add_mesh. simpl. apply wrap32_add_r. Qed.

Lemma add_meshes_cons vertices indices rest (commands : list (Command V)) s :
  add_meshes sz ((vertices, indices) :: rest) commands s =
  let r := add_mesh sz vertices indices commands s in
  let r' := add_meshes sz rest r.2 r.1.2 in
  (r.1.1 :: r'.1.1, r'.1.2, r'.2).
Proof.
  cbn [add_meshes]. destruct (add_mesh sz vertices indices commands s) as [[m s1] c1].
  cbn [fst snd]. destruct (add_meshes sz rest c1 s1) as [[ms s2] c2]. reflexivity.
Qed.

Lemma add_meshes_next_vertex_offset calls (commands : list (Command V)) s :
  wrap32 (next_vertex_offset (add_meshes sz calls commands s).1.2) =
  wrap32 (next_vertex_offset s + total_vertices calls).
Proof.
  revert commands s. induction calls as [|[vertices indices] rest IH]; intros commands s.
  - simpl. rewrite Z.add_0_r. reflexivity.
  - rewrite add_meshes_cons. cbv zeta. cbn [fst snd].
    rewrite IH, add_mesh_next_vertex_offset, wrap32_add_l.
    unfold total_vertices. simpl. f_equal. lia.
Qed.

Lemma add_meshes_from_new_store calls (commands : list (Command V)) :
  next_vertex_offset (add_meshes sz calls commands new_store).1.2 =
  wrap32 (total_vertices calls).
Proof.
  destruct calls as [|[vertices indices] rest]; [reflexivity|].
  pose proof (add_meshes_next_vertex_offset ((vertices, indices) :: rest) commands new_store) as H.
  simpl next_vertex_offset at 2 in H. rewrite Z.add_0_l in H. rewrite <- H.
  symmetry. apply wrap32_small.
  clear H. revert commands. generalize new_store.
  revert vertices indices.
  induction rest as [|[v' i'] rest IH]; intros vertices indices s commands.
  - simpl. apply wrap32_range.
  - rewrite add_meshes_cons. cbv zeta. cbn [fst snd]. apply IH.
Qed.

Lemma total_vertices_nonneg (calls : list (list V * list Z)) : 0 <= total_vertices calls.
Proof. induction calls as [|c rest IH]; unfold total_vertices in *; simpl; lia. Qed.

Lemma total_indices_nonneg (calls : list (list V * list Z)) : 0 <= total_indices calls.
Proof. induction calls as [|c rest IH]; unfold total_indices in *; simpl; lia. Qed.

Lemma add_mesh_fits vertices indices rest (commands : list (Command V)) s :
  0 < sz ->
  fits sz ((vertices, indices) :: rest) s ->
  let r := add_mesh sz vertices indices commands s in
  fits sz rest r.1.2 /\
  first_vertex r.1.1 = next_free_vertex_byte s / sz /\
  num_vertices r.1.1 = Z.of_nat (length vertices) /\
  first_index r.1.1 = next_index_offset s /\
  num_indices r.1.1 = Z.of_nat (length indices) /\
  next_free_vertex_byte r.1.2 / sz = next_free_vertex_byte s / sz + Z.of_nat (length vertices) /\
  next_index_offset r.1.2 = next_index_offset s + Z.of_nat (length indices).
Proof.
  intros Hsz (Hv & Hi & Hvt & Hit). cbv zeta.
  unfold total_vertices, total_indices in Hvt, Hit. simpl in Hvt, Hit.
  fold (total_vertices rest) in Hvt. fold (total_indices rest) in Hit.
  pose proof (total_vertices_nonneg rest) as Htv.
  pose proof (total_indices_nonneg rest) as Hti.
  set (n := Z.of_nat (length vertices)) in *.
  set (k := Z.of_nat (length indices)) in *.
  assert (Hn : 0 <= n) by (subst n; lia).
  assert (Hk : 0 <= k) by (subst k; lia).
  unfold is_uint32 in Hv, Hi.
  assert (Hnsz : is_uint32 (n * sz)) by (unfold is_uint32; nia).
  assert (Hn32 : is_uint32 n) by (unfold is_uint32; nia).
  assert (Hk32 : is_uint32 k) by (unfold is_uint32; nia).
  assert (Hdiv : is_uint32 (next_free_vertex_byte s / sz)).
  { unfold is_uint32. split; [apply Z.div_pos; lia|].
    apply Z.div_lt_upper_bound; nia. }
  unfold add_mesh. simpl. fold n. fold k.
  rewrite (wrap32_small (n * sz)) by exact Hnsz.
  rewrite (wrap32_small n) by exact Hn32.
  rewrite (wrap32_small k) by exact Hk32.
  rewrite (wrap32_small (next_free_vertex_byte s + n * sz)) by (unfold is_uint32; nia).
  rewrite (wrap32_small (next_index_offset s + k)) by (unfold is_uint32; nia).
  rewrite (wrap32_small _ Hdiv).
  split.
  { unfold fits, is_uint32. simpl. repeat split; nia. }
  repeat split. apply Z.div_add. lia.
Qed.

(** Every mesh of a run that fits starts at or after the cursors the run
    starts from. *)
#[local] Arguments add_mesh : simpl never.

Lemma add_meshes_lower_bound calls (commands : list (Command V)) s m :
  0 < sz -> fits sz calls s ->
  m ∈ (add_meshes sz calls commands s).1.1 ->
  next_free_vertex_byte s / sz <= first_vertex m /\
  next_index_offset s <= first_index m.
Proof.
  intros Hsz. revert commands s.
  induction calls as [|[vertices indices] rest IH]; intros commands s Hfit Hin.
  - simpl in Hin. inversion Hin.
  - rewrite add_meshes_cons in Hin. cbv zeta in Hin. cbn [fst snd] in Hin.
    destruct (add_mesh_fits vertices indices rest commands s Hsz Hfit)
      as (Hfit' & Hfv & Hnv & Hfi & Hni & Hnext & Hnexti).
    apply elem_of_cons in Hin as [->|Hin].
    + lia.
    + apply IH in Hin; [|exact Hfit']. lia.
Qed.

(** In a run that fits, an earlier mesh ends where a later one starts, or
    before. *)
Lemma add_meshes_ordered calls (commands : list (Command V)) s i j mi mj :
  0 < sz -> fits sz calls s -> (i < j)%nat ->
  (add_meshes sz calls commands s).1.1 !! i = Some mi ->
  (add_meshes sz calls commands s).1.1 !! j = Some mj ->
  0 <= num_vertices mi /\ 0 <= num_indices mi /\
  first_vertex mi + num_vertices mi <= first_vertex mj /\
  first_index mi + num_indices mi <= first_index mj.
Proof.
  intros Hsz. revert commands s i j mi mj.
  induction calls as [|[vertices indices] rest IH]; intros commands s i j mi mj Hfit Hij Hi Hj.
  - simpl in Hi. rewrite lookup_nil in Hi. discriminate.
  - rewrite add_meshes_cons in Hi, Hj. cbv zeta in Hi, Hj. cbn [fst snd] in Hi, Hj.
    destruct (add_mesh_fits vertices indices rest commands s Hsz Hfit)
      as (Hfit' & Hfv & Hnv & Hfi & Hni & Hnext & Hnexti).
    destruct j as [|j]; [lia|]. cbn [lookup list_lookup] in Hj.
    destruct i as [|i].
    + assert (Hmi : (add_mesh sz vertices indices commands s).1.1 = mi)
        by (injection Hi; intros E; exact E).
      subst mi. clear Hi.
      apply list_elem_of_lookup_2 in Hj.
      apply add_meshes_lower_bound in Hj; [|exact Hsz|exact Hfit']. lia.
    + cbn [lookup list_lookup] in Hi. eapply IH; [exact Hfit'| |exact Hi|exact Hj]. lia.
Qed.

End WithVertex.
End MeshDataStoreFacts.

Module MeshDataStoreTheorems.
Import MeshDataStore MeshDataStoreFacts.

(** C3, as the code has it.  After any sequence [calls] of [add_mesh] calls
    on a new store, the indices that a further [add_mesh] hands to the index
    buffer are the caller's indices plus the total vertex count of [calls],
    computed in 32 bits: each is [(idx + total) mod 2^32].  Where no sum
    reaches [2^32] they are exactly [idx + total]. *)
Theorem add_mesh_offsets_indices {V : Type} (sz : Z)
    (calls : list (list V * list Z)) (vertices : list V) (indices : list Z) :
  let before := add_meshes sz calls [] new_store in
  let after := add_mesh sz vertices indices before.2 before.1.2 in
  uploaded_indices after.2 =
    uploaded_indices before.2 ++
      [map (fun idx => wrap32 (idx + total_vertices calls)) indices]
  /\ ((forall idx, idx ∈ indices ->
         0 <= idx /\ idx + total_vertices calls < UINT32_MODULUS) ->
      uploaded_indices after.2 =
        uploaded_indices before.2 ++
          [map (fun idx => idx + total_vertices calls) indices]).
Proof.
  cbv zeta.
  assert (Hgen : uploaded_indices
    (add_mesh sz vertices indices (add_meshes sz calls [] new_store).2
       (add_meshes sz calls [] new_store).1.2).2 =
    uploaded_indices (add_meshes sz calls [] new_store).2 ++
      [map (fun idx => wrap32 (idx + total_vertices calls)) indices]).
  { rewrite add_mesh_uploaded_indices, add_meshes_from_new_store.
    do 2 f_equal. apply map_ext. intros idx. apply wrap32_add_r. }
  split; [exact Hgen|].
  intros Hsmall. rewrite Hgen. do 2 f_equal.
  apply map_ext_in. intros idx Hin. apply list_elem_of_In in Hin.
  destruct (Hsmall idx Hin) as [H0 Hlt].
  apply wrap32_small. unfold is_uint32.
  pose proof (total_vertices_nonneg calls). lia.
Qed.

(** The ten-vertex mesh of the specification's example, and the triangle
    added after it. *)
Definition ten_vertices : list nat := seq 0 10.
Definition ten_vertex_mesh : list nat * list Z :=
  (ten_vertices, [0; 1; 2; 2; 3; 0]).

Lemma add_mesh_offsets_indices_witness :
  let before := add_meshes 40 [ten_vertex_mesh] [] new_store in
  let after := add_mesh 40 [0%nat; 1%nat; 2%nat] [0; 1; 2] before.2 before.1.2 in
  uploaded_indices after.2 = uploaded_indices before.2 ++ [[10; 11; 12]].
Proof.
  cbv zeta.
  refine (proj2 (add_mesh_offsets_indices 40 [ten_vertex_mesh]
                   [0%nat; 1%nat; 2%nat] [0; 1; 2]) _).
  intros idx Hin. unfold UINT32_MODULUS.
  repeat (apply elem_of_cons in Hin as [->|Hin]; [vm_compute; split; [discriminate|reflexivity]|]).
  inversion Hin.
Defined.

(** C3 as stated fails where the 32-bit sum wraps: after a one-vertex mesh,
    the index [0xFFFFFFFF] is stored as [0], not as [0xFFFFFFFF + 1]. *)
Lemma add_mesh_index_sum_wraps :
  let calls := [([0%nat], [0])] in
  let before := add_meshes 40 calls [] new_store in
  let after := add_mesh 40 [0%nat] [4294967295] before.2 before.1.2 in
  uploaded_indices after.2 = uploaded_indices before.2 ++ [[0]]
  /\ uploaded_indices after.2 <>
     uploaded_indices before.2 ++
       [map (fun idx => idx + total_vertices calls) [4294967295]].
Proof. cbv zeta. split; [reflexivity|]. vm_compute. discriminate. Qed.

(** C4, as the code has it.  In one [begin_adding_meshes] ..
    [end_adding_meshes] session whose meshes fit below the 32-bit limits of
    the cursors, the meshes returned by two different [add_mesh] calls have
    disjoint vertex ranges and disjoint index ranges; [first_vertex] and
    [first_index] never decrease from a call to a later one, and increase
    strictly past every mesh that has at least one vertex, respectively one
    index. *)
Theorem upload_session_ranges {V : Type} (sz : Z)
    (calls : list (list V * list Z)) (commands : list (Command V)) (s : t)
    (i j : nat) (mi mj : Mesh) :
  0 < sz ->
  fits sz calls s ->
  (i < j)%nat ->
  (upload_session sz calls commands s).1.1 !! i = Some mi ->
  (upload_session sz calls commands s).1.1 !! j = Some mj ->
  ranges_disjoint (first_vertex mi) (first_vertex mi + num_vertices mi)
                  (first_vertex mj) (first_vertex mj + num_vertices mj)
  /\ ranges_disjoint (first_index mi) (first_index mi + num_indices mi)
                     (first_index mj) (first_index mj + num_indices mj)
  /\ first_vertex mi <= first_vertex mj
  /\ first_index mi <= first_index mj
  /\ (0 < num_vertices mi -> first_vertex mi < first_vertex mj)
  /\ (0 < num_indices mi -> first_index mi < first_index mj).
Proof.
  intros Hsz Hfit Hij Hi Hj.
  assert (Hmeshes : (upload_session sz calls commands s).1.1 =
                    (add_meshes sz calls (begin_adding_meshes commands) s).1.1).
  { unfold upload_session.
    destruct (add_meshes sz calls (begin_adding_meshes commands) s) as [[ms s'] c'].
    reflexivity. }
  rewrite Hmeshes in Hi, Hj.
  destruct (add_meshes_ordered sz calls _ s i j mi mj Hsz Hfit Hij Hi Hj)
    as (Hnv & Hni & Hv & Hx).
  unfold ranges_disjoint. repeat split; try lia; intros x; lia.
Qed.

Lemma upload_session_ranges_witness :
  let calls := [ten_vertex_mesh; ([0%nat; 1%nat; 2%nat], [0; 1; 2])] in
  let mi := {| first_vertex := 0; num_vertices := 10; first_index := 0; num_indices := 6 |} in
  let mj := {| first_vertex := 10; num_vertices := 3; first_index := 6; num_indices := 3 |} in
  (upload_session 40 calls [] new_store).1.1 = [mi; mj]
  /\ ranges_disjoint 0 10 10 13
  /\ ranges_disjoint 0 6 6 9.
Proof.
  cbv zeta. split; [reflexivity|].
  pose proof (upload_session_ranges 40
                [ten_vertex_mesh; ([0%nat; 1%nat; 2%nat], [0; 1; 2])] [] new_store
                0 1
                {| first_vertex := 0; num_vertices := 10; first_index := 0; num_indices := 6 |}
                {| first_vertex := 10; num_vertices := 3; first_index := 6; num_indices := 3 |}
                ltac:(lia)
                ltac:(vm_compute; repeat split; discriminate)
                ltac:(lia) eq_refl eq_refl) as (Hv & Hx & _).
  split; [exact Hv|exact Hx].
Defined.

(** C4 as stated fails for a mesh without vertices or indices: the next
    call returns the same [first_vertex] and [first_index].  It also fails
    where a cursor wraps: in a store whose index cursor is one short of
    [2^32], a mesh of two indices is followed by a mesh at index 1. *)
Lemma upload_session_empty_mesh_not_increasing :
  let calls : list (list nat * list Z) := [([], []); ([0%nat; 1%nat; 2%nat], [0; 1; 2])] in
  let full := {| next_free_vertex_byte := 0; next_vertex_offset := 0;
                 next_index_offset := 4294967295 |} in
  (exists mi mj,
     (upload_session 40 calls [] new_store).1.1 = [mi; mj]
     /\ ~ first_vertex mi < first_vertex mj
     /\ ~ first_index mi < first_index mj)
  /\
  (exists mi mj,
     (upload_session 40 [([0%nat], [0; 0]); ([1%nat], [0])] [] full).1.1 = [mi; mj]
     /\ first_index mi = 4294967295 /\ first_index mj = 1).
Proof.
  cbv zeta. split.
  - eexists _, _. split; [reflexivity|].
    vm_compute. split; intros H; discriminate H.
  - eexists _, _. split; [reflexivity|]. split; reflexivity.
Qed.

End MeshDataStoreTheorems.

(** ** Bind groups *)

Module BindGroupFacts.
Import BindGroup.

Definition is_unbound (b : D3D12BindGroupBuilder) (name : string) : bool :=
  match bound_buffers b !! name, bound_images b !! name with
  | None, None => true
  | _, _ => false
  end.

Lemma is_unbound_true b name : unbound b name -> is_unbound b name = true.
Proof. intros [H1 H2]. unfold is_unbound. rewrite H1, H2. reflexivity. Qed.

Lemma is_unbound_false b name : satisfied b name -> is_unbound b name = false.
Proof.
  unfold is_unbound. intros [[buffer H]|[H1 [image H2]]].
  - rewrite H. reflexivity.
  - rewrite H1, H2. reflexivity.
Qed.

Lemma for_each_fails {A S} (body : S -> A -> option S) (l : list A) (x : A) (s : S) :
  x ∈ l -> (forall s', body s' x = None) -> for_each body s l = None.
Proof.
  revert s. induction l as [|y l IH]; intros s Hin Hx.
  - inversion Hin.
  - simpl. apply elem_of_cons in Hin as [<-|Hin].
    + rewrite Hx. reflexivity.
    + destruct (body s y); [apply IH; assumption|reflexivity].
Qed.

(** The table loop succeeds on indices below 64 and touches only the slots
    it is given. *)
Lemma save_descriptor_tables (l : list (Z * Z)) (params : list RootParameter) :
  (forall i h, (i, h) ∈ l -> 0 <= i < 64) ->
  exists params',
    for_each save_descriptor_table params l = Some params' /\
    length params' = length params /\
    forall k, (forall h, (Z.of_nat k, h) ∉ l) -> params' !! k = params !! k.
Proof.
  revert params. induction l as [|[i h] l IH]; intros params Hrange.
  - exists params. simpl. auto.
  - simpl. unfold ENSURE.
    assert (Hi : 0 <= i < 64) by (apply (Hrange i h); left).
    destruct (Z.ltb_spec i 64) as [_|]; [|lia].
    destruct (IH (alter (set_table h) (Z.to_nat i) params)) as (params' & Hrun & Hlen & Hsame).
    { intros i' h' Hin. apply (Hrange i' h'). right. exact Hin. }
    exists params'. split; [exact Hrun|]. split.
    { rewrite Hlen. apply length_alter. }
    intros k Hk. rewrite Hsame.
    + rewrite list_lookup_alter_ne; [reflexivity|].
      intros Heq. apply (Hk h). rewrite <- Heq, Z2Nat.id by lia. left.
    + intros h' Hin. apply (Hk h'). right. exact Hin.
Qed.

Lemma filter_single {A} (f : A -> bool) (l : list A) (x : A) :
  NoDup l -> x ∈ l -> f x = true ->
  (forall y, y ∈ l -> y <> x -> f y = false) ->
  List.filter f l = [x].
Proof.
  induction l as [|y l IH]; intros Hnd Hin Hx Hothers.
  - inversion Hin.
  - apply NoDup_cons in Hnd as [Hy Hnd]. simpl.
    apply elem_of_cons in Hin as [<-|Hin].
    + rewrite Hx. f_equal.
      clear IH. induction l as [|z l IHl]; [reflexivity|].
      simpl. rewrite (Hothers z).
      * apply IHl.
        -- intros Hxl. apply Hy. right. exact Hxl.
        -- apply NoDup_cons in Hnd as [_ Hnd]. exact Hnd.
        -- intros w Hw Hne. apply Hothers; [|exact Hne].
           apply elem_of_cons in Hw as [->|Hw]; [left|right; right; exact Hw].
      * right. left.
      * intros ->. apply Hy. left.
    + rewrite (Hothers y); [|left|intros ->; contradiction].
      apply IH; try assumption.
      intros w Hw Hne. apply Hothers; [right; exact Hw|exact Hne].
Qed.

(** The root-descriptor loop succeeds when every slot it visits is in range,
    still [Empty], and either satisfied or unbound; it logs one warning per
    unbound slot, in iteration order. *)
Lemma save_root_descriptors b (l : list (string * RootDescriptorDescription))
    (params : list RootParameter) (log : list LogLine) :
  (forall n d, (n, d) ∈ l -> 0 <= idx d < 32) ->
  NoDup (map (fun e => idx (snd e)) l) ->
  (forall n d, (n, d) ∈ l ->
     exists p, params !! Z.to_nat (idx d) = Some p /\ param_type p = Empty) ->
  (forall n d, (n, d) ∈ l -> satisfied b n \/ unbound b n) ->
  exists params',
    for_each (save_root_descriptor b) (params, log) l =
    Some (params', log ++ map no_resources_bound (List.filter (is_unbound b) (map fst l))).
Proof.
  revert params log. induction l as [|[n d] l IH]; intros params log Hrange Hnd Hempty Hslots.
  - exists params. simpl. rewrite app_nil_r. reflexivity.
  - cbn [map fst snd] in Hnd. apply NoDup_cons in Hnd as [Hfresh Hnd].
    assert (Hd : 0 <= idx d < 32) by (apply (Hrange n d); left).
    destruct (Hempty n d) as (p & Hp & Hty); [left|].
    assert (Htail : forall params1 log1,
      (forall k, k <> Z.to_nat (idx d) -> params1 !! k = params !! k) ->
      exists params',
        for_each (save_root_descriptor b) (params1, log1) l =
        Some (params', log1 ++ map no_resources_bound
                                 (List.filter (is_unbound b) (map fst l)))).
    { intros params1 log1 Hsame. apply IH.
      - intros n' d' Hin. apply (Hrange n' d'). right. exact Hin.
      - exact Hnd.
      - intros n' d' Hin.
        destruct (Hempty n' d') as (p' & Hp' & Hty'); [right; exact Hin|].
        exists p'. split; [|exact Hty'].
        rewrite Hsame; [exact Hp'|].
        intros Heq. apply Hfresh.
        assert (Hidx : idx d' = idx d).
        { assert (0 <= idx d' < 32) by (apply (Hrange n' d'); right; exact Hin).
          apply Z2Nat.inj; lia. }
        rewrite <- Hidx.
        apply (list_elem_of_fmap_2 (fun e => idx (snd e)) l (n', d')). exact Hin.
      - intros n' d' Hin. apply (Hslots n' d'). right. exact Hin. }
    cbn [for_each save_root_descriptor]. unfold ENSURE.
    destruct (Z.ltb_spec (idx d) 32) as [_|]; [|lia].
    rewrite Hp. rewrite bool_decide_eq_true_2 by exact Hty.
    cbn [map fst List.filter].
    destruct (Hslots n d) as [Hsat|Hunb]; [left| |].
    + rewrite (is_unbound_false _ _ Hsat).
      destruct Hsat as [[buffer Hbuf]|[Hnone [image Himg]]].
      * rewrite Hbuf. apply Htail. intros k Hk.
        rewrite !list_lookup_alter_ne by (intros Heq; apply Hk; symmetry; exact Heq).
        reflexivity.
      * rewrite Hnone, Himg. simpl.
        apply Htail. intros k Hk.
        rewrite !list_lookup_alter_ne by (intros Heq; apply Hk; symmetry; exact Heq).
        reflexivity.
    + rewrite (is_unbound_true _ _ Hunb). destruct Hunb as [Hb Hi].
      rewrite Hb, Hi. cbn [map]. 
      destruct (Htail (alter (set_descriptor_type (type d)) (Z.to_nat (idx d)) params)
                      (log ++ [no_resources_bound n])) as (params' & Hrun).
      { intros k Hk. rewrite list_lookup_alter_ne; [reflexivity|].
        intros Heq. apply Hk. symmetry. exact Heq. }
      exists params'. rewrite Hrun. rewrite <- app_assoc. reflexivity.
Qed.

End BindGroupFacts.

Module BindGroupTheorems.
Import BindGroup BindGroupFacts.

(** [set_image] leaves [bound_images] as it was and stores the image under
    [bound_buffers]; [build] then meets it in its buffer branch, for any
    builder that declares [name] as a root descriptor. *)
Lemma set_image_then_build b name image desc :
  (name, desc) ∈ root_descriptor_descriptions b ->
  bound_images (set_image name image b) = bound_images b /\
  bound_buffers (set_image name image b) !! name = Some (ImageArrayEntry [image]) /\
  build (set_image name image b) = None.
Proof.
  intros Hin. split; [reflexivity|]. split.
  { unfold set_image, set_image_array. simpl. apply lookup_insert_eq. }
  unfold build.
  destruct (for_each save_descriptor_table _ _) as [params1|]; [|reflexivity].
  rewrite (for_each_fails _ _ (name, desc)); [reflexivity|exact Hin|].
  intros [params log]. cbn [save_root_descriptor]. unfold ENSURE.
  destruct (idx desc <? 32); [|reflexivity].
  destruct (params !! Z.to_nat (idx desc)) as [p|]; [|reflexivity].
  destruct (bool_decide (param_type p = Empty)); [|reflexivity].
  unfold set_image, set_image_array. simpl.
  rewrite lookup_insert_eq. reflexivity.
Qed.

Definition albedo_image : D3D12Image :=
  {| image_resource := {| GetGPUVirtualAddress := 4096 |} |}.

Definition albedo_builder : D3D12BindGroupBuilder :=
  new_builder [("albedo"%string, {| idx := 0; type := ShaderResource |})] [] [].

(** C6 on a builder with the one root-descriptor slot "albedo": after
    [set_image] the image is not in [bound_images], the only map from which
    [build] takes an image's address, and [build] gives no bind group whose
    slot 0 holds the address of the image. *)
Theorem set_image_is_not_consumed :
  bound_images (set_image "albedo" albedo_image albedo_builder) = ∅ /\
  bound_buffers (set_image "albedo" albedo_image albedo_builder) !! "albedo"%string
    = Some (ImageArrayEntry [albedo_image]) /\
  build (set_image "albedo" albedo_image albedo_builder) = None.
Proof.
  split; [reflexivity|]. split; [reflexivity|]. reflexivity.
Qed.

(** C7. A builder whose declarations respect the limits of [build], with
    one root-descriptor slot [name] (of any type, a shader resource in
    particular) left unbound and every other root-descriptor slot
    satisfied: [build] returns a bind group, and the log it writes is
    exactly one warning, the one for [name]. *)
Theorem build_with_one_unbound_slot b name desc :
  well_declared b ->
  (name, desc) ∈ root_descriptor_descriptions b ->
  unbound b name ->
  (forall n d, (n, d) ∈ root_descriptor_descriptions b -> n <> name -> satisfied b n) ->
  exists bind_group,
    build b = Some (bind_group, [no_resources_bound name]) /\
    length (List.filter is_warning [no_resources_bound name]) = 1%nat.
Proof.
  intros Hwd Hin Hunb Hothers.
  destruct Hwd as [Htr Hrr Hrd Hrf Hrn].
  unfold build.
  destruct (save_descriptor_tables (descriptor_table_handles b)
              (replicate 64 empty_root_parameter) Htr) as (params1 & Hrun1 & Hlen1 & Hsame1).
  rewrite Hrun1.
  destruct (save_root_descriptors b (root_descriptor_descriptions b) params1 [])
    as (params2 & Hrun2).
  - exact Hrr.
  - exact Hrd.
  - intros n d Hnd. exists empty_root_parameter. split; [|reflexivity].
    pose proof (Hrr n d Hnd) as Hrange.
    rewrite Hsame1.
    + apply lookup_replicate_2. lia.
    + intros h. rewrite Z2Nat.id by lia. apply (Hrf n d h Hnd).
  - intros n d Hnd. destruct (decide (n = name)) as [->|Hne].
    + right. exact Hunb.
    + left. apply (Hothers n d Hnd Hne).
  - rewrite Hrun2. simpl.
    rewrite (filter_single (is_unbound b) (map fst (root_descriptor_descriptions b)) name).
    + eexists. split; reflexivity.
    + exact Hrn.
    + apply (list_elem_of_fmap_2 fst _ (name, desc)). exact Hin.
    + apply is_unbound_true. exact Hunb.
    + intros n Hn Hne. apply list_elem_of_fmap in Hn as ([n' d] & -> & Hnd).
      apply is_unbound_false. apply (Hothers n' d Hnd Hne).
Qed.

Definition camera_buffer : D3D12Buffer :=
  {| buffer_resource := {| GetGPUVirtualAddress := 65536 |} |}.

(** Two root descriptors and one descriptor table; only "cameras" is bound. *)
Definition forward_pass_builder : D3D12BindGroupBuilder :=
  set_buffer "cameras" camera_buffer
    (new_builder [("cameras"%string, {| idx := 1; type := ShaderResource |});
                  ("materials"%string, {| idx := 2; type := ShaderResource |})]
                 [("textures"%string, 1024)]
                 [(3, 2048)]).

Lemma build_with_one_unbound_slot_witness :
  exists bind_group,
    build forward_pass_builder = Some (bind_group, [no_resources_bound "materials"]) /\
    length (List.filter is_warning [no_resources_bound "materials"]) = 1%nat.
Proof.
  apply (build_with_one_unbound_slot forward_pass_builder "materials"
           {| idx := 2; type := ShaderResource |}).
  - split.
    + intros i h Hin. apply list_elem_of_singleton in Hin. injection Hin as -> ->. lia.
    + intros n d Hin. simpl in Hin.
      repeat (apply elem_of_cons in Hin as [Hin|Hin]; [injection Hin as -> ->; simpl; lia|]).
      inversion Hin.
    + simpl. apply NoDup_cons. split; [|apply NoDup_singleton].
      intros H. apply list_elem_of_singleton in H. discriminate H.
    + intros n d h Hin Hin'. simpl in Hin, Hin'.
      apply list_elem_of_singleton in Hin'. injection Hin' as Hidx _.
      repeat (apply elem_of_cons in Hin as [Hin|Hin];
              [injection Hin as -> ->; simpl in Hidx; discriminate Hidx|]).
      inversion Hin.
    + simpl. apply NoDup_cons. split; [|apply NoDup_singleton].
      intros H. apply list_elem_of_singleton in H. discriminate H.
  - simpl. right. left.
  - split; reflexivity.
  - intros n d Hin Hne. simpl in Hin.
    apply elem_of_cons in Hin as [Hin|Hin].
    + injection Hin as -> ->. left. exists camera_buffer. reflexivity.
    + apply list_elem_of_singleton in Hin. injection Hin as -> ->. contradiction.
Defined.

End BindGroupTheorems.

(** ** Render device: resources *)

Module RenderDeviceResourceFacts.
Import RenderDevice.

(** What the search loop has established after the indices below [k]. *)
Definition best_fit_of (buffers : list D3D12StagingBuffer) (num_bytes : Z)
    (k best : nat) : Prop :=
  (best = length buffers /\
   forall i c, (i < k)%nat -> buffers !! i = Some c -> staging_size c < num_bytes)
  \/
  ((best < k)%nat /\
   exists b, buffers !! best = Some b /\ num_bytes <= staging_size b /\
     forall i c, (i < k)%nat -> buffers !! i = Some c ->
                 num_bytes <= staging_size c -> staging_size b <= staging_size c).

Lemma best_fit_prefix (buffers : list D3D12StagingBuffer) (num_bytes : Z) (k : nat) :
  (k <= length buffers)%nat ->
  best_fit_of buffers num_bytes k
    (foldl (best_fit_step buffers num_bytes) (length buffers) (seq 0 k)).
Proof.
  induction k as [|k IH]; intros Hk.
  - left. split; [reflexivity|]. intros i c Hi. lia.
  - rewrite seq_S, foldl_snoc. cbn [Nat.add].
    specialize (IH ltac:(lia)).
    set (best := foldl (best_fit_step buffers num_bytes) (length buffers) (seq 0 k)) in *.
    destruct (lookup_lt_is_Some_2 buffers k ltac:(lia)) as [cand Hcand].
    unfold best_fit_step. rewrite Hcand.
    destruct (Z.leb_spec num_bytes (staging_size cand)) as [Hfit|Hsmall].
    + destruct IH as [[Hbest Hnone]|[Hbest (b & Hb & Hbfit & Hmin)]].
      * rewrite Hbest. rewrite Nat.leb_refl.
        right. split; [lia|]. exists cand. split; [exact Hcand|]. split; [exact Hfit|].
        intros i c Hi Hc Hcfit.
        destruct (decide (i = k)) as [->|Hne].
        -- rewrite Hcand in Hc. injection Hc as <-. lia.
        -- specialize (Hnone i c ltac:(lia) Hc). lia.
      * destruct (Nat.leb_spec (length buffers) best) as [Hge|_]; [lia|].
        rewrite Hb.
        destruct (Z.ltb_spec (staging_size cand) (staging_size b)) as [Hlt|Hge].
        -- right. split; [lia|]. exists cand. split; [exact Hcand|]. split; [exact Hfit|].
           intros i c Hi Hc Hcfit.
           destruct (decide (i = k)) as [->|Hne].
           ++ rewrite Hcand in Hc. injection Hc as <-. lia.
           ++ specialize (Hmin i c ltac:(lia) Hc Hcfit). lia.
        -- right. split; [lia|]. exists b. split; [exact Hb|]. split; [exact Hbfit|].
           intros i c Hi Hc Hcfit.
           destruct (decide (i = k)) as [->|Hne].
           ++ rewrite Hcand in Hc. injection Hc as <-. lia.
           ++ apply (Hmin i c); [lia|exact Hc|exact Hcfit].
    + destruct IH as [[Hbest Hnone]|[Hbest (b & Hb & Hbfit & Hmin)]].
      * left. split; [exact Hbest|]. intros i c Hi Hc.
        destruct (decide (i = k)) as [->|Hne].
        -- rewrite Hcand in Hc. injection Hc as <-. lia.
        -- apply (Hnone i c); [lia|exact Hc].
      * right. split; [lia|]. exists b. split; [exact Hb|]. split; [exact Hbfit|].
        intros i c Hi Hc Hcfit.
        destruct (decide (i = k)) as [->|Hne].
        -- rewrite Hcand in Hc. injection Hc as <-. lia.
        -- apply (Hmin i c); [lia|exact Hc|exact Hcfit].
Qed.

Lemma find_best_fit_spec (buffers : list D3D12StagingBuffer) (num_bytes : Z) :
  best_fit_of buffers num_bytes (length buffers) (find_best_fit buffers num_bytes).
Proof. apply best_fit_prefix. lia. Qed.

End RenderDeviceResourceFacts.

Module RenderDeviceResourceTheorems.
Import RenderDevice RenderDeviceResourceFacts.

(** C9. When the allocation behind a [create_buffer] or [create_image] request
    fails, the function returns the empty result and its log ends with an
    error line.  The functions have no third outcome: nothing is thrown, and
    no resource is returned in place of the failed one. *)
Theorem failed_creation_is_empty_and_logged (to_dxgi_format : Z -> Z)
    (device_allocator : Allocator)
    (buffer_info : BufferCreateInfo) (image_info : ImageCreateInfo) :
  (FAILED (hresult (device_allocator (fst (buffer_request buffer_info)))) = true ->
   create_buffer device_allocator buffer_info =
     (None, [{| level := Error; message := "Could not create buffer %s" |}]))
  /\
  (FAILED (hresult (device_allocator (image_request to_dxgi_format image_info))) = true ->
   fst (create_image to_dxgi_format device_allocator image_info) = None /\
   last (snd (create_image to_dxgi_format device_allocator image_info)) =
     Some {| level := Error; message := "Could not create image %s" |}).
Proof.
  split.
  - intros Hfail. unfold create_buffer.
    destruct (buffer_request buffer_info) as [request should_map]. simpl in Hfail.
    rewrite Hfail. reflexivity.
  - intros Hfail. unfold create_image.
    destruct (image_initial_state image_info) as [state log].
    rewrite Hfail. split; [reflexivity|]. apply last_snoc.
Qed.

(** An allocator that is out of memory, and one that always succeeds. *)
Definition exhausted_allocator : Allocator :=
  fun _ => {| hresult := E_OUTOFMEMORY; out_allocation := 0; out_resource := 0 |}.

Definition working_allocator : Allocator :=
  fun _ => {| hresult := S_OK; out_allocation := 1; out_resource := 1 |}.

Lemma failed_creation_is_empty_and_logged_witness :
  create_buffer exhausted_allocator
    {| buffer_name := "Static Mesh Vertex Buffer"; buffer_usage := VertexBuffer;
       buffer_size := 1024 |} =
    (None, [{| level := Error; message := "Could not create buffer %s" |}])
  /\ fst (create_image (fun f => f) exhausted_allocator
            {| image_name := "Accumulation target"; image_usage := RenderTarget;
               image_format := 28; image_width := 640; image_height := 480 |}) = None.
Proof.
  pose proof (failed_creation_is_empty_and_logged (fun f => f) exhausted_allocator
    {| buffer_name := "Static Mesh Vertex Buffer"; buffer_usage := VertexBuffer;
       buffer_size := 1024 |}
    {| image_name := "Accumulation target"; image_usage := RenderTarget;
       image_format := 28; image_width := 640; image_height := 480 |}) as [Hb Hi].
  split.
  - apply Hb. reflexivity.
  - apply Hi. reflexivity.
Defined.

(** C10, as the code has it.  If a pooled staging buffer has at least
    [num_bytes] bytes, [get_staging_buffer] removes a smallest such buffer
    from the pool and returns it, so a buffer that comes from the pool has at
    least [num_bytes] bytes.  Otherwise it returns what
    [create_staging_buffer(num_bytes)] returns and leaves the pooled buffers
    alone: a new buffer of exactly [num_bytes] bytes when the allocation
    succeeds, the empty buffer and an error line when it fails. *)
Theorem get_staging_buffer_best_fit (device_allocator : Allocator) (num_bytes : Z)
    (pool : StagingPool) :
  let r := get_staging_buffer device_allocator num_bytes pool in
  ((exists b, b ∈ staging_buffers pool /\ num_bytes <= staging_size b) ->
   exists i,
     staging_buffers pool !! i = Some r.1.1 /\
     staging_buffers r.1.2 = delete i (staging_buffers pool) /\
     num_bytes <= staging_size r.1.1 /\
     (forall c, c ∈ staging_buffers pool -> num_bytes <= staging_size c ->
                staging_size r.1.1 <= staging_size c) /\
     r.2 = [])
  /\
  ((forall b, b ∈ staging_buffers pool -> staging_size b < num_bytes) ->
   r = create_staging_buffer device_allocator num_bytes pool /\
   staging_buffers r.1.2 = staging_buffers pool /\
   (FAILED (hresult (device_allocator (staging_request num_bytes))) = false ->
    staging_size r.1.1 = num_bytes /\
    staging_resource r.1.1 = Some (out_resource (device_allocator (staging_request num_bytes))) /\
    r.2 = []) /\
   (FAILED (hresult (device_allocator (staging_request num_bytes))) = true ->
    r.1.1 = empty_staging_buffer /\
    r.2 = [{| level := Error; message := "Could not create staging buffer" |}])).
Proof.
  cbv zeta. unfold get_staging_buffer.
  pose proof (find_best_fit_spec (staging_buffers pool) num_bytes) as Hspec.
  set (best := find_best_fit (staging_buffers pool) num_bytes) in *.
  split.
  - intros (b0 & Hb0 & Hb0fit).
    destruct Hspec as [[Hbest Hnone]|[Hbest (b & Hb & Hbfit & Hmin)]].
    + apply list_elem_of_lookup in Hb0 as [i Hi].
      pose proof (lookup_lt_Some _ _ _ Hi) as Hlt.
      specialize (Hnone i b0 Hlt Hi). lia.
    + rewrite Hb. exists best. simpl.
      split; [exact Hb|]. split; [reflexivity|]. split; [exact Hbfit|].
      split; [|reflexivity].
      intros c Hc Hcfit. apply list_elem_of_lookup in Hc as [i Hi].
      apply (Hmin i c); [|exact Hi|exact Hcfit].
      apply (lookup_lt_Some _ _ _ Hi).
  - intros Hsmall.
    assert (Hnone : staging_buffers pool !! best = None).
    { destruct Hspec as [[Hbest _]|[Hbest (b & Hb & Hbfit & _)]].
      - apply lookup_ge_None_2. lia.
      - apply list_elem_of_lookup_2 in Hb. specialize (Hsmall b Hb). lia. }
    rewrite Hnone. split; [reflexivity|].
    unfold create_staging_buffer.
    destruct (FAILED (hresult (device_allocator (staging_request num_bytes)))); simpl.
    + split; [reflexivity|]. split; [discriminate|]. intros _. split; reflexivity.
    + split; [reflexivity|]. split; [|discriminate]. intros _. repeat split.
Qed.

Definition pooled (n : Z) : D3D12StagingBuffer :=
  {| staging_allocation := Some 0%nat; staging_resource := Some 0%nat;
     staging_size := n; staging_mapped := true; staging_name := "Staging Buffer {}" |}.

Definition three_buffers : StagingPool :=
  {| staging_buffers := [pooled 256; pooled 64; pooled 128]; staging_buffer_idx := 3 |}.

Lemma get_staging_buffer_best_fit_witness :
  (get_staging_buffer working_allocator 100 three_buffers).1.1 = pooled 128 /\
  exists i,
    staging_buffers three_buffers !! i =
      Some (get_staging_buffer working_allocator 100 three_buffers).1.1 /\
    staging_buffers (get_staging_buffer working_allocator 100 three_buffers).1.2 =
      delete i (staging_buffers three_buffers).
Proof.
  split; [reflexivity|].
  destruct (proj1 (get_staging_buffer_best_fit working_allocator 100 three_buffers))
    as (i & Hi & Hdel & _).
  - exists (pooled 256). split; [left|]. simpl. lia.
  - exists i. split; [exact Hi|exact Hdel].
Defined.

(** C10 as stated fails when the pool has no buffer that is large enough and
    the allocation fails: the buffer returned is the empty one, neither newly
    created nor of [num_bytes] bytes. *)
Lemma get_staging_buffer_failed_allocation :
  let pool := {| staging_buffers := [pooled 8]; staging_buffer_idx := 1 |} in
  let r := get_staging_buffer exhausted_allocator 16 pool in
  (forall b, b ∈ staging_buffers pool -> staging_size b < 16) /\
  staging_resource r.1.1 = None /\
  staging_size r.1.1 <> 16.
Proof.
  cbv zeta. split.
  - intros b Hb. apply list_elem_of_singleton in Hb. subst b. simpl. lia.
  - split; [reflexivity|]. vm_compute. discriminate.
Qed.

End RenderDeviceResourceTheorems.

(** ** Render device: submission, completion tracking and the frame ring *)

Module RenderDeviceSyncFacts.
Import RenderDevice RenderDeviceSync.

(** The position [v.end()] holds no element. *)
Lemma dereference_end {A} (v : list A) : dereference v (vector_end v) = None.
Proof. unfold dereference, vector_end. apply lookup_ge_None_2. lia. Qed.

Lemma get_next_fence_from_pool CreateFence (pool : list Fence) :
  pool <> [] -> get_next_command_list_done_fence CreateFence pool = UndefinedBehaviour.
Proof.
  intros Hne. unfold get_next_command_list_done_fence.
  destruct pool as [|f pool]; [contradiction|].
  rewrite dereference_end. reflexivity.
Qed.

Section WithConstants.
Variable c : Z.

(** What [submit_command_list] changes. *)
Lemma submit_command_list_spec commands s s' :
  submit_command_list c commands s = Some s' ->
  exists fence,
    events s' = events s ++ [Submitted commands fence] /\
    in_flight_command_lists s' = in_flight_command_lists s ++ [(fence, commands)] /\
    done_command_lists s' = done_command_lists s /\
    command_completion_thread s' = command_completion_thread s /\
    frame_fence_values s' = frame_fence_values s /\
    main_thread s' = main_thread s /\
    created_command_lists s' = created_command_lists s /\
    GetCompletedValue s' = GetCompletedValue s /\
    GetCurrentBackBufferIndex s' = GetCurrentBackBufferIndex s /\
    num_frames s' = num_frames s /\
    direct_command_queue s' =
      direct_command_queue s ++ [ExecuteCommandLists commands; Signal fence c].
Proof.
  unfold submit_command_list. intros H.
  destruct (get_next_command_list_done_fence _ _) as [[[[fence|] pool] log]|] eqn:Hfence;
    try discriminate H.
  injection H as <-. exists fence. simpl.
  rewrite <- app_assoc. repeat split; reflexivity.
Qed.

(** How a step changes the events, the fence values of the frame slots, the
    two queues, the completion thread and the number of command lists. *)
Definition changes (s s' : State) (new_events : list Event) (values : list Z)
    (in_flight : list (Fence * CommandList)) (done : list CommandList)
    (worker : CompletionThread) (lists : nat) : Prop :=
  events s' = events s ++ new_events /\
  frame_fence_values s' = values /\
  in_flight_command_lists s' = in_flight /\
  done_command_lists s' = done /\
  command_completion_thread s' = worker /\
  created_command_lists s' = lists.

Definition new_list (s : State) (name : string) : CommandList :=
  {| list_id := created_command_lists s; debug_name := name |}.

Lemma step_spec a s s' :
  step c a s = Some s' ->
  match a with
  | Render name =>
      exists fence,
        changes s s' [Submitted (new_list s name) fence] (frame_fence_values s)
          (in_flight_command_lists s ++ [(fence, new_list s name)])
          (done_command_lists s) (command_completion_thread s)
          (S (created_command_lists s))
  | BeginFrame =>
      changes s s' (map CompletionFunctionsExecuted (done_command_lists s))
        (frame_fence_values s) (in_flight_command_lists s) []
        (command_completion_thread s) (created_command_lists s)
  | FrameSlotFree =>
      exists slot desired fence,
        let cmds := new_list s "Transition Swapchain to Render Target" in
        let observed := GetCompletedValue s (FrameFence slot) in
        main_thread s = InWaitForFrame slot /\
        frame_fence_values s !! slot = Some desired /\
        desired <= observed /\
        changes s s' [FrameWaitReturned slot desired observed; Submitted cmds fence]
          (<[slot := desired + 1]> (frame_fence_values s))
          (in_flight_command_lists s ++ [(fence, cmds)])
          (done_command_lists s) (command_completion_thread s)
          (S (created_command_lists s))
  | EndFrame =>
      exists fence value,
        let cmds := new_list s "Transition Swapchain to Presentable" in
        let slot := GetCurrentBackBufferIndex s in
        frame_fence_values s !! slot = Some value /\
        changes s s' [Submitted cmds fence; FrameFenceSignal slot value; Presented slot]
          (frame_fence_values s)
          (in_flight_command_lists s ++ [(fence, cmds)])
          (done_command_lists s) (command_completion_thread s)
          (S (created_command_lists s))
  | GpuExecutes =>
      changes s s' [] (frame_fence_values s) (in_flight_command_lists s)
        (done_command_lists s) (command_completion_thread s) (created_command_lists s)
  | WorkerPops =>
      command_completion_thread s = Polling /\
      match in_flight_command_lists s with
      | [] => s' = s
      | cur_pair :: rest =>
          changes s s' [] (frame_fence_values s) rest (done_command_lists s)
            (Waiting cur_pair) (created_command_lists s)
      end
  | WorkerWaitReturns =>
      exists fence cmds,
        command_completion_thread s = Waiting (fence, cmds) /\
        changes s s' [WorkerWaitReturned cmds fence (c <=? GetCompletedValue s fence)]
          (frame_fence_values s) (in_flight_command_lists s)
          (done_command_lists s ++ [cmds]) Polling (created_command_lists s)
  end.
Proof.
  unfold changes. destruct a; cbn [step]; intros H.
  - unfold render in H. destruct (main_thread s); [|discriminate H].
    cbn [create_render_command_list] in H.
    apply submit_command_list_spec in H
      as (fence & Hev & Hin & Hdone & Hw & Hv & _ & Hl & _).
    exists fence. cbn in Hev, Hin, Hdone, Hw, Hv, Hl. unfold new_list.
    rewrite Hev, Hin, Hdone, Hw, Hv, Hl. repeat split.
  - unfold begin_frame_enter in H. destruct (main_thread s); [|discriminate H].
    injection H as <-. cbn. repeat split.
  - unfold begin_frame_proceed in H.
    destruct (main_thread s) as [|slot] eqn:Hmain; [discriminate H|].
    unfold wait_for_frame in H.
    destruct (frame_fence_values s !! slot) as [desired|] eqn:Hvalue; [|discriminate H].
    destruct (Z.leb_spec desired (GetCompletedValue s (FrameFence slot))) as [Hle|Hlt];
      [|discriminate H].
    cbn [create_render_command_list] in H.
    apply submit_command_list_spec in H
      as (fence & Hev & Hin & Hdone & Hw & Hv & _ & Hl & _).
    exists slot, desired, fence. cbv zeta.
    cbn in Hev, Hin, Hdone, Hw, Hv, Hl. unfold new_list.
    rewrite Hev, Hin, Hdone, Hw, Hv, Hl, <- app_assoc.
    repeat split; first [exact Hvalue | exact Hle].
  - unfold end_frame in H. destruct (main_thread s); [|discriminate H].
    cbn [create_render_command_list] in H.
    destruct (submit_command_list c _ _) as [s2|] eqn:Hsubmit; [|discriminate H].
    apply submit_command_list_spec in Hsubmit
      as (fence & Hev & Hin & Hdone & Hw & Hv & _ & Hl & _ & Hidx & _).
    cbn in Hev, Hin, Hdone, Hw, Hv, Hl, Hidx.
    cbn [with_main GetCurrentBackBufferIndex] in H.
    destruct (frame_fence_values s2 !! GetCurrentBackBufferIndex s) as [value|] eqn:Hvalue;
      [|discriminate H].
    injection H as <-. exists fence, value. cbv zeta. cbn. unfold new_list.
    rewrite Hev, Hin, Hdone, Hw, Hv, Hl, <- !app_assoc.
    rewrite Hv in Hvalue. rewrite ?Hidx.
    repeat split; first [exact Hvalue | reflexivity].
  - unfold gpu_execute in H.
    destruct (direct_command_queue s) as [|[cmds|fence value] rest]; [discriminate H| |];
      injection H as <-; cbn; rewrite app_nil_r; repeat split.
  - unfold worker_pop in H.
    destruct (command_completion_thread s); [|discriminate H].
    split; [reflexivity|].
    destruct (in_flight_command_lists s) as [|cur_pair rest]; injection H as <-;
      [reflexivity|].
    cbn. rewrite app_nil_r. repeat split.
  - unfold worker_wait_returns in H.
    destruct (command_completion_thread s) as [|[fence cmds]]; [discriminate H|].
    injection H as <-. exists fence, cmds. cbn. repeat split.
Qed.

(** *** The frame ring *)

(** Every value that [end_frame] has asked the queue to signal on the fence
    of a slot is at most the slot's entry of [frame_fence_values]. *)
Definition signals_below (s : State) : Prop :=
  forall slot v, FrameFenceSignal slot v ∈ events s ->
    exists d, frame_fence_values s !! slot = Some d /\ v <= d.

(** Every return of [wait_for_frame] saw the fence at the desired value or
    beyond it, and the desired value covers all earlier signals of the slot. *)
Definition waits_ok (evs : list Event) : Prop :=
  forall pre post slot d o, evs = pre ++ FrameWaitReturned slot d o :: post ->
    d <= o /\ forall v, FrameFenceSignal slot v ∈ pre -> v <= d.

Definition frame_inv (s : State) : Prop :=
  signals_below s /\ waits_ok (events s).

Definition is_frame_wait (e : Event) : bool :=
  match e with FrameWaitReturned _ _ _ => true | _ => false end.

Lemma split_app {A} (evs new pre post : list A) (e : A) :
  evs ++ new = pre ++ e :: post ->
  (exists post', evs = pre ++ e :: post' /\ post = post' ++ new) \/
  (exists n1, pre = evs ++ n1 /\ new = n1 ++ e :: post).
Proof.
  intros H. apply app_eq_app in H as [l [[H1 H2]|[H1 H2]]].
  - destruct l as [|e' l].
    + right. exists []. rewrite app_nil_r in H1. simpl in H2. split; [|symmetry]; auto.
      rewrite app_nil_r. symmetry. exact H1.
    + left. injection H2 as -> ->. exists l. split; [exact H1|reflexivity].
  - right. exists l. split; assumption.
Qed.

Lemma no_wait_in (new n1 n2 : list Event) slot d o :
  forallb (fun e => negb (is_frame_wait e)) new = true ->
  new <> n1 ++ FrameWaitReturned slot d o :: n2.
Proof.
  intros Hall ->. rewrite forallb_app in Hall. simpl in Hall.
  rewrite andb_false_r in Hall. discriminate Hall.
Qed.

Lemma waits_ok_app_other evs new :
  forallb (fun e => negb (is_frame_wait e)) new = true ->
  waits_ok evs -> waits_ok (evs ++ new).
Proof.
  intros Hall Hok pre post slot d o Heq.
  apply split_app in Heq as [(post' & Hevs & _)|(n1 & _ & Hnew)].
  - apply (Hok pre post' slot d o Hevs).
  - exfalso. apply (no_wait_in new n1 post slot d o Hall Hnew).
Qed.

Lemma waits_ok_app_wait evs rest slot d o :
  forallb (fun e => negb (is_frame_wait e)) rest = true ->
  d <= o ->
  (forall v, FrameFenceSignal slot v ∈ evs -> v <= d) ->
  waits_ok evs -> waits_ok (evs ++ FrameWaitReturned slot d o :: rest).
Proof.
  intros Hall Hle Hsig Hok pre post slot' d' o' Heq.
  apply split_app in Heq as [(post' & Hevs & _)|(n1 & Hpre & Hnew)].
  - apply (Hok pre post' slot' d' o' Hevs).
  - destruct n1 as [|e n1].
    + simpl in Hnew. injection Hnew as -> -> -> _.
      rewrite app_nil_r in Hpre. subst pre. split; [exact Hle|exact Hsig].
    + exfalso. simpl in Hnew. injection Hnew as _ Hrest.
      apply (no_wait_in rest n1 post slot' d' o' Hall Hrest).
Qed.

Lemma frame_inv_initial n : frame_inv (initial n).
Proof.
  split.
  - intros slot v Hin. simpl in Hin. inversion Hin.
  - intros pre post slot d o Heq. simpl in Heq. destruct pre; discriminate Heq.
Qed.

(** A step that adds no signal of a frame fence and does not lower a fence
    value keeps [signals_below]. *)
Lemma signals_below_other s s' new :
  events s' = events s ++ new ->
  (forall slot v, FrameFenceSignal slot v ∉ new) ->
  (forall slot d, frame_fence_values s !! slot = Some d ->
     exists d', frame_fence_values s' !! slot = Some d' /\ d <= d') ->
  signals_below s -> signals_below s'.
Proof.
  intros Hev Hnone Hmono Hinv slot v Hin.
  rewrite Hev in Hin. apply elem_of_app in Hin as [Hin|Hin].
  - destruct (Hinv slot v Hin) as (d & Hd & Hle).
    destruct (Hmono slot d Hd) as (d' & Hd' & Hle'). exists d'. split; [exact Hd'|lia].
  - exfalso. apply (Hnone slot v Hin).
Qed.

Lemma same_values_mono (s s' : State) :
  frame_fence_values s' = frame_fence_values s ->
  forall slot d, frame_fence_values s !! slot = Some d ->
    exists d', frame_fence_values s' !! slot = Some d' /\ d <= d'.
Proof. intros -> slot d Hd. exists d. split; [exact Hd|lia]. Qed.

Lemma completions_no_wait (l : list CommandList) :
  forallb (fun e => negb (is_frame_wait e)) (map CompletionFunctionsExecuted l) = true.
Proof. induction l as [|cl l IH]; [reflexivity|exact IH]. Qed.

Lemma frame_inv_step a s s' :
  step c a s = Some s' -> frame_inv s -> frame_inv s'.
Proof.
  intros Hstep [Hsig Hwait]. apply step_spec in Hstep. unfold changes in Hstep.
  destruct a.
  - destruct Hstep as (fence & Hev & Hv & _). split.
    + apply (signals_below_other s s' _ Hev); [|apply same_values_mono; exact Hv|exact Hsig].
      intros slot v Hin. apply list_elem_of_singleton in Hin. discriminate Hin.
    + rewrite Hev. apply waits_ok_app_other; [reflexivity|exact Hwait].
  - destruct Hstep as (Hev & Hv & _). split.
    + apply (signals_below_other s s' _ Hev); [|apply same_values_mono; exact Hv|exact Hsig].
      intros slot v Hin. apply list_elem_of_fmap in Hin as (cl & Heq & _). discriminate Heq.
    + rewrite Hev. apply waits_ok_app_other; [apply completions_no_wait|exact Hwait].
  - destruct Hstep as (slot & desired & fence & Hmain & Hvalue & Hle & Hev & Hv & _).
    split.
    + apply (signals_below_other s s' _ Hev); [| |exact Hsig].
      * intros slot' v Hin.
        apply elem_of_cons in Hin as [Hin|Hin]; [discriminate Hin|].
        apply list_elem_of_singleton in Hin. discriminate Hin.
      * intros slot' d Hd. rewrite Hv.
        destruct (decide (slot = slot')) as [<-|Hne].
        -- exists (desired + 1). split.
           ++ apply list_lookup_insert_eq. apply (lookup_lt_Some _ _ _ Hvalue).
           ++ rewrite Hvalue in Hd. injection Hd as <-. lia.
        -- exists d. split; [|lia]. rewrite list_lookup_insert_ne by exact Hne. exact Hd.
    + rewrite Hev. apply waits_ok_app_wait; [reflexivity|exact Hle| |exact Hwait].
      intros v Hin. destruct (Hsig slot v Hin) as (d & Hd & Hvd).
      rewrite Hvalue in Hd. injection Hd as <-. exact Hvd.
  - destruct Hstep as (fence & value & Hvalue & Hev & Hv & _). split.
    + intros slot v Hin. rewrite Hev in Hin. rewrite Hv.
      apply elem_of_app in Hin as [Hin|Hin]; [apply (Hsig slot v Hin)|].
      apply elem_of_cons in Hin as [Hin|Hin]; [discriminate Hin|].
      apply elem_of_cons in Hin as [Hin|Hin].
      * injection Hin as -> ->. exists value. split; [exact Hvalue|lia].
      * apply list_elem_of_singleton in Hin. discriminate Hin.
    + rewrite Hev. apply waits_ok_app_other; [reflexivity|exact Hwait].
  - destruct Hstep as (Hev & Hv & _). split.
    + apply (signals_below_other s s' _ Hev); [|apply same_values_mono; exact Hv|exact Hsig].
      intros slot v Hin. inversion Hin.
    + rewrite Hev, app_nil_r. exact Hwait.
  - destruct Hstep as (_ & Hstep).
    destruct (in_flight_command_lists s) as [|cur_pair rest].
    + subst s'. split; assumption.
    + destruct Hstep as (Hev & Hv & _). split.
      * apply (signals_below_other s s' _ Hev); [|apply same_values_mono; exact Hv|exact Hsig].
        intros slot v Hin. inversion Hin.
      * rewrite Hev, app_nil_r. exact Hwait.
  - destruct Hstep as (fence & cmds & _ & Hev & Hv & _). split.
    + apply (signals_below_other s s' _ Hev); [|apply same_values_mono; exact Hv|exact Hsig].
      intros slot v Hin. apply list_elem_of_singleton in Hin. discriminate Hin.
    + rewrite Hev. apply waits_ok_app_other; [reflexivity|exact Hwait].
Qed.

Lemma run_invariant (P : State -> Prop) :
  (forall a s s', step c a s = Some s' -> P s -> P s') ->
  forall actions s s', run c actions s = Some s' -> P s -> P s'.
Proof.
  intros Hstep actions. induction actions as [|a rest IH]; intros s s' Hrun HP.
  - injection Hrun as <-. exact HP.
  - cbn [run] in Hrun. destruct (step c a s) as [s1|] eqn:Ha; [|discriminate Hrun].
    apply (IH s1 s' Hrun). apply (Hstep a s s1 Ha HP).
Qed.

Lemma waiting_thread_is_blocked a s slot :
  main_thread s = InWaitForFrame slot ->
  of_render_thread a = true -> step c a s = None.
Proof.
  intros Hmain Ha. destruct a; try discriminate Ha; cbn [step].
  - unfold render. rewrite Hmain. reflexivity.
  - unfold begin_frame_enter. rewrite Hmain. reflexivity.
  - unfold end_frame. rewrite Hmain. reflexivity.
Qed.

Lemma wait_for_frame_blocks s slot desired :
  main_thread s = InWaitForFrame slot ->
  frame_fence_values s !! slot = Some desired ->
  GetCompletedValue s (FrameFence slot) < desired ->
  step c FrameSlotFree s = None.
Proof.
  intros Hmain Hvalue Hlt. cbn [step]. unfold begin_frame_proceed, wait_for_frame.
  rewrite Hmain, Hvalue.
  destruct (Z.leb_spec desired (GetCompletedValue s (FrameFence slot))); [lia|reflexivity].
Qed.

(** *** Completion tracking *)

Definition worker_list (w : CompletionThread) : list CommandList :=
  match w with
  | Polling => []
  | Waiting (_, commands) => [commands]
  end.

Definition is_completion (e : Event) : bool :=
  match e with CompletionFunctionsExecuted _ => true | _ => false end.

(** The wait of the completion thread on the fence of [commands] has
    returned, and that fence is the one signaled at the submission. *)
Definition waited_for (evs : list Event) (commands : CommandList) : Prop :=
  exists fence signaled,
    WorkerWaitReturned commands fence signaled ∈ evs /\ Submitted commands fence ∈ evs.

Definition completions_ok (evs : list Event) : Prop :=
  forall pre post commands,
    evs = pre ++ CompletionFunctionsExecuted commands :: post -> waited_for pre commands.

Record lists_inv (s : State) : Prop := {
  inv_order :
    submitted (events s) =
      completed (events s) ++ done_command_lists s ++
      worker_list (command_completion_thread s) ++
      map snd (in_flight_command_lists s);
  inv_ids :
    forall commands, commands ∈ submitted (events s) ->
                     (list_id commands < created_command_lists s)%nat;
  inv_nodup : NoDup (map list_id (submitted (events s)));
  inv_done :
    forall commands, commands ∈ done_command_lists s -> waited_for (events s) commands;
  inv_in_flight :
    forall fence commands,
      (fence, commands) ∈ in_flight_command_lists s \/
      command_completion_thread s = Waiting (fence, commands) ->
      Submitted commands fence ∈ events s;
  inv_completions : completions_ok (events s)
}.

Lemma submitted_app evs new : submitted (evs ++ new) = submitted evs ++ submitted new.
Proof. unfold submitted. apply omap_app. Qed.

Lemma completed_app evs new : completed (evs ++ new) = completed evs ++ completed new.
Proof. unfold completed. apply omap_app. Qed.

Lemma submitted_completions l : submitted (map CompletionFunctionsExecuted l) = [].
Proof. induction l as [|x l IH]; [reflexivity|exact IH]. Qed.

Lemma completed_completions l : completed (map CompletionFunctionsExecuted l) = l.
Proof. induction l as [|x l IH]; [reflexivity|]. simpl. f_equal. exact IH. Qed.

Lemma waited_for_app evs new commands :
  waited_for evs commands -> waited_for (evs ++ new) commands.
Proof.
  intros (fence & signaled & H1 & H2). exists fence, signaled.
  split; apply elem_of_app; left; assumption.
Qed.

Lemma no_completion_in (new n1 n2 : list Event) commands :
  forallb (fun e => negb (is_completion e)) new = true ->
  new <> n1 ++ CompletionFunctionsExecuted commands :: n2.
Proof.
  intros Hall ->. rewrite forallb_app in Hall. simpl in Hall.
  rewrite andb_false_r in Hall. discriminate Hall.
Qed.

Lemma completions_ok_app_other evs new :
  forallb (fun e => negb (is_completion e)) new = true ->
  completions_ok evs -> completions_ok (evs ++ new).
Proof.
  intros Hall Hok pre post commands Heq.
  apply split_app in Heq as [(post' & Hevs & _)|(n1 & _ & Hnew)].
  - apply (Hok pre post' commands Hevs).
  - exfalso. apply (no_completion_in new n1 post commands Hall Hnew).
Qed.

Lemma completions_ok_app_done evs l :
  (forall commands, commands ∈ l -> waited_for evs commands) ->
  completions_ok evs -> completions_ok (evs ++ map CompletionFunctionsExecuted l).
Proof.
  intros Hdone Hok pre post commands Heq.
  apply split_app in Heq as [(post' & Hevs & _)|(n1 & Hpre & Hnew)].
  - apply (Hok pre post' commands Hevs).
  - subst pre. apply waited_for_app. apply Hdone.
    assert (Hin : CompletionFunctionsExecuted commands ∈ map CompletionFunctionsExecuted l).
    { rewrite Hnew. apply elem_of_app. right. left. }
    apply list_elem_of_fmap in Hin as (x & Heq & Hx). injection Heq as ->. exact Hx.
Qed.

Lemma lists_inv_initial n : lists_inv (initial n).
Proof.
  split; simpl.
  - reflexivity.
  - intros commands Hin. inversion Hin.
  - apply NoDup_nil_2.
  - intros commands Hin. inversion Hin.
  - intros fence commands [Hin|Hw]; [inversion Hin|discriminate Hw].
  - intros pre post commands Heq. destruct pre; discriminate Heq.
Qed.

(** A step that submits the new command list [cmds], around events that are
    neither submissions nor completions. *)
Lemma lists_inv_submit s s' before after (cmds : CommandList) fence :
  events s' = events s ++ before ++ [Submitted cmds fence] ++ after ->
  submitted before = [] -> submitted after = [] ->
  completed before = [] -> completed after = [] ->
  forallb (fun e => negb (is_completion e)) (before ++ [Submitted cmds fence] ++ after) = true ->
  list_id cmds = created_command_lists s ->
  created_command_lists s' = S (created_command_lists s) ->
  in_flight_command_lists s' = in_flight_command_lists s ++ [(fence, cmds)] ->
  done_command_lists s' = done_command_lists s ->
  command_completion_thread s' = command_completion_thread s ->
  lists_inv s -> lists_inv s'.
Proof.
  intros Hev Hsb Hsa Hcb Hca Hnc Hid Hl Hin Hdone Hw [Horder Hids Hnd Hd Hfl Hc].
  assert (Hsub : submitted (events s') = submitted (events s) ++ [cmds]).
  { rewrite Hev, !submitted_app, Hsb, Hsa. simpl. reflexivity. }
  assert (Hcomp : completed (events s') = completed (events s)).
  { rewrite Hev, !completed_app, Hcb, Hca. simpl. rewrite app_nil_r. reflexivity. }
  split.
  - rewrite Hsub, Hcomp, Hin, Hdone, Hw, Horder, map_app. simpl.
    rewrite <- !app_assoc. reflexivity.
  - intros commands Hc'. rewrite Hsub in Hc'. rewrite Hl.
    apply elem_of_app in Hc' as [Hc'|Hc'].
    + specialize (Hids commands Hc'). lia.
    + apply list_elem_of_singleton in Hc'. subst commands. lia.
  - rewrite Hsub, map_app. simpl. apply NoDup_app. split; [exact Hnd|]. split.
    + intros x Hx Hx'. apply list_elem_of_singleton in Hx'. subst x.
      apply list_elem_of_fmap in Hx as (commands & Heq & Hc').
      specialize (Hids commands Hc'). lia.
    + apply NoDup_singleton.
  - intros commands Hc'. rewrite Hdone in Hc'. rewrite Hev.
    apply waited_for_app. apply (Hd commands Hc').
  - intros fence' commands H. rewrite Hev. rewrite Hin, Hw in H.
    destruct H as [H|H].
    + apply elem_of_app in H as [H|H].
      * apply elem_of_app. left. apply (Hfl fence' commands). left. exact H.
      * apply list_elem_of_singleton in H. injection H as -> ->.
        apply elem_of_app. right. apply elem_of_app. right. left.
    + apply elem_of_app. left. apply (Hfl fence' commands). right. exact H.
  - rewrite Hev. apply completions_ok_app_other; [exact Hnc|exact Hc].
Qed.

Lemma lists_inv_step a s s' :
  step c a s = Some s' -> lists_inv s -> lists_inv s'.
Proof.
  intros Hstep Hinv. apply step_spec in Hstep. unfold changes in Hstep.
  destruct a.
  - destruct Hstep as (fence & Hev & _ & Hin & Hdone & Hw & Hl).
    apply (lists_inv_submit s s' [] [] (new_list s name) fence); auto.
  - destruct Hstep as (Hev & _ & Hin & Hdone & Hw & Hl).
    destruct Hinv as [Horder Hids Hnd Hd Hfl Hc]. split.
    + rewrite Hev, submitted_app, completed_app, submitted_completions,
        completed_completions, Hin, Hdone, Hw, Horder.
      rewrite app_nil_r. simpl. rewrite <- !app_assoc. reflexivity.
    + intros commands Hc'.
      rewrite Hev, submitted_app, submitted_completions, app_nil_r in Hc'.
      rewrite Hl. apply (Hids commands Hc').
    + rewrite Hev, submitted_app, submitted_completions, app_nil_r. exact Hnd.
    + intros commands Hc'. rewrite Hdone in Hc'. inversion Hc'.
    + intros fence commands H. rewrite Hin, Hw in H. rewrite Hev.
      apply elem_of_app. left. apply (Hfl fence commands H).
    + rewrite Hev. apply completions_ok_app_done; [exact Hd|exact Hc].
  - destruct Hstep as (slot & desired & fence & _ & _ & _ & Hev & _ & Hin & Hdone & Hw & Hl).
    apply (lists_inv_submit s s'
             [FrameWaitReturned slot desired (GetCompletedValue s (FrameFence slot))] []
             (new_list s "Transition Swapchain to Render Target") fence); auto.
  - destruct Hstep as (fence & value & _ & Hev & _ & Hin & Hdone & Hw & Hl).
    apply (lists_inv_submit s s' []
             [FrameFenceSignal (GetCurrentBackBufferIndex s) value;
              Presented (GetCurrentBackBufferIndex s)]
             (new_list s "Transition Swapchain to Presentable") fence); auto.
  - destruct Hstep as (Hev & _ & Hin & Hdone & Hw & Hl).
    rewrite app_nil_r in Hev.
    destruct Hinv as [Horder Hids Hnd Hd Hfl Hc]. split.
    + rewrite Hev, Hin, Hdone, Hw. exact Horder.
    + rewrite Hev, Hl. exact Hids.
    + rewrite Hev. exact Hnd.
    + rewrite Hev, Hdone. exact Hd.
    + rewrite Hev, Hin, Hw. exact Hfl.
    + rewrite Hev. exact Hc.
  - destruct Hstep as (Hpoll & Hstep).
    destruct (in_flight_command_lists s) as [|[fence commands] rest] eqn:Hflight.
    + subst s'. exact Hinv.
    + destruct Hstep as (Hev & _ & Hin & Hdone & Hw & Hl).
      rewrite app_nil_r in Hev.
      destruct Hinv as [Horder Hids Hnd Hd Hfl Hc]. split.
      * rewrite Hev, Hin, Hdone, Hw, Horder, Hpoll, Hflight. reflexivity.
      * rewrite Hev, Hl. exact Hids.
      * rewrite Hev. exact Hnd.
      * rewrite Hev, Hdone. exact Hd.
      * intros fence' commands' H. rewrite Hev. rewrite Hin, Hw in H.
        apply (Hfl fence' commands'). left. rewrite Hflight.
        destruct H as [H|H]; [right; exact H|].
        injection H as -> ->. left.
      * rewrite Hev. exact Hc.
  - destruct Hstep as (fence & cmds & Hwait & Hev & _ & Hin & Hdone & Hw & Hl).
    destruct Hinv as [Horder Hids Hnd Hd Hfl Hc]. split.
    + rewrite Hev, submitted_app, completed_app, Hin, Hdone, Hw, Horder, Hwait. simpl.
      rewrite !app_nil_r, <- !app_assoc. reflexivity.
    + intros commands Hc'. rewrite Hev, submitted_app in Hc'. simpl in Hc'.
      rewrite app_nil_r in Hc'. rewrite Hl. apply (Hids commands Hc').
    + rewrite Hev, submitted_app. simpl. rewrite app_nil_r. exact Hnd.
    + intros commands Hc'. rewrite Hdone in Hc'. rewrite Hev.
      apply elem_of_app in Hc' as [Hc'|Hc'].
      * apply waited_for_app. apply (Hd commands Hc').
      * apply list_elem_of_singleton in Hc'. subst commands.
        exists fence, (c <=? GetCompletedValue s fence). split.
        -- apply elem_of_app. right. left.
        -- apply elem_of_app. left. apply (Hfl fence cmds). right. exact Hwait.
    + intros fence' commands' H. rewrite Hin, Hw in H. rewrite Hev.
      apply elem_of_app. left. apply (Hfl fence' commands').
      destruct H as [H|H]; [left; exact H|discriminate H].
    + rewrite Hev. apply completions_ok_app_other; [reflexivity|exact Hc].
Qed.

End WithConstants.
End RenderDeviceSyncFacts.

Module FencePoolTheorems.
Import RenderDevice RenderDeviceSync RenderDeviceSyncFacts.

(** The branch of [get_next_command_list_done_fence] for a pool that holds a
    fence, on a pool made by hand: it reads the position [end()], one past the
    fence, so the read is outside the pool and no fence of the pool is
    returned.  No run of the device gets there, because nothing puts a fence
    into the pool. *)
Lemma recycled_fence_read_is_out_of_bounds :
  let pool := [CommandListFence 7] in
  vector_end pool = 1%nat /\
  dereference pool (vector_end pool) = None /\
  get_next_command_list_done_fence (S_OK, Some (CommandListFence 8)) pool
    = UndefinedBehaviour /\
  submit_command_list 16 {| list_id := 0; debug_name := "Main Render Command List" |}
    (with_main [0; 0] pool Running 1 8 (initial 2)) = None.
Proof. cbv zeta. repeat split. Qed.

End FencePoolTheorems.

Module RenderDeviceSyncTheorems.
Import RenderDevice RenderDeviceSync RenderDeviceSyncFacts.

(** C2. In every run of the device, a [begin_frame] on slot [slot] gets past
    [wait_for_frame] only with the slot's fence at the desired value or
    beyond, and that value covers every value that an earlier [end_frame]
    asked the queue to signal on the slot's fence, the one of the slot's
    previous use among them.  While the fence is below the desired value the
    render thread stays in the wait: the rest of [begin_frame], which records
    and submits the swapchain transition, cannot run, and neither can any
    other call of the thread. *)
Theorem begin_frame_waits_for_slot (c : Z) (n : nat) (actions : list Action) (s : State) :
  run c actions (initial n) = Some s ->
  (forall pre post slot desired observed,
     events s = pre ++ FrameWaitReturned slot desired observed :: post ->
     desired <= observed /\
     forall v, FrameFenceSignal slot v ∈ pre -> v <= observed)
  /\
  (forall slot desired,
     main_thread s = InWaitForFrame slot ->
     frame_fence_values s !! slot = Some desired ->
     (forall v, FrameFenceSignal slot v ∈ events s -> v <= desired) /\
     (GetCompletedValue s (FrameFence slot) < desired ->
      step c FrameSlotFree s = None /\
      forall a, of_render_thread a = true -> step c a s = None)).
Proof.
  intros Hrun.
  assert (Hinv : frame_inv s).
  { apply (run_invariant c frame_inv (frame_inv_step c) actions (initial n) s Hrun).
    apply frame_inv_initial. }
  destruct Hinv as [Hsig Hwait]. split.
  - intros pre post slot desired observed Heq.
    destruct (Hwait pre post slot desired observed Heq) as [Hle Hcover].
    split; [exact Hle|]. intros v Hv. specialize (Hcover v Hv). lia.
  - intros slot desired Hmain Hvalue. split.
    + intros v Hv. destruct (Hsig slot v Hv) as (d & Hd & Hle).
      rewrite Hvalue in Hd. injection Hd as <-. exact Hle.
    + intros Hlt. split.
      * apply (wait_for_frame_blocks c s slot desired Hmain Hvalue Hlt).
      * intros a Ha. apply (waiting_thread_is_blocked c a s slot Hmain Ha).
Qed.

(** Two frames on a swapchain of two images, the GPU catching up, and the
    [begin_frame] that reuses slot 0. *)
Definition reuse_of_slot_0 : list Action :=
  [BeginFrame; FrameSlotFree; EndFrame;
   BeginFrame; FrameSlotFree; EndFrame;
   GpuExecutes; GpuExecutes; GpuExecutes; GpuExecutes; GpuExecutes;
   BeginFrame; FrameSlotFree].

Definition transition_to_render_target (n : nat) : CommandList :=
  {| list_id := n; debug_name := "Transition Swapchain to Render Target" |}.

Definition transition_to_presentable (n : nat) : CommandList :=
  {| list_id := n; debug_name := "Transition Swapchain to Presentable" |}.

Definition events_before_reuse : list Event :=
  [FrameWaitReturned 0 0 0;
   Submitted (transition_to_render_target 0) (CommandListFence 0);
   Submitted (transition_to_presentable 1) (CommandListFence 1);
   FrameFenceSignal 0 1; Presented 0;
   FrameWaitReturned 1 0 0;
   Submitted (transition_to_render_target 2) (CommandListFence 2);
   Submitted (transition_to_presentable 3) (CommandListFence 3);
   FrameFenceSignal 1 1; Presented 1].

Lemma begin_frame_waits_for_slot_witness :
  exists s,
    run 16 reuse_of_slot_0 (initial 2) = Some s /\
    events s = events_before_reuse ++
               FrameWaitReturned 0 1 1 ::
               [Submitted (transition_to_render_target 4) (CommandListFence 4)] /\
    forall v, FrameFenceSignal 0 v ∈ events_before_reuse -> v <= 1.
Proof.
  destruct (run 16 reuse_of_slot_0 (initial 2)) as [s|] eqn:Hrun;
    [|vm_compute in Hrun; discriminate Hrun].
  exists s. split; [reflexivity|].
  assert (Hev : events s = events_before_reuse ++
                FrameWaitReturned 0 1 1 ::
                [Submitted (transition_to_render_target 4) (CommandListFence 4)]).
  { vm_compute in Hrun. injection Hrun as <-. reflexivity. }
  split; [exact Hev|].
  apply (proj1 (begin_frame_waits_for_slot 16 2 reuse_of_slot_0 s Hrun)
           events_before_reuse _ 0%nat 1 1 Hev).
Defined.

(** C1, as the code has it.  In every run of the device the completion
    functions of command lists run in the order of submission, without gaps:
    the lists whose functions have run are the first of the lists submitted.
    No list is submitted twice, so the functions of a list run at most once.
    They run only after the completion thread's wait on the fence signaled at
    the list's submission has returned. *)
Theorem completion_functions_in_submission_order (c : Z) (n : nat)
    (actions : list Action) (s : State) :
  run c actions (initial n) = Some s ->
  completed (events s) `prefix_of` submitted (events s)
  /\ NoDup (map list_id (submitted (events s)))
  /\ NoDup (map list_id (completed (events s)))
  /\ forall pre post commands,
       events s = pre ++ CompletionFunctionsExecuted commands :: post ->
       exists fence signaled,
         WorkerWaitReturned commands fence signaled ∈ pre /\
         Submitted commands fence ∈ pre.
Proof.
  intros Hrun.
  assert (Hinv : lists_inv s).
  { apply (run_invariant c lists_inv (lists_inv_step c) actions (initial n) s Hrun).
    apply lists_inv_initial. }
  destruct Hinv as [Horder Hids Hnd Hd Hfl Hc].
  split; [|split; [exact Hnd|split]].
  - rewrite Horder. eexists. reflexivity.
  - rewrite Horder, map_app in Hnd. apply NoDup_app in Hnd as [Hnd _]. exact Hnd.
  - intros pre post commands Heq. apply (Hc pre post commands Heq).
Qed.

Definition main_list : CommandList :=
  {| list_id := 0; debug_name := "Main Render Command List" |}.

(** A list is submitted, the GPU executes it and signals its fence, the
    completion thread collects it, and the next [begin_frame] runs its
    completion functions. *)
Definition submit_and_collect : list Action :=
  [Render "Main Render Command List"; GpuExecutes; GpuExecutes;
   WorkerPops; WorkerWaitReturns; BeginFrame].

Lemma completion_functions_in_submission_order_witness :
  exists s,
    run 16 submit_and_collect (initial 2) = Some s /\
    events s = [Submitted main_list (CommandListFence 0);
                WorkerWaitReturned main_list (CommandListFence 0) true] ++
               CompletionFunctionsExecuted main_list :: [] /\
    completed (events s) `prefix_of` submitted (events s).
Proof.
  destruct (run 16 submit_and_collect (initial 2)) as [s|] eqn:Hrun;
    [|vm_compute in Hrun; discriminate Hrun].
  exists s. split; [reflexivity|]. split.
  - vm_compute in Hrun. injection Hrun as <-. reflexivity.
  - apply (completion_functions_in_submission_order 16 2 submit_and_collect s Hrun).
Defined.

(** C1 as stated fails in two ways.  A list is submitted and [begin_frame]
    runs once, to its end, and the list's completion functions have not run,
    because the completion thread still waits for the list's fence.  And the
    wait of
    the completion thread returns after its two seconds with the fence not
    signaled, and the next [begin_frame] runs the completion functions all
    the same. *)
Lemma completion_functions_not_as_claimed :
  (exists s,
     run 16 [Render "Main Render Command List"; WorkerPops; BeginFrame; FrameSlotFree]
         (initial 2) = Some s /\
     submitted (events s) = [main_list; transition_to_render_target 1] /\
     completed (events s) = [])
  /\
  (exists s,
     run 16 [Render "Main Render Command List"; WorkerPops; WorkerWaitReturns; BeginFrame]
         (initial 2) = Some s /\
     events s = [Submitted main_list (CommandListFence 0);
                 WorkerWaitReturned main_list (CommandListFence 0) false;
                 CompletionFunctionsExecuted main_list] /\
     GetCompletedValue s (CommandListFence 0) < 16).
Proof.
  split.
  - destruct (run 16 _ (initial 2)) as [s|] eqn:Hrun;
      [|vm_compute in Hrun; discriminate Hrun].
    exists s. split; [reflexivity|].
    vm_compute in Hrun. injection Hrun as <-. split; reflexivity.
  - destruct (run 16 _ (initial 2)) as [s|] eqn:Hrun;
      [|vm_compute in Hrun; discriminate Hrun].
    exists s. split; [reflexivity|].
    vm_compute in Hrun. injection Hrun as <-. split; [reflexivity|]. reflexivity.
Qed.

End RenderDeviceSyncTheorems.


(** * More properties *)

(** ** Material data buffer: a sequence of allocations *)

Module MaterialAllocationsFacts.
Import MaterialDataBuffer MaterialAllocations.

Lemma get_next_free_material_step (S : Z) (b : t) :
  0 < S -> is_uint32 (num_allocated_bytes b) ->
  num_allocated_bytes b + 2 * S < UINT32_MODULUS ->
  let r := get_next_free_material S b in
  num_allocated_bytes b < byte_offset S r.1 /\
  byte_end S r.1 = num_allocated_bytes r.2 /\
  num_allocated_bytes r.2 <= num_allocated_bytes b + 2 * S /\
  num_allocated_bytes b < num_allocated_bytes r.2 /\
  is_uint32 (num_allocated_bytes r.2).
Proof.
  intros HS Hn Hroom. cbv zeta. unfold get_next_free_material, byte_offset, byte_end.
  cbn [fst snd index num_allocated_bytes].
  unfold is_uint32 in *. set (n := num_allocated_bytes b) in *.
  assert (Hq : 0 <= n / S) by (apply Z.div_pos; lia).
  assert (Hqn : S * (n / S) <= n) by (apply Z.mul_div_le; lia).
  assert (Hqn' : n < S * (n / S + 1)).
  { pose proof (Z.mul_succ_div_gt n S HS). lia. }
  assert (Hqle : n / S <= n).
  { apply Z.div_le_upper_bound; nia. }
  rewrite (wrap32_small (n / S + 1)) by (unfold is_uint32; lia).
  rewrite (wrap32_small (n / S + 1 + 1)) by (unfold is_uint32; lia).
  rewrite (wrap32_small (S * (n / S + 1 + 1))) by (unfold is_uint32; nia).
  repeat split; nia.
Qed.

Lemma allocate_cons S sizes b :
  allocate (S :: sizes) b =
  let r := get_next_free_material S b in
  let r' := allocate sizes r.2 in
  ((S, r.1) :: r'.1, r'.2).
Proof.
  cbn [allocate]. destruct (get_next_free_material S b) as [h b1].
  cbn [fst snd]. destruct (allocate sizes b1) as [hs b2]. reflexivity.
Qed.

Lemma room_for_nonneg sizes : Forall (fun S => 0 < S) sizes -> 0 <= room_for sizes.
Proof.
  induction 1 as [|S sizes HS _ IH]; unfold room_for in *; simpl; lia.
Qed.

#[local] Arguments get_next_free_material : simpl never.

Lemma allocate_lower_bound sizes b S h :
  Forall (fun S => 0 < S) sizes ->
  is_uint32 (num_allocated_bytes b) ->
  num_allocated_bytes b + room_for sizes < UINT32_MODULUS ->
  (S, h) ∈ (allocate sizes b).1 ->
  num_allocated_bytes b < byte_offset S h.
Proof.
  intros Hpos. revert b. induction Hpos as [|S0 sizes HS0 Hpos IH]; intros b Hn Hroom Hin.
  - inversion Hin.
  - rewrite allocate_cons in Hin. cbv zeta in Hin. cbn [fst snd] in Hin.
    unfold room_for in Hroom. cbn [foldr] in Hroom. fold (room_for sizes) in Hroom.
    pose proof (room_for_nonneg sizes Hpos) as Hnn.
    destruct (get_next_free_material_step S0 b HS0 Hn ltac:(lia)) as (Hlt & Hend & Hle & Hgrow & Hu).
    apply elem_of_cons in Hin as [Heq|Hin].
    + injection Heq as -> ->. exact Hlt.
    + apply IH in Hin; [lia|exact Hu|lia].
Qed.

Lemma allocate_ordered sizes b i j Si hi Sj hj :
  Forall (fun S => 0 < S) sizes ->
  is_uint32 (num_allocated_bytes b) ->
  num_allocated_bytes b + room_for sizes < UINT32_MODULUS ->
  (i < j)%nat ->
  (allocate sizes b).1 !! i = Some (Si, hi) ->
  (allocate sizes b).1 !! j = Some (Sj, hj) ->
  num_allocated_bytes b < byte_offset Si hi /\
  byte_offset Si hi < byte_end Si hi /\
  byte_end Si hi < byte_offset Sj hj.
Proof.
  intros Hpos. revert b i j Si hi Sj hj.
  induction Hpos as [|S0 sizes HS0 Hpos IH]; intros b i j Si hi Sj hj Hn Hroom Hij Hi Hj.
  - cbn in Hi. rewrite lookup_nil in Hi. discriminate Hi.
  - rewrite allocate_cons in Hi, Hj. cbv zeta in Hi, Hj. cbn [fst snd] in Hi, Hj.
    unfold room_for in Hroom. cbn [foldr] in Hroom. fold (room_for sizes) in Hroom.
    pose proof (room_for_nonneg sizes Hpos) as Hnn.
    destruct (get_next_free_material_step S0 b HS0 Hn ltac:(lia)) as (Hlt & Hend & Hle & Hgrow & Hu).
    destruct j as [|j]; [lia|]. cbn [lookup list_lookup] in Hj.
    destruct i as [|i].
    + assert (HS : S0 = Si) by (cbn [lookup list_lookup] in Hi; congruence).
      assert (Hh : (get_next_free_material S0 b).1 = hi)
        by (cbn [lookup list_lookup] in Hi; congruence).
      subst Si. rewrite <- Hh.
      apply list_elem_of_lookup_2 in Hj.
      apply allocate_lower_bound in Hj; [|exact Hpos|exact Hu|lia].
      split; [exact Hlt|]. split; [|lia].
      unfold byte_offset, byte_end. nia.
    + cbn [lookup list_lookup] in Hi.
      destruct (IH (get_next_free_material S0 b).2 i j Si hi Sj hj Hu ltac:(lia) ltac:(lia) Hi Hj)
        as (H1 & H2 & H3).
      split; [lia|]. split; assumption.
Qed.

End MaterialAllocationsFacts.

Module MaterialAllocationsTheorems.
Import MaterialDataBuffer MaterialAllocations MaterialAllocationsFacts.

(** X1. Allocations of struct types of any sizes, made one after the other
    while the 32-bit cursor does not wrap, never share a byte: each handle's
    element starts after every byte allocated before the call, so it lies
    after the elements of all earlier handles, whatever their sizes. *)
Theorem mixed_size_allocations_are_disjoint (sizes : list Z) (b : t)
    (i j : nat) (Si Sj : Z) (hi hj : MaterialHandle) :
  Forall (fun S => 0 < S) sizes ->
  is_uint32 (num_allocated_bytes b) ->
  num_allocated_bytes b + room_for sizes < UINT32_MODULUS ->
  (i < j)%nat ->
  (allocate sizes b).1 !! i = Some (Si, hi) ->
  (allocate sizes b).1 !! j = Some (Sj, hj) ->
  num_allocated_bytes b < byte_offset Si hi /\
  byte_end Si hi < byte_offset Sj hj /\
  ranges_disjoint (byte_offset Si hi) (byte_end Si hi)
                  (byte_offset Sj hj) (byte_end Sj hj).
Proof.
  intros Hpos Hn Hroom Hij Hi Hj.
  destruct (allocate_ordered sizes b i j Si hi Sj hj Hpos Hn Hroom Hij Hi Hj)
    as (H1 & H2 & H3).
  split; [exact H1|]. split; [exact H3|]. intros x. lia.
Qed.

Lemma mixed_size_allocations_are_disjoint_witness :
  let b := {| buffer_size := 4096; num_allocated_bytes := 0 |} in
  (allocate [4; 12; 64] b).1 =
    [(4, {| index := 1 |}); (12, {| index := 1 |}); (64, {| index := 1 |})] /\
  ranges_disjoint 4 8 12 24 /\ ranges_disjoint 12 24 64 128.
Proof.
  cbv zeta. split; [reflexivity|].
  assert (Hpos : Forall (fun S => 0 < S) [4; 12; 64]) by (repeat constructor).
  split.
  - apply (mixed_size_allocations_are_disjoint [4; 12; 64]
             {| buffer_size := 4096; num_allocated_bytes := 0 |} 0 1 4 12
             {| index := 1 |} {| index := 1 |} Hpos);
      [vm_compute; split; [discriminate|reflexivity]|reflexivity|lia|reflexivity|reflexivity].
  - apply (mixed_size_allocations_are_disjoint [4; 12; 64]
             {| buffer_size := 4096; num_allocated_bytes := 0 |} 1 2 12 64
             {| index := 1 |} {| index := 1 |} Hpos);
      [vm_compute; split; [discriminate|reflexivity]|reflexivity|lia|reflexivity|reflexivity].
Defined.

End MaterialAllocationsTheorems.

(** ** Mesh data store: what a session records *)

Module MeshUploadsFacts.
Import MeshDataStore MeshDataStoreFacts MeshUploads.

Section WithVertex.
Context {V : Type}.
Variable sz : Z.

Lemma total_vertices_app (c1 c2 : list (list V * list Z)) :
  total_vertices (c1 ++ c2) = total_vertices c1 + total_vertices c2.
Proof.
  induction c1 as [|c c1 IH]; unfold total_vertices in *; simpl; [reflexivity|].
  rewrite IH. lia.
Qed.

Lemma total_indices_app (c1 c2 : list (list V * list Z)) :
  total_indices (c1 ++ c2) = total_indices c1 + total_indices c2.
Proof.
  induction c1 as [|c c1 IH]; unfold total_indices in *; simpl; [reflexivity|].
  rewrite IH. lia.
Qed.

Lemma total_vertices_single (vertices : list V) (indices : list Z) :
  total_vertices [(vertices, indices)] = Z.of_nat (length vertices).
Proof. unfold total_vertices. simpl. lia. Qed.

Lemma total_indices_single (vertices : list V) (indices : list Z) :
  total_indices [(vertices, indices)] = Z.of_nat (length indices).
Proof. unfold total_indices. simpl. lia. Qed.

(** The cursors after one call that fits. *)
Lemma add_mesh_cursors vertices indices rest (commands : list (Command V)) s :
  0 < sz ->
  fits sz ((vertices, indices) :: rest) s ->
  let r := add_mesh sz vertices indices commands s in
  next_free_vertex_byte r.1.2 =
    next_free_vertex_byte s + Z.of_nat (length vertices) * sz /\
  next_index_offset r.1.2 = next_index_offset s + Z.of_nat (length indices) /\
  r.2 = commands ++
        [UploadVertices vertices (Z.of_nat (length vertices) * sz) (next_free_vertex_byte s);
         UploadIndices (map (fun idx => wrap32 (idx + next_vertex_offset s)) indices)
                       (wrap32 (Z.of_nat (length indices) * sizeof_Uint32))
                       (wrap32 (next_index_offset s * sizeof_Uint32))].
Proof.
  intros Hsz (Hv & Hi & Hvt & Hit). cbv zeta.
  unfold total_vertices, total_indices in Hvt, Hit. simpl in Hvt, Hit.
  fold (total_vertices rest) in Hvt. fold (total_indices rest) in Hit.
  pose proof (total_vertices_nonneg rest) as Htv.
  pose proof (total_indices_nonneg rest) as Hti.
  set (n := Z.of_nat (length vertices)) in *.
  set (k := Z.of_nat (length indices)) in *.
  assert (Hn : 0 <= n) by (subst n; lia).
  assert (Hk : 0 <= k) by (subst k; lia).
  unfold is_uint32 in Hv, Hi.
  unfold add_mesh. cbn [fst snd next_free_vertex_byte next_index_offset]. fold n. fold k.
  rewrite (wrap32_small (n * sz)) by (unfold is_uint32; nia).
  rewrite (wrap32_small k) by (unfold is_uint32; nia).
  rewrite (wrap32_small (next_free_vertex_byte s + n * sz)) by (unfold is_uint32; nia).
  rewrite (wrap32_small (next_index_offset s + k)) by (unfold is_uint32; nia).
  rewrite <- app_assoc. repeat split.
Qed.

Lemma fits_app_l (c1 c2 : list (list V * list Z)) s :
  fits sz (c1 ++ c2) s -> 0 < sz -> fits sz c1 s.
Proof.
  intros (Hv & Hi & Hvt & Hit) Hsz.
  rewrite total_vertices_app in Hvt. rewrite total_indices_app in Hit.
  pose proof (total_vertices_nonneg c2). pose proof (total_indices_nonneg c2).
  repeat split; try apply Hv; try apply Hi; nia.
Qed.

#[local] Arguments add_mesh : simpl never.

(** The cursors after a run that fits. *)
Lemma add_meshes_cursors calls rest (commands : list (Command V)) s :
  0 < sz ->
  fits sz (calls ++ rest) s ->
  let r := add_meshes sz calls commands s in
  next_free_vertex_byte r.1.2 = next_free_vertex_byte s + total_vertices calls * sz /\
  next_index_offset r.1.2 = next_index_offset s + total_indices calls /\
  fits sz rest r.1.2.
Proof.
  intros Hsz. revert commands s.
  induction calls as [|[vertices indices] calls IH]; intros commands s Hfit; cbv zeta.
  - unfold total_vertices, total_indices. simpl.
    repeat split; try lia; apply Hfit.
  - rewrite add_meshes_cons. cbv zeta. cbn [fst snd].
    change (((vertices, indices) :: calls) ++ rest)
      with ((vertices, indices) :: (calls ++ rest)) in Hfit.
    destruct (add_mesh_fits sz vertices indices (calls ++ rest) commands s Hsz Hfit)
      as (Hfit' & _).
    destruct (add_mesh_cursors vertices indices (calls ++ rest) commands s Hsz Hfit)
      as (Hv & Hi & _).
    destruct (IH (add_mesh sz vertices indices commands s).2
                 (add_mesh sz vertices indices commands s).1.2 Hfit') as (Hv' & Hi' & Hf').
    rewrite Hv', Hi', Hv, Hi.
    change ((vertices, indices) :: calls) with ([(vertices, indices)] ++ calls).
    rewrite total_vertices_app, total_indices_app,
      total_vertices_single, total_indices_single.
    repeat split; try lia; apply Hf'.
Qed.

(** From a new store the vertex cursor counts the vertices added. *)
Lemma add_meshes_vertex_offset calls rest (commands : list (Command V)) :
  0 < sz ->
  fits sz (calls ++ rest) new_store ->
  next_vertex_offset (add_meshes sz calls commands new_store).1.2 = total_vertices calls.
Proof.
  intros Hsz Hfit. rewrite add_meshes_from_new_store.
  apply wrap32_small. destruct Hfit as (_ & _ & Hvt & _).
  rewrite total_vertices_app in Hvt. simpl in Hvt.
  pose proof (total_vertices_nonneg calls). pose proof (total_vertices_nonneg rest).
  unfold is_uint32. nia.
Qed.

(** Adjacent meshes of a run that fits. *)
Lemma add_meshes_adjacent calls (commands : list (Command V)) s i mi mj :
  0 < sz -> fits sz calls s ->
  (add_meshes sz calls commands s).1.1 !! i = Some mi ->
  (add_meshes sz calls commands s).1.1 !! S i = Some mj ->
  first_vertex mj = first_vertex mi + num_vertices mi /\
  first_index mj = first_index mi + num_indices mi.
Proof.
  intros Hsz. revert commands s i.
  induction calls as [|[vertices indices] calls IH]; intros commands s i Hfit Hi Hj.
  - cbn in Hi. rewrite lookup_nil in Hi. discriminate Hi.
  - rewrite add_meshes_cons in Hi, Hj. cbv zeta in Hi, Hj. cbn [fst snd] in Hi, Hj.
    destruct (add_mesh_fits sz vertices indices calls commands s Hsz Hfit)
      as (Hfit' & Hfv & Hnv & Hfi & Hni & Hnext & Hnexti).
    cbn [lookup list_lookup] in Hj.
    destruct i as [|i].
    + assert (Hmi : (add_mesh sz vertices indices commands s).1.1 = mi)
        by (cbn [lookup list_lookup] in Hi; congruence).
      subst mi. clear Hi.
      destruct calls as [|[vertices' indices'] calls'].
      { cbn in Hj. discriminate Hj. }
      rewrite add_meshes_cons in Hj. cbv zeta in Hj. cbn [fst snd] in Hj.
      assert (Hmj : (add_mesh sz vertices' indices'
                       (add_mesh sz vertices indices commands s).2
                       (add_mesh sz vertices indices commands s).1.2).1.1 = mj)
        by (cbn [lookup list_lookup] in Hj; congruence).
      subst mj.
      destruct (add_mesh_fits sz vertices' indices' calls'
                  (add_mesh sz vertices indices commands s).2
                  (add_mesh sz vertices indices commands s).1.2 Hsz Hfit')
        as (_ & Hfv' & _ & Hfi' & _).
      lia.
    + cbn [lookup list_lookup] in Hi. apply (IH _ _ i Hfit' Hi Hj).
Qed.

(** A session records the barrier to the copy state, two uploads for every
    call, and the barrier back. *)
Lemma add_meshes_commands calls (commands : list (Command V)) s :
  exists uploads,
    (add_meshes sz calls commands s).2 = commands ++ uploads /\
    forallb is_upload uploads = true /\
    length uploads = (2 * length calls)%nat /\
    (add_meshes sz calls commands s).1 = (add_meshes sz calls [] s).1.
Proof.
  revert commands s. induction calls as [|[vertices indices] calls IH]; intros commands s.
  - exists []. simpl. rewrite app_nil_r. auto.
  - rewrite !add_meshes_cons. cbv zeta. cbn [fst snd].
    destruct (IH (add_mesh sz vertices indices commands s).2
                 (add_mesh sz vertices indices commands s).1.2) as (u1 & Hc1 & Hu1 & Hl1 & Hs1).
    destruct (IH (add_mesh sz vertices indices [] s).2
                 (add_mesh sz vertices indices [] s).1.2) as (u2 & Hc2 & Hu2 & Hl2 & Hs2).
    assert (Hstate : (add_mesh sz vertices indices commands s).1 =
                     (add_mesh sz vertices indices [] s).1) by reflexivity.
    exists ([UploadVertices vertices (wrap32 (Z.of_nat (length vertices) * sz))
               (next_free_vertex_byte s);
             UploadIndices (map (fun idx => wrap32 (idx + next_vertex_offset s)) indices)
               (wrap32 (Z.of_nat (length indices) * sizeof_Uint32))
               (wrap32 (next_index_offset s * sizeof_Uint32))] ++ u1).
    split; [|split; [|split]].
    + rewrite Hc1. unfold add_mesh. cbn [snd]. rewrite <- !app_assoc. reflexivity.
    + simpl. exact Hu1.
    + simpl. rewrite Hl1. lia.
    + rewrite Hs1, Hs2. rewrite Hstate. reflexivity.
Qed.

End WithVertex.
End MeshUploadsFacts.

Module MeshUploadsTheorems.
Import MeshDataStore MeshDataStoreFacts MeshUploads MeshUploadsFacts.

(** X2. On a store that started empty, the [Mesh] that [add_mesh] returns
    says where the call put the data: the vertices are uploaded at byte
    [first_vertex * sizeof(StandardVertex)], the indices at byte
    [first_index * 4], with [num_vertices] and [num_indices] elements, and
    every stored index is [first_vertex] plus the caller's index, so it
    refers to a vertex of this mesh.  This needs the data to fit below the
    32-bit limits, the indices' byte offset included, and the caller's indices
    to refer to the mesh's own vertices. *)
Theorem mesh_descriptor_matches_uploads {V : Type} (sz : Z)
    (calls : list (list V * list Z)) (vertices : list V) (indices : list Z) :
  0 < sz ->
  fits sz (calls ++ [(vertices, indices)]) new_store ->
  total_indices (calls ++ [(vertices, indices)]) * sizeof_Uint32 < UINT32_MODULUS ->
  refers_to_own_vertices vertices indices ->
  let before := add_meshes sz calls [] new_store in
  let after := add_mesh sz vertices indices before.2 before.1.2 in
  let mesh := after.1.1 in
  after.2 = before.2 ++
    [UploadVertices vertices (num_vertices mesh * sz) (first_vertex mesh * sz);
     UploadIndices (map (fun idx => first_vertex mesh + idx) indices)
                   (num_indices mesh * sizeof_Uint32)
                   (first_index mesh * sizeof_Uint32)]
  /\ num_vertices mesh = Z.of_nat (length vertices)
  /\ num_indices mesh = Z.of_nat (length indices)
  /\ forall stored, stored ∈ map (fun idx => first_vertex mesh + idx) indices ->
       first_vertex mesh <= stored < first_vertex mesh + num_vertices mesh.
Proof.
  intros Hsz Hfit Hbytes Hown. cbv zeta.
  destruct (add_meshes_cursors sz calls [(vertices, indices)] [] new_store Hsz Hfit)
    as (Hv & Hi & Hfit').
  pose proof (add_meshes_vertex_offset sz calls [(vertices, indices)] [] Hsz Hfit) as Hvo.
  cbn [next_free_vertex_byte next_index_offset new_store] in Hv, Hi.
  rewrite Z.add_0_l in Hv, Hi.
  set (s := (add_meshes sz calls [] new_store).1.2) in *.
  set (commands := (add_meshes sz calls [] new_store).2).
  destruct (add_mesh_fits sz vertices indices [] commands s Hsz Hfit')
    as (_ & Hfv & Hnv & Hfi & Hni & _).
  destruct (add_mesh_cursors sz vertices indices [] commands s Hsz Hfit')
    as (_ & _ & Hcmds).
  rewrite Hv, Z.div_mul in Hfv by lia.
  rewrite total_indices_app, total_indices_single in Hbytes.
  pose proof (total_indices_nonneg calls) as Hti.
  pose proof (total_vertices_nonneg calls) as Htv.
  assert (Hroom : total_vertices calls + Z.of_nat (length vertices) < UINT32_MODULUS).
  { destruct Hfit as (_ & _ & Hvt & _).
    rewrite total_vertices_app, total_vertices_single in Hvt. simpl in Hvt. nia. }
  unfold sizeof_Uint32 in *.
  split; [|split; [exact Hnv|split; [exact Hni|]]].
  - rewrite Hcmds, Hfv, Hnv, Hni, Hfi, Hv, Hi, Hvo. do 3 f_equal.
    f_equal.
    + apply map_ext_in. intros idx Hin. apply list_elem_of_In in Hin.
      specialize (Hown idx Hin). rewrite wrap32_small; [lia|]. unfold is_uint32. lia.
    + apply wrap32_small. unfold is_uint32. lia.
    + apply wrap32_small. unfold is_uint32. lia.
  - intros stored Hin. apply list_elem_of_fmap in Hin as (idx & -> & Hin).
    specialize (Hown idx Hin). rewrite Hnv. lia.
Qed.

Definition quad : list nat * list Z := ([0; 1; 2; 3]%nat, [0; 1; 2; 2; 3; 0]).
Definition triangle : list nat * list Z := ([4; 5; 6]%nat, [0; 1; 2]).

Lemma mesh_descriptor_matches_uploads_witness :
  let before := add_meshes 36 [quad] [] new_store in
  let after := add_mesh 36 triangle.1 triangle.2 before.2 before.1.2 in
  after.1.1 = {| first_vertex := 4; num_vertices := 3; first_index := 6; num_indices := 3 |} /\
  after.2 = before.2 ++ [UploadVertices triangle.1 (3 * 36) (4 * 36);
                         UploadIndices [4; 5; 6] (3 * 4) (6 * 4)].
Proof.
  cbv zeta. split; [reflexivity|].
  refine (proj1 (mesh_descriptor_matches_uploads 36 [quad] triangle.1 triangle.2 _ _ _ _)).
  - lia.
  - vm_compute. repeat split; discriminate.
  - vm_compute. reflexivity.
  - intros idx Hin. simpl in Hin.
    repeat (apply elem_of_cons in Hin as [->|Hin]; [simpl; lia|]). inversion Hin.
Defined.

(** X3. The store packs meshes without gaps: in a session whose data fits,
    each mesh starts, in vertices and in indices, exactly where the mesh of
    the call before it ends. *)
Theorem meshes_are_contiguous {V : Type} (sz : Z)
    (calls : list (list V * list Z)) (commands : list (Command V)) (s : t)
    (i : nat) (mi mj : Mesh) :
  0 < sz ->
  fits sz calls s ->
  (upload_session sz calls commands s).1.1 !! i = Some mi ->
  (upload_session sz calls commands s).1.1 !! S i = Some mj ->
  first_vertex mj = first_vertex mi + num_vertices mi /\
  first_index mj = first_index mi + num_indices mi.
Proof.
  intros Hsz Hfit Hi Hj.
  assert (Hmeshes : (upload_session sz calls commands s).1.1 =
                    (add_meshes sz calls (begin_adding_meshes commands) s).1.1).
  { unfold upload_session.
    destruct (add_meshes sz calls (begin_adding_meshes commands) s) as [[ms s'] c'].
    reflexivity. }
  rewrite Hmeshes in Hi, Hj.
  apply (add_meshes_adjacent sz calls _ s i mi mj Hsz Hfit Hi Hj).
Qed.

Lemma meshes_are_contiguous_witness :
  (upload_session 36 [quad; triangle] [] new_store).1.1 =
    [{| first_vertex := 0; num_vertices := 4; first_index := 0; num_indices := 6 |};
     {| first_vertex := 4; num_vertices := 3; first_index := 6; num_indices := 3 |}]
  /\ 4 = 0 + 4 /\ 6 = 0 + 6.
Proof.
  split; [reflexivity|].
  apply (meshes_are_contiguous 36 [quad; triangle] [] new_store 0
           {| first_vertex := 0; num_vertices := 4; first_index := 0; num_indices := 6 |}
           {| first_vertex := 4; num_vertices := 3; first_index := 6; num_indices := 3 |}).
  - lia.
  - vm_compute. repeat split; discriminate.
  - reflexivity.
  - reflexivity.
Defined.

(** X4. A session adds to the command list it is given, and leaves what was
    recorded before in place: the barrier that takes both buffers to the copy
    state, then nothing but uploads, two for every [add_mesh] call, then the
    barrier that takes the buffers back.  The meshes and the cursors do not
    depend on the command list. *)
Theorem session_records_uploads_between_barriers {V : Type} (sz : Z)
    (calls : list (list V * list Z)) (commands : list (Command V)) (s : t) :
  exists uploads,
    (upload_session sz calls commands s).2 =
      end_adding_meshes (begin_adding_meshes commands ++ uploads) /\
    forallb is_upload uploads = true /\
    length uploads = (2 * length calls)%nat /\
    (upload_session sz calls commands s).1 = (upload_session sz calls [] s).1.
Proof.
  destruct (add_meshes_commands sz calls (begin_adding_meshes commands) s)
    as (uploads & Hc & Hu & Hl & Hs).
  destruct (add_meshes_commands sz calls (begin_adding_meshes []) s)
    as (uploads' & _ & _ & _ & Hs').
  exists uploads. unfold upload_session.
  destruct (add_meshes sz calls (begin_adding_meshes commands) s) as [[ms s1] c1].
  destruct (add_meshes sz calls (begin_adding_meshes []) s) as [[ms' s1'] c1'].
  cbn [fst snd] in *. subst c1.
  split; [reflexivity|]. split; [exact Hu|]. split; [exact Hl|].
  rewrite Hs, <- Hs'. reflexivity.
Qed.

End MeshUploadsTheorems.

(** ** Render device: the pool of staging buffers *)

Module StagingPoolFacts.
Import RenderDevice RenderDeviceResourceFacts.

(** After the indices below [k], a best fit at [best] is also the first of
    its size: every suitable buffer before it is strictly larger. *)
Definition first_fit_of (buffers : list D3D12StagingBuffer) (num_bytes : Z)
    (k best : nat) : Prop :=
  best = length buffers \/
  ((best < k)%nat /\
   exists b, buffers !! best = Some b /\
     forall i c, (i < best)%nat -> buffers !! i = Some c ->
                 num_bytes <= staging_size c -> staging_size b < staging_size c).

Lemma first_fit_prefix (buffers : list D3D12StagingBuffer) (num_bytes : Z) (k : nat) :
  (k <= length buffers)%nat ->
  first_fit_of buffers num_bytes k
    (foldl (best_fit_step buffers num_bytes) (length buffers) (seq 0 k)).
Proof.
  induction k as [|k IH]; intros Hk.
  - left. reflexivity.
  - rewrite seq_S, foldl_snoc. cbn [Nat.add].
    specialize (IH ltac:(lia)).
    pose proof (best_fit_prefix buffers num_bytes k ltac:(lia)) as Hbest.
    set (best := foldl (best_fit_step buffers num_bytes) (length buffers) (seq 0 k)) in *.
    destruct (lookup_lt_is_Some_2 buffers k ltac:(lia)) as [cand Hcand].
    unfold best_fit_step. rewrite Hcand.
    destruct (Z.leb_spec num_bytes (staging_size cand)) as [Hfit|Hsmall].
    + destruct Hbest as [[Heq Hnone]|[Hlt (b & Hb & Hbfit & Hmin)]].
      * rewrite Heq, Nat.leb_refl. right. split; [lia|].
        exists cand. split; [exact Hcand|].
        intros i c Hi Hc Hcfit. specialize (Hnone i c Hi Hc). lia.
      * destruct (Nat.leb_spec (length buffers) best) as [Hge|_]; [lia|].
        rewrite Hb.
        destruct (Z.ltb_spec (staging_size cand) (staging_size b)) as [Hless|Hge].
        -- right. split; [lia|]. exists cand. split; [exact Hcand|].
           intros i c Hi Hc Hcfit. specialize (Hmin i c Hi Hc Hcfit). lia.
        -- destruct IH as [IH|[_ (b' & Hb' & Hfirst)]]; [lia|].
           right. split; [lia|]. exists b'. split; [exact Hb'|exact Hfirst].
    + destruct IH as [IH|[Hlt (b' & Hb' & Hfirst)]].
      * left. exact IH.
      * right. split; [lia|]. exists b'. split; [exact Hb'|exact Hfirst].
Qed.

Lemma find_best_fit_first (buffers : list D3D12StagingBuffer) (num_bytes : Z) :
  first_fit_of buffers num_bytes (length buffers) (find_best_fit buffers num_bytes).
Proof. apply first_fit_prefix. lia. Qed.

(** What [get_staging_buffer] does when a pooled buffer is large enough. *)
Lemma get_staging_buffer_hit (device_allocator : Allocator) (num_bytes : Z)
    (pool : StagingPool) :
  (exists b, b ∈ staging_buffers pool /\ num_bytes <= staging_size b) ->
  exists i b,
    find_best_fit (staging_buffers pool) num_bytes = i /\
    staging_buffers pool !! i = Some b /\
    num_bytes <= staging_size b /\
    (forall j c, staging_buffers pool !! j = Some c ->
                 num_bytes <= staging_size c -> staging_size b <= staging_size c) /\
    get_staging_buffer device_allocator num_bytes pool =
      (b, {| staging_buffers := delete i (staging_buffers pool);
             staging_buffer_idx := staging_buffer_idx pool |}, []).
Proof.
  intros (b0 & Hb0 & Hb0fit).
  pose proof (find_best_fit_spec (staging_buffers pool) num_bytes) as Hspec.
  unfold get_staging_buffer.
  destruct Hspec as [[Hbest Hnone]|[Hbest (b & Hb & Hbfit & Hmin)]].
  - apply list_elem_of_lookup in Hb0 as [i Hi].
    specialize (Hnone i b0 (lookup_lt_Some _ _ _ Hi) Hi). lia.
  - exists (find_best_fit (staging_buffers pool) num_bytes), b.
    rewrite Hb. repeat split; try assumption.
    intros j c Hc Hcfit. apply (Hmin j c (lookup_lt_Some _ _ _ Hc) Hc Hcfit).
Qed.

End StagingPoolFacts.

Module StagingPoolTheorems.
Import RenderDevice RenderDeviceResourceFacts StagingPoolFacts.

(** X5. Taking a staging buffer from the pool and giving it back loses and
    duplicates nothing: when a pooled buffer is large enough,
    [get_staging_buffer] followed by [return_staging_buffer] leaves the same
    buffers in the pool, in a different order at most; in between the pool is
    one buffer shorter, and no new staging buffer is named. *)
Theorem staging_buffer_get_then_return (device_allocator : Allocator) (num_bytes : Z)
    (pool : StagingPool) :
  (exists b, b ∈ staging_buffers pool /\ num_bytes <= staging_size b) ->
  let r := get_staging_buffer device_allocator num_bytes pool in
  staging_buffers (return_staging_buffer r.1.1 r.1.2) ≡ₚ staging_buffers pool /\
  S (length (staging_buffers r.1.2)) = length (staging_buffers pool) /\
  staging_buffer_idx (return_staging_buffer r.1.1 r.1.2) = staging_buffer_idx pool.
Proof.
  intros Hsome. cbv zeta.
  destruct (get_staging_buffer_hit device_allocator num_bytes pool Hsome)
    as (i & b & _ & Hb & _ & _ & ->).
  cbn [fst snd return_staging_buffer staging_buffers staging_buffer_idx].
  split; [|split; [|reflexivity]].
  - etransitivity; [symmetry; apply Permutation_cons_append|].
    symmetry. apply delete_Permutation. exact Hb.
  - rewrite length_delete by (rewrite Hb; eauto).
    pose proof (lookup_lt_Some _ _ _ Hb). lia.
Qed.

Definition staging (n : Z) (id : nat) : D3D12StagingBuffer :=
  {| staging_allocation := Some id; staging_resource := Some id;
     staging_size := n; staging_mapped := true; staging_name := "Staging Buffer {}" |}.

Definition mixed_pool : StagingPool :=
  {| staging_buffers := [staging 256 0; staging 128 1; staging 64 2; staging 128 3];
     staging_buffer_idx := 4 |}.

Definition no_allocator : Allocator :=
  fun _ => {| hresult := -2147024882; out_allocation := 0; out_resource := 0 |}.

Lemma staging_buffer_get_then_return_witness :
  (get_staging_buffer no_allocator 100 mixed_pool).1.1 = staging 128 1 /\
  staging_buffers
    (return_staging_buffer (get_staging_buffer no_allocator 100 mixed_pool).1.1
                           (get_staging_buffer no_allocator 100 mixed_pool).1.2)
    ≡ₚ staging_buffers mixed_pool.
Proof.
  split; [reflexivity|].
  apply (staging_buffer_get_then_return no_allocator 100 mixed_pool).
  exists (staging 256 0). split; [left|]. simpl. lia.
Defined.

(** X6. Among pooled buffers of the smallest sufficient size,
    [get_staging_buffer] takes the one that has been in the pool longest:
    every sufficient buffer in front of the one it returns is strictly
    larger. *)
Theorem staging_buffer_ties_go_to_the_first (device_allocator : Allocator)
    (num_bytes : Z) (pool : StagingPool) :
  (exists b, b ∈ staging_buffers pool /\ num_bytes <= staging_size b) ->
  let r := get_staging_buffer device_allocator num_bytes pool in
  exists i,
    staging_buffers pool !! i = Some r.1.1 /\
    staging_buffers r.1.2 = delete i (staging_buffers pool) /\
    forall j c, (j < i)%nat -> staging_buffers pool !! j = Some c ->
                num_bytes <= staging_size c -> staging_size r.1.1 < staging_size c.
Proof.
  intros Hsome. cbv zeta.
  destruct (get_staging_buffer_hit device_allocator num_bytes pool Hsome)
    as (i & b & Hi & Hb & _ & _ & ->).
  cbn [fst snd staging_buffers].
  exists i. split; [exact Hb|]. split; [reflexivity|].
  pose proof (find_best_fit_first (staging_buffers pool) num_bytes) as Hfirst.
  rewrite Hi in Hfirst.
  destruct Hfirst as [Heq|[_ (b' & Hb' & Hfirst)]].
  - pose proof (lookup_lt_Some _ _ _ Hb). lia.
  - rewrite Hb in Hb'. injection Hb' as <-. exact Hfirst.
Qed.

Lemma staging_buffer_ties_go_to_the_first_witness :
  exists i,
    staging_buffers mixed_pool !! i =
      Some (get_staging_buffer no_allocator 100 mixed_pool).1.1 /\
    staging_buffers (get_staging_buffer no_allocator 100 mixed_pool).1.2 =
      delete i (staging_buffers mixed_pool) /\
    forall j c, (j < i)%nat -> staging_buffers mixed_pool !! j = Some c ->
                100 <= staging_size c ->
                staging_size (get_staging_buffer no_allocator 100 mixed_pool).1.1
                < staging_size c.
Proof.
  apply (staging_buffer_ties_go_to_the_first no_allocator 100 mixed_pool).
  exists (staging 256 0). split; [left|]. simpl. lia.
Defined.

(** X7. A returned staging buffer is used again before any new one is
    created: after [return_staging_buffer(buffer)], a request for at most
    [buffer]'s size is served from the pool whatever the allocator would
    answer, with nothing logged, by a buffer that is large enough and no
    larger than [buffer]. *)
Theorem returned_staging_buffer_is_reused (allocator1 allocator2 : Allocator)
    (buffer : D3D12StagingBuffer) (num_bytes : Z) (pool : StagingPool) :
  num_bytes <= staging_size buffer ->
  let r := get_staging_buffer allocator1 num_bytes (return_staging_buffer buffer pool) in
  r = get_staging_buffer allocator2 num_bytes (return_staging_buffer buffer pool) /\
  r.2 = [] /\
  r.1.1 ∈ staging_buffers pool ++ [buffer] /\
  num_bytes <= staging_size r.1.1 <= staging_size buffer /\
  staging_buffer_idx r.1.2 = staging_buffer_idx pool.
Proof.
  intros Hfit. cbv zeta.
  assert (Hsome : exists b, b ∈ staging_buffers (return_staging_buffer buffer pool) /\
                            num_bytes <= staging_size b).
  { exists buffer. split; [|exact Hfit]. simpl. apply elem_of_app. right. left. }
  destruct (get_staging_buffer_hit allocator1 num_bytes _ Hsome)
    as (i & b & Hi & Hb & Hbfit & Hmin & H1).
  destruct (get_staging_buffer_hit allocator2 num_bytes _ Hsome)
    as (i' & b' & Hi' & Hb' & _ & _ & H2).
  rewrite H1, H2. rewrite Hi in Hi'. subst i'. rewrite Hb in Hb'. injection Hb' as <-.
  cbn [fst snd staging_buffer_idx].
  split; [reflexivity|]. split; [reflexivity|]. split; [|split; [|reflexivity]].
  - apply (list_elem_of_lookup_2 _ i). exact Hb.
  - split; [exact Hbfit|].
    assert (Hlast : staging_buffers (return_staging_buffer buffer pool)
                      !! length (staging_buffers pool) = Some buffer).
    { simpl. rewrite lookup_app_r by lia. rewrite Nat.sub_diag. reflexivity. }
    apply (Hmin _ buffer Hlast Hfit).
Qed.

Lemma returned_staging_buffer_is_reused_witness :
  let r := get_staging_buffer no_allocator 60
             (return_staging_buffer (staging 64 9)
                {| staging_buffers := [staging 32 0]; staging_buffer_idx := 1 |}) in
  r.1.1 = staging 64 9 /\ r.2 = [].
Proof.
  cbv zeta. split; [reflexivity|].
  apply (returned_staging_buffer_is_reused no_allocator no_allocator (staging 64 9) 60
           {| staging_buffers := [staging 32 0]; staging_buffer_idx := 1 |}).
  simpl. lia.
Defined.

End StagingPoolTheorems.

(** ** Bind groups: what [build] and the two [bind_to_*] functions do *)

Module BindGroupBuildFacts.
Import BindGroup BindGroupFacts BindGroupBinding.

Lemma alter_as_insert {A} (f : A -> A) (l : list A) (i : nat) (x : A) :
  l !! i = Some x -> alter f i l = <[i := f x]> l.
Proof.
  intros Hx. apply list_eq. intros k.
  destruct (decide (k = i)) as [->|Hne].
  - rewrite list_lookup_alter_eq, Hx.
    rewrite list_lookup_insert_eq; [reflexivity|].
    apply lookup_lt_Some in Hx. exact Hx.
  - rewrite list_lookup_alter_ne by congruence.
    rewrite list_lookup_insert_ne by congruence. reflexivity.
Qed.

Lemma filled_slot_type b name ty p p' :
  filled_slot b name ty p = Some p' ->
  param_type p' = Descriptor /\ descriptor_type (descriptor p') = ty /\ table p' = table p.
Proof.
  unfold filled_slot. intros H.
  destruct (bound_buffers b !! name) as [[buffer|images]|].
  - injection H as <-. auto.
  - discriminate H.
  - destruct (bound_images b !! name) as [[|image [|]]|]; try discriminate H;
      injection H as <-; auto.
Qed.

Lemma filled_slot_bindable b name ty p :
  is_Some (filled_slot b name ty p) <-> satisfied b name \/ unbound b name.
Proof.
  unfold filled_slot, satisfied, unbound. split.
  - intros [p' H].
    destruct (bound_buffers b !! name) as [[buffer|images]|].
    + left. left. exists buffer. reflexivity.
    + discriminate H.
    + destruct (bound_images b !! name) as [[|image [|]]|]; try discriminate H.
      * left. right. split; [reflexivity|]. exists image. reflexivity.
      * right. auto.
  - intros [[[buffer ->]|[-> [image ->]]]|[-> ->]]; eexists; reflexivity.
Qed.

Lemma filled_slot_log b name ty p p' :
  filled_slot b name ty p = Some p' ->
  is_unbound b name = true ->
  p' = set_descriptor_type ty p.
Proof.
  unfold filled_slot, is_unbound.
  destruct (bound_buffers b !! name) as [[buffer|images]|]; try discriminate.
  destruct (bound_images b !! name) as [images|]; try discriminate.
  intros H _. injection H as <-. reflexivity.
Qed.

(** One iteration of the root-descriptor loop, when it has a result. *)
Lemma save_root_descriptor_effect b params log name desc params' log' :
  save_root_descriptor b (params, log) (name, desc) = Some (params', log') ->
  idx desc < 32 /\
  exists p0 p1,
    params !! Z.to_nat (idx desc) = Some p0 /\
    param_type p0 = Empty /\
    filled_slot b name (type desc) p0 = Some p1 /\
    params' = <[Z.to_nat (idx desc) := p1]> params /\
    log' = log ++ (if is_unbound b name then [no_resources_bound name] else []).
Proof.
  cbn [save_root_descriptor]. unfold ENSURE, filled_slot, is_unbound.
  destruct (Z.ltb_spec (idx desc) 32) as [Hlt|]; [|discriminate].
  destruct (params !! Z.to_nat (idx desc)) as [p0|] eqn:Hp0; [|discriminate].
  destruct (bool_decide_reflect (param_type p0 = Empty)) as [He|]; [|discriminate].
  assert (H1 : alter (set_descriptor_type (type desc)) (Z.to_nat (idx desc)) params !!
               Z.to_nat (idx desc) = Some (set_descriptor_type (type desc) p0)).
  { rewrite list_lookup_alter_eq, Hp0. reflexivity. }
  intros H. split; [exact Hlt|]. exists p0.
  destruct (bound_buffers b !! name) as [[buffer|images]|].
  - injection H as <- <-. eexists. repeat split; try eassumption; try reflexivity.
    + rewrite (alter_as_insert _ _ _ _ H1).
      rewrite (alter_as_insert _ _ _ _ Hp0).
      apply list_insert_insert_eq.
    + rewrite app_nil_r. reflexivity.
  - discriminate H.
  - destruct (bound_images b !! name) as [images|].
    + destruct (bool_decide_reflect (length images = 1%nat)) as [Hl|]; [|discriminate].
      destruct images as [|image [|]]; try discriminate Hl.
      cbn in H. injection H as <- <-.
      eexists. repeat split; try eassumption; try reflexivity.
      * rewrite (alter_as_insert _ _ _ _ H1).
        rewrite (alter_as_insert _ _ _ _ Hp0).
        apply list_insert_insert_eq.
      * rewrite app_nil_r. reflexivity.
    + injection H as <- <-.
      eexists. repeat split; try eassumption; try reflexivity.
      apply (alter_as_insert _ _ _ _ Hp0).
Qed.

Lemma for_each_app {A S} (body : S -> A -> option S) (s : S) (l1 l2 : list A) :
  for_each body s (l1 ++ l2) =
  match for_each body s l1 with
  | Some s' => for_each body s' l2
  | None => None
  end.
Proof.
  revert s. induction l1 as [|x l1 IH]; intros s; simpl; [reflexivity|].
  destruct (body s x); [apply IH|reflexivity].
Qed.

(** The root-descriptor loop, when it has a result: the vector keeps its
    length, every declared slot was [Empty] and now holds what
    [filled_slot] makes of it, no other slot is touched, the declared
    slots are pairwise different, and the log has one warning per
    declaration without a binding, in iteration order. *)
Lemma root_loop_effect b l params log params' log' :
  for_each (save_root_descriptor b) (params, log) l = Some (params', log') ->
  length params' = length params /\
  (forall k, k ∉ map root_slot l -> params' !! k = params !! k) /\
  (forall n d, (n, d) ∈ l ->
     idx d < 32 /\
     exists p0 p1,
       params !! Z.to_nat (idx d) = Some p0 /\ param_type p0 = Empty /\
       filled_slot b n (type d) p0 = Some p1 /\
       params' !! Z.to_nat (idx d) = Some p1) /\
  (forall k p, params !! k = Some p -> param_type p <> Empty -> params' !! k = Some p) /\
  NoDup (map root_slot l) /\
  log' = log ++ map no_resources_bound (List.filter (is_unbound b) (map fst l)).
Proof.
  revert params log. induction l as [|[n0 d0] l IH]; intros params log Hrun.
  - simpl in Hrun. injection Hrun as <- <-.
    split; [reflexivity|]. split; [reflexivity|].
    split; [intros n d Hin; inversion Hin|].
    split; [auto|]. split; [apply NoDup_nil_2|].
    simpl. rewrite app_nil_r. reflexivity.
  - cbn [for_each] in Hrun.
    destruct (save_root_descriptor b (params, log) (n0, d0)) as [[params1 log1]|] eqn:Hstep;
      [|discriminate Hrun].
    apply save_root_descriptor_effect in Hstep
      as (Hlt & p0 & p1 & Hp0 & He & Hfill & -> & ->).
    destruct (filled_slot_type _ _ _ _ _ Hfill) as (Hty & _).
    apply IH in Hrun as (Hlen & Hsame & Hentries & Hkeep & Hnd & Hlog).
    assert (Hi0 : (Z.to_nat (idx d0) < length params)%nat)
      by (apply lookup_lt_Some in Hp0; exact Hp0).
    assert (Hnew : <[Z.to_nat (idx d0) := p1]> params !! Z.to_nat (idx d0) = Some p1)
      by (apply list_lookup_insert_eq; exact Hi0).
    assert (Hfresh : Z.to_nat (idx d0) ∉ map root_slot l).
    { intros Hin. apply list_elem_of_fmap in Hin as ([n d] & Hk & Hin).
      destruct (Hentries n d Hin) as (_ & q0 & q1 & Hq0 & Hqe & _).
      unfold root_slot in Hk. cbn [snd] in Hk. rewrite <- Hk, Hnew in Hq0.
      injection Hq0 as <-. congruence. }
    split; [rewrite Hlen; apply length_insert|].
    split.
    { intros k Hk. cbn [map] in Hk. apply not_elem_of_cons in Hk as [Hk0 Hk].
      rewrite (Hsame k Hk). apply list_lookup_insert_ne.
      unfold root_slot in Hk0. cbn [snd] in Hk0. congruence. }
    split.
    { intros n d Hin. apply elem_of_cons in Hin as [Heq|Hin].
      - injection Heq as -> ->. split; [exact Hlt|].
        exists p0, p1. repeat split; try assumption.
        apply Hkeep; [exact Hnew|congruence].
      - destruct (Hentries n d Hin) as (Hlt' & q0 & q1 & Hq0 & Hqe & Hqf & Hq1).
        split; [exact Hlt'|]. exists q0, q1. repeat split; try assumption.
        rewrite list_lookup_insert_ne in Hq0; [exact Hq0|].
        intros Heq. rewrite <- Heq, Hnew in Hq0. injection Hq0 as <-. congruence. }
    split.
    { intros k p Hk Hp. apply Hkeep; [|exact Hp].
      rewrite list_lookup_insert_ne; [exact Hk|].
      intros <-. rewrite Hp0 in Hk. injection Hk as <-. contradiction. }
    split.
    { cbn [map]. apply NoDup_cons. split; [exact Hfresh|exact Hnd]. }
    rewrite Hlog. cbn [map List.filter fst].
    destruct (is_unbound b n0); cbn [map]; rewrite <- app_assoc; reflexivity.
Qed.

(** The descriptor-table loop, when it has a result. *)
Lemma table_loop_effect l params params' :
  for_each save_descriptor_table params l = Some params' ->
  length params' = length params /\
  (forall k, k ∉ map table_slot l -> params' !! k = params !! k) /\
  (forall i h, (i, h) ∈ l -> i < 64) /\
  (forall t p, t ∈ l -> params !! table_slot t = Some p ->
     exists p', params' !! table_slot t = Some p' /\ param_type p' = DescriptorTable) /\
  (forall k p, params !! k = Some p -> param_type p = DescriptorTable ->
     exists p', params' !! k = Some p' /\ param_type p' = DescriptorTable).
Proof.
  revert params. induction l as [|[i0 h0] l IH]; intros params Hrun.
  - simpl in Hrun. injection Hrun as <-.
    split; [reflexivity|]. split; [reflexivity|].
    split; [intros i h Hin; inversion Hin|].
    split; [intros t p Hin; inversion Hin|].
    intros k p Hk Hp. exists p. auto.
  - cbn [for_each save_descriptor_table] in Hrun. unfold ENSURE in Hrun.
    destruct (Z.ltb_spec i0 64) as [Hlt|]; [|discriminate Hrun].
    apply IH in Hrun as (Hlen & Hsame & Hrange & Hset & Hkeep).
    assert (Hstep : forall k p, params !! k = Some p ->
              (k = Z.to_nat i0 \/ param_type p = DescriptorTable) ->
              exists p', alter (set_table h0) (Z.to_nat i0) params !! k = Some p' /\
                         param_type p' = DescriptorTable).
    { intros k p Hk Hor. destruct (decide (k = Z.to_nat i0)) as [->|Hne].
      - rewrite list_lookup_alter_eq, Hk. eexists. split; reflexivity.
      - rewrite list_lookup_alter_ne by congruence.
        destruct Hor as [|Hp]; [contradiction|]. exists p. auto. }
    split; [rewrite Hlen; apply length_alter|].
    split.
    { intros k Hk. cbn [map] in Hk. apply not_elem_of_cons in Hk as [Hk0 Hk].
      rewrite (Hsame k Hk). apply list_lookup_alter_ne.
      unfold table_slot in Hk0. cbn [fst] in Hk0. congruence. }
    split.
    { intros i h Hin. apply elem_of_cons in Hin as [Heq|Hin].
      - injection Heq as -> ->. exact Hlt.
      - apply (Hrange i h Hin). }
    split.
    { intros t p Hin Hp. apply elem_of_cons in Hin as [->|Hin].
      - destruct (Hstep _ _ Hp) as (p' & Hp' & Hty); [left; reflexivity|].
        apply (Hkeep _ _ Hp' Hty).
      - destruct (decide (table_slot t = Z.to_nat i0)) as [Heq|Hne].
        + destruct (Hstep _ _ Hp) as (p' & Hp' & Hty); [left; exact Heq|].
          apply (Hkeep _ _ Hp' Hty).
        + apply (Hset t p Hin).
          rewrite list_lookup_alter_ne by congruence. exact Hp. }
    intros k p Hk Hp.
    destruct (Hstep _ _ Hk) as (p' & Hp' & Hty); [right; exact Hp|].
    apply (Hkeep _ _ Hp' Hty).
Qed.

Lemma table_loop_total l params :
  (forall i h, (i, h) ∈ l -> i < 64) ->
  is_Some (for_each save_descriptor_table params l).
Proof.
  revert params. induction l as [|[i h] l IH]; intros params Hrange.
  - eexists. reflexivity.
  - cbn [for_each save_descriptor_table]. unfold ENSURE.
    destruct (Z.ltb_spec i 64) as [_|Hge].
    + apply IH. intros i' h' Hin. apply (Hrange i' h'). right. exact Hin.
    + specialize (Hrange i h ltac:(left)). lia.
Qed.

Lemma root_loop_total b l params log :
  (forall n d, (n, d) ∈ l -> idx d < 32) ->
  NoDup (map root_slot l) ->
  (forall e, e ∈ l -> exists p, params !! root_slot e = Some p /\ param_type p = Empty) ->
  (forall n d, (n, d) ∈ l -> satisfied b n \/ unbound b n) ->
  is_Some (for_each (save_root_descriptor b) (params, log) l).
Proof.
  revert params log. induction l as [|[n d] l IH]; intros params log Hrange Hnd Hempty Hslots.
  - eexists. reflexivity.
  - cbn [for_each].
    cbn [map] in Hnd. apply NoDup_cons in Hnd as [Hfresh Hnd].
    destruct (Hempty (n, d)) as (p0 & Hp0 & He); [left|].
    unfold root_slot in Hp0, Hfresh. cbn [snd] in Hp0, Hfresh.
    destruct (proj2 (filled_slot_bindable b n (type d) p0)) as [p1 Hfill];
      [apply (Hslots n d); left|].
    assert (Hstep : exists log1, save_root_descriptor b (params, log) (n, d) =
                      Some (<[Z.to_nat (idx d) := p1]> params, log1)).
    { destruct (save_root_descriptor b (params, log) (n, d)) as [[params1 log1]|] eqn:Hstep.
      - apply save_root_descriptor_effect in Hstep
          as (_ & q0 & q1 & Hq0 & _ & Hqf & -> & _).
        rewrite Hp0 in Hq0. injection Hq0 as <-.
        rewrite Hfill in Hqf. injection Hqf as <-. eexists. reflexivity.
      - exfalso. revert Hstep. cbn [save_root_descriptor]. unfold ENSURE.
        specialize (Hrange n d ltac:(left)).
        destruct (Z.ltb_spec (idx d) 32) as [_|]; [|lia].
        rewrite Hp0.
        destruct (bool_decide_reflect (param_type p0 = Empty)) as [_|]; [|contradiction].
        revert Hfill. unfold filled_slot.
        destruct (bound_buffers b !! n) as [[buffer|images]|]; try discriminate.
        destruct (bound_images b !! n) as [[|image [|]]|]; discriminate. }
    destruct Hstep as [log1 ->].
    apply IH.
    + intros n' d' Hin. apply (Hrange n' d'). right. exact Hin.
    + exact Hnd.
    + intros e Hin. destruct (Hempty e) as (p & Hp & Hpe); [right; exact Hin|].
      exists p. split; [|exact Hpe].
      rewrite list_lookup_insert_ne; [exact Hp|].
      intros Heq. apply Hfresh. rewrite Heq.
      apply list_elem_of_fmap. exists e. auto.
    + intros n' d' Hin. apply (Hslots n' d'). right. exact Hin.
Qed.

(** The descriptor-table loop over distinct slots stores every handle. *)
Lemma table_loop_values l params params' :
  for_each save_descriptor_table params l = Some params' ->
  NoDup (map table_slot l) ->
  forall t, t ∈ l -> params' !! table_slot t = set_table t.2 <$> params !! table_slot t.
Proof.
  revert params. induction l as [|[i0 h0] l IH]; intros params Hrun Hnd t Hin.
  - inversion Hin.
  - cbn [map] in Hnd. apply NoDup_cons in Hnd as [Hfresh Hnd].
    cbn [for_each save_descriptor_table] in Hrun. unfold ENSURE in Hrun.
    destruct (i0 <? 64); [|discriminate Hrun].
    apply elem_of_cons in Hin as [->|Hin].
    + apply table_loop_effect in Hrun as (_ & Hsame & _).
      rewrite (Hsame _ Hfresh). apply list_lookup_alter_eq.
    + rewrite (IH _ Hrun Hnd t Hin).
      rewrite list_lookup_alter_ne; [reflexivity|].
      intros Heq. apply Hfresh. unfold table_slot at 1. cbn [fst]. rewrite Heq.
      apply list_elem_of_fmap. exists t. auto.
Qed.

Lemma empty_root_parameters k :
  (k < 64)%nat -> replicate 64 empty_root_parameter !! k = Some empty_root_parameter.
Proof. intros Hk. apply lookup_replicate. auto. Qed.

(** [build], when it has a result, in terms of its two loops. *)
Lemma build_effect b bind_group log :
  build b = Some (bind_group, log) ->
  exists params1,
    for_each save_descriptor_table (replicate 64 empty_root_parameter)
      (descriptor_table_handles b) = Some params1 /\
    for_each (save_root_descriptor b) (params1, []) (root_descriptor_descriptions b) =
      Some (root_parameters bind_group, log).
Proof.
  unfold build. intros H.
  destruct (for_each save_descriptor_table _ _) as [params1|]; [|discriminate H].
  exists params1. split; [reflexivity|].
  destruct (for_each (save_root_descriptor b) _ _) as [[params2 log2]|]; [|discriminate H].
  injection H as <- <-. reflexivity.
Qed.

(** A declared root descriptor finds its slot as [build] created it. *)
Lemma root_slot_is_fresh b bind_group log n d :
  build b = Some (bind_group, log) ->
  (n, d) ∈ root_descriptor_descriptions b ->
  (Z.to_nat (idx d) < 64)%nat /\
  exists p1,
    filled_slot b n (type d) empty_root_parameter = Some p1 /\
    root_parameters bind_group !! Z.to_nat (idx d) = Some p1.
Proof.
  intros Hbuild Hin.
  apply build_effect in Hbuild as (params1 & Htables & Hroots).
  apply table_loop_effect in Htables as (Hlen1 & Hsame1 & _ & Hset1 & _).
  apply root_loop_effect in Hroots as (_ & _ & Hentries & _).
  destruct (Hentries n d Hin) as (Hlt & p0 & p1 & Hp0 & He & Hfill & Hp1).
  assert (Hk : (Z.to_nat (idx d) < 64)%nat) by lia.
  split; [exact Hk|]. exists p1. split; [|exact Hp1].
  destruct (decide (Z.to_nat (idx d) ∈ map table_slot (descriptor_table_handles b)))
    as [Htab|Hfree].
  - apply list_elem_of_fmap in Htab as (t & Hslot & Ht).
    destruct (Hset1 t empty_root_parameter Ht) as (p' & Hp' & Hty).
    { rewrite <- Hslot. apply empty_root_parameters. exact Hk. }
    rewrite <- Hslot, Hp0 in Hp'. injection Hp' as <-. congruence.
  - rewrite (Hsame1 _ Hfree), (empty_root_parameters _ Hk) in Hp0.
    injection Hp0 as <-. exact Hfill.
Qed.

Lemma build_succeeds b : is_Some (build b) <-> buildable b.
Proof.
  split.
  - intros [[bind_group log] Hbuild].
    apply build_effect in Hbuild as (params1 & Htables & Hroots).
    apply table_loop_effect in Htables as (Hlen1 & Hsame1 & Hrange1 & Hset1 & _).
    apply root_loop_effect in Hroots as (_ & _ & Hentries & _ & Hnd & _).
    split.
    + exact Hrange1.
    + intros n d Hin. apply (Hentries n d Hin).
    + exact Hnd.
    + intros [n d] t Hin Ht Heq.
      destruct (Hentries n d Hin) as (Hlt & p0 & p1 & Hp0 & He & _).
      destruct (Hset1 t empty_root_parameter Ht) as (p' & Hp' & Hty).
      { rewrite <- Heq. apply empty_root_parameters.
        unfold root_slot. cbn [snd]. lia. }
      unfold root_slot in Heq. cbn [snd] in Heq.
      rewrite <- Heq, Hp0 in Hp'. injection Hp' as <-. congruence.
    + intros n d Hin.
      destruct (Hentries n d Hin) as (_ & p0 & p1 & _ & _ & Hfill & _).
      apply (filled_slot_bindable b n (type d) p0). eexists. exact Hfill.
  - intros [Ht Hr Hnd Hfree Hbind].
    unfold build.
    destruct (table_loop_total (descriptor_table_handles b)
                (replicate 64 empty_root_parameter) Ht) as [params1 Htables].
    rewrite Htables.
    apply table_loop_effect in Htables as (_ & Hsame1 & _).
    destruct (root_loop_total b (root_descriptor_descriptions b) params1 [])
      as [[params2 log] Hroots]; try assumption.
    + intros [n d] Hin. exists empty_root_parameter. split; [|reflexivity].
      rewrite Hsame1.
      * apply empty_root_parameters. specialize (Hr n d Hin).
        unfold root_slot. cbn [snd]. lia.
      * intros Htab. apply list_elem_of_fmap in Htab as (t & Hslot & Htin).
        apply (Hfree (n, d) t Hin Htin Hslot).
    + rewrite Hroots. eexists. reflexivity.
Qed.

Lemma bind_from_call (call : nat -> RootParameter -> list RootCall)
    (params : list RootParameter) (i k : nat) (p : RootParameter) (c : RootCall) :
  params !! k = Some p -> c ∈ call (i + k)%nat p -> c ∈ bind_from call i params.
Proof.
  revert i k. induction params as [|q params IH]; intros i k Hk Hc.
  - discriminate Hk.
  - cbn [bind_from]. apply elem_of_app. destruct k as [|k].
    + left. injection Hk as ->. rewrite Nat.add_0_r in Hc. exact Hc.
    + right. apply (IH (S i) k); [exact Hk|].
      replace (S i + k)%nat with (i + S k)%nat by lia. exact Hc.
Qed.

Lemma bind_from_mirror (params : list RootParameter) (i : nat) :
  bind_from compute_call i params = map to_compute (bind_from graphics_call i params).
Proof.
  revert i. induction params as [|p params IH]; intros i; [reflexivity|].
  cbn [bind_from]. rewrite map_app, <- IH. f_equal.
  unfold compute_call, graphics_call.
  destruct (param_type p); [reflexivity| |reflexivity].
  destruct (descriptor_type (descriptor p)); reflexivity.
Qed.

Lemma bind_from_length (params : list RootParameter) (i : nat) :
  length (bind_from graphics_call i params) =
  length (List.filter (fun p => negb (is_empty_parameter p)) params).
Proof.
  revert i. induction params as [|p params IH]; intros i; [reflexivity|].
  cbn [bind_from List.filter]. rewrite length_app, (IH (S i)).
  unfold graphics_call, is_empty_parameter.
  destruct (param_type p); [reflexivity| |reflexivity].
  destruct (descriptor_type (descriptor p)); reflexivity.
Qed.

Lemma filter_Permutation_bool {A} (f : A -> bool) (l l' : list A) :
  l ≡ₚ l' -> List.filter f l ≡ₚ List.filter f l'.
Proof.
  induction 1 as [|x l l' _ IH|x y l|l l' l'' _ IH1 _ IH2].
  - reflexivity.
  - simpl. destruct (f x); [constructor|]; exact IH.
  - simpl. destruct (f x), (f y); try reflexivity. apply perm_swap.
  - etransitivity; eassumption.
Qed.

Lemma filled_slot_ext b b' n ty p :
  bound_buffers b' = bound_buffers b -> bound_images b' = bound_images b ->
  filled_slot b' n ty p = filled_slot b n ty p.
Proof. unfold filled_slot. intros -> ->. reflexivity. Qed.

Lemma is_unbound_ext b b' :
  bound_buffers b' = bound_buffers b -> bound_images b' = bound_images b ->
  forall n, is_unbound b' n = is_unbound b n.
Proof. unfold is_unbound. intros -> -> n. reflexivity. Qed.

Lemma filter_ext_bool {A} (f g : A -> bool) (l : list A) :
  (forall x, f x = g x) -> List.filter f l = List.filter g l.
Proof.
  intros H. induction l as [|x l IH]; [reflexivity|].
  simpl. rewrite H, IH. reflexivity.
Qed.

Lemma same_up_to_order_sym b b' : same_up_to_order b b' -> same_up_to_order b' b.
Proof. intros (H1 & H2 & H3 & H4). repeat split; symmetry; assumption. Qed.

Lemma buildable_up_to_order b b' : same_up_to_order b b' -> buildable b -> buildable b'.
Proof.
  intros (Hr & Ht & Hb & Hi) [H1 H2 H3 H4 H5]. split.
  - intros i h Hin. apply (H1 i h). rewrite <- Ht. exact Hin.
  - intros n d Hin. apply (H2 n d). rewrite <- Hr. exact Hin.
  - rewrite Hr. exact H3.
  - intros e t He Hti. apply H4; [rewrite <- Hr; exact He|rewrite <- Ht; exact Hti].
  - intros n d Hin. unfold satisfied, unbound. rewrite Hb, Hi.
    apply (H5 n d). rewrite <- Hr. exact Hin.
Qed.

Lemma build_up_to_order b b' bind_group log bind_group' log' :
  same_up_to_order b b' ->
  NoDup (map table_slot (descriptor_table_handles b)) ->
  build b = Some (bind_group, log) ->
  build b' = Some (bind_group', log') ->
  bind_group = bind_group' /\ log ≡ₚ log'.
Proof.
  intros (Hr & Ht & Hb & Hi) Hnd Hbuild Hbuild'.
  apply build_effect in Hbuild as (params1 & Htables & Hroots).
  apply build_effect in Hbuild' as (params1' & Htables' & Hroots').
  assert (Hnd' : NoDup (map table_slot (descriptor_table_handles b')))
    by (rewrite Ht; exact Hnd).
  pose proof (table_loop_values _ _ _ Htables Hnd) as Hv.
  pose proof (table_loop_values _ _ _ Htables' Hnd') as Hv'.
  apply table_loop_effect in Htables as (_ & Hsame & _).
  apply table_loop_effect in Htables' as (_ & Hsame' & _).
  assert (Heq1 : params1' = params1).
  { apply list_eq. intros k.
    destruct (decide (k ∈ map table_slot (descriptor_table_handles b))) as [Hk|Hk].
    - apply list_elem_of_fmap in Hk as (t & -> & Hin).
      rewrite (Hv t Hin). apply Hv'. rewrite Ht. exact Hin.
    - rewrite (Hsame k Hk). apply Hsame'. rewrite Ht. exact Hk. }
  subst params1'.
  apply root_loop_effect in Hroots as (_ & Hkeep & Hentries & _ & _ & ->).
  apply root_loop_effect in Hroots' as (_ & Hkeep' & Hentries' & _ & _ & ->).
  split.
  - destruct bind_group as [params2], bind_group' as [params2'].
    cbn [root_parameters] in *. f_equal. apply list_eq. intros k.
    destruct (decide (k ∈ map root_slot (root_descriptor_descriptions b))) as [Hk|Hk].
    + apply list_elem_of_fmap in Hk as ([n d] & -> & Hin).
      destruct (Hentries n d Hin) as (_ & p0 & p1 & Hp0 & _ & Hfill & Hp1).
      destruct (Hentries' n d) as (_ & q0 & q1 & Hq0 & _ & Hqfill & Hq1);
        [rewrite Hr; exact Hin|].
      unfold root_slot. cbn [snd]. rewrite Hp1, Hq1.
      rewrite Hp0 in Hq0. injection Hq0 as <-.
      rewrite (filled_slot_ext b b') in Hqfill by assumption. congruence.
    + rewrite (Hkeep k Hk). symmetry. apply Hkeep'. rewrite Hr. exact Hk.
  - cbn [app]. apply Permutation_map.
    rewrite (filter_ext_bool _ _ _ (is_unbound_ext b b' Hb Hi)).
    apply filter_Permutation_bool. apply Permutation_map. symmetry. exact Hr.
Qed.

End BindGroupBuildFacts.

Module BindGroupBuildTheorems.
Import BindGroup BindGroupFacts BindGroupBinding BindGroupBuildFacts.

(** X8. A buffer given to [set_buffer] under the name of a declared root
    descriptor reaches the root signature: whenever [build] returns a bind
    group, the root parameter at the declared index is a descriptor of the
    declared type holding the buffer's GPU address, and binding the group
    issues the matching root call, for graphics and for compute. *)
Theorem bound_buffer_reaches_the_root_signature b name desc buffer bind_group log :
  (name, desc) ∈ root_descriptor_descriptions b ->
  build (set_buffer name buffer b) = Some (bind_group, log) ->
  let i := Z.to_nat (idx desc) in
  let a := GetGPUVirtualAddress (buffer_resource buffer) in
  (exists p, root_parameters bind_group !! i = Some p /\
             param_type p = Descriptor /\
             descriptor p = {| descriptor_type := type desc; address := a |}) /\
  graphics_descriptor_call (type desc) i a ∈ bind_to_graphics_signature bind_group /\
  to_compute (graphics_descriptor_call (type desc) i a) ∈ bind_to_compute_signature bind_group.
Proof.
  intros Hin Hbuild i a.
  destruct (root_slot_is_fresh _ _ _ name desc Hbuild Hin) as (_ & p1 & Hfill & Hp1).
  unfold filled_slot in Hfill. cbn [set_buffer with_bound_buffers bound_buffers] in Hfill.
  rewrite lookup_insert_eq in Hfill. injection Hfill as <-.
  assert (Hcall : graphics_descriptor_call (type desc) i a ∈
                  bind_to_graphics_signature bind_group).
  { apply (bind_from_call graphics_call _ 0 i _ _ Hp1).
    unfold graphics_call. cbn. destruct (type desc); apply list_elem_of_singleton; reflexivity. }
  split; [|split].
  - eexists. split; [exact Hp1|]. split; reflexivity.
  - exact Hcall.
  - unfold bind_to_compute_signature. rewrite bind_from_mirror.
    apply list_elem_of_fmap. eexists. split; [reflexivity|exact Hcall].
Qed.

Definition light_buffer : D3D12Buffer :=
  {| buffer_resource := {| GetGPUVirtualAddress := 196608 |} |}.

(** A shadow pass: root descriptors at 0 and 5, descriptor tables at 2 and 7. *)
Definition shadow_pass_builder : D3D12BindGroupBuilder :=
  new_builder [("lights"%string, {| idx := 5; type := ConstantBuffer |});
               ("shadow_map"%string, {| idx := 0; type := UnorderedAccess |})]
              []
              [(2, 8192); (7, 12288)].

Lemma bound_buffer_reaches_the_root_signature_witness :
  exists bind_group,
    (exists p, root_parameters bind_group !! 5%nat = Some p /\
               param_type p = Descriptor /\
               descriptor p = {| descriptor_type := ConstantBuffer; address := 196608 |}) /\
    SetGraphicsRootConstantBufferView 5 196608 ∈ bind_to_graphics_signature bind_group /\
    SetComputeRootConstantBufferView 5 196608 ∈ bind_to_compute_signature bind_group.
Proof.
  destruct (build (set_buffer "lights" light_buffer shadow_pass_builder))
    as [[bind_group log]|] eqn:Hbuild; [|vm_compute in Hbuild; discriminate Hbuild].
  exists bind_group.
  apply (bound_buffer_reaches_the_root_signature shadow_pass_builder "lights"
           {| idx := 5; type := ConstantBuffer |} light_buffer bind_group log).
  - left.
  - exact Hbuild.
Defined.

(** X9. [build] returns a bind group exactly when none of its assertions
    can fire: with the indices of both declaration maps read as unsigned,
    every descriptor-table index is below 64, every root-descriptor index
    is below 32, no two root descriptors share an index, no root descriptor
    uses the index of a descriptor table, and every root descriptor is
    either bound to a buffer, bound to exactly one image, or not bound. *)
Theorem build_returns_iff_declarations_fit b :
  (forall i h, (i, h) ∈ descriptor_table_handles b -> 0 <= i) ->
  (forall n d, (n, d) ∈ root_descriptor_descriptions b -> 0 <= idx d) ->
  is_Some (build b) <->
  (forall i h, (i, h) ∈ descriptor_table_handles b -> i < 64) /\
  (forall n d, (n, d) ∈ root_descriptor_descriptions b -> idx d < 32) /\
  NoDup (map (fun e => idx e.2) (root_descriptor_descriptions b)) /\
  (forall n d h, (n, d) ∈ root_descriptor_descriptions b ->
                 (idx d, h) ∉ descriptor_table_handles b) /\
  (forall n d, (n, d) ∈ root_descriptor_descriptions b -> satisfied b n \/ unbound b n).
Proof.
  intros Htpos Hrpos. rewrite build_succeeds.
  assert (Hslots : map root_slot (root_descriptor_descriptions b) =
                   Z.to_nat <$> map (fun e => idx e.2) (root_descriptor_descriptions b)).
  { unfold root_slot. clear. induction (root_descriptor_descriptions b) as [|e l IH];
      [reflexivity|]. cbn. f_equal. exact IH. }
  split.
  - intros [H1 H2 H3 H4 H5]. repeat split; try assumption.
    + rewrite Hslots in H3. apply NoDup_fmap_1 in H3. exact H3.
    + intros n d h Hin Ht. apply (H4 (n, d) (idx d, h) Hin Ht). reflexivity.
  - intros (H1 & H2 & H3 & H4 & H5). split; try assumption.
    + rewrite Hslots. apply NoDup_fmap_2_strong; [|exact H3].
      intros x y Hx Hy Heq.
      apply list_elem_of_fmap in Hx as ([nx dx] & -> & Hx).
      apply list_elem_of_fmap in Hy as ([ny dy] & -> & Hy).
      cbn [snd] in *. pose proof (Hrpos _ _ Hx). pose proof (Hrpos _ _ Hy). lia.
    + intros [n d] [i h] Hin Ht Heq. unfold root_slot, table_slot in Heq.
      cbn [fst snd] in Heq.
      pose proof (Hrpos _ _ Hin). pose proof (Htpos _ _ Ht).
      assert (i = idx d) by lia. subst i. apply (H4 n d h Hin Ht).
Qed.

(** Two root descriptors declared at the same index. *)
Definition clashing_builder : D3D12BindGroupBuilder :=
  new_builder [("lights"%string, {| idx := 5; type := ConstantBuffer |});
               ("shadow_map"%string, {| idx := 5; type := UnorderedAccess |})]
              [] [].

Lemma build_returns_iff_declarations_fit_witness :
  is_Some (build clashing_builder) <->
  (forall i h, (i, h) ∈ descriptor_table_handles clashing_builder -> i < 64) /\
  (forall n d, (n, d) ∈ root_descriptor_descriptions clashing_builder -> idx d < 32) /\
  NoDup (map (fun e => idx e.2) (root_descriptor_descriptions clashing_builder)) /\
  (forall n d h, (n, d) ∈ root_descriptor_descriptions clashing_builder ->
                 (idx d, h) ∉ descriptor_table_handles clashing_builder) /\
  (forall n d, (n, d) ∈ root_descriptor_descriptions clashing_builder ->
               satisfied clashing_builder n \/ unbound clashing_builder n).
Proof.
  apply (build_returns_iff_declarations_fit clashing_builder).
  - intros i h Hin. inversion Hin.
  - intros n d Hin. cbn in Hin.
    repeat (apply elem_of_cons in Hin as [Hin|Hin]; [injection Hin as -> ->; cbn; lia|]).
    inversion Hin.
Defined.

(** X10. Whatever the declarations and bindings, a bind group that [build]
    returns has 64 root parameters, and the log is exactly one warning
    per declared root descriptor without a binding, in iteration order:
    nothing else is ever logged. *)
Theorem build_warns_once_per_unbound_descriptor b bind_group log :
  build b = Some (bind_group, log) ->
  length (root_parameters bind_group) = 64%nat /\
  log = map no_resources_bound
          (List.filter (is_unbound b) (map fst (root_descriptor_descriptions b))) /\
  List.filter is_warning log = log.
Proof.
  intros Hbuild.
  apply build_effect in Hbuild as (params1 & Htables & Hroots).
  apply table_loop_effect in Htables as (Hlen1 & _).
  apply root_loop_effect in Hroots as (Hlen2 & _ & _ & _ & _ & Hlog).
  split; [rewrite Hlen2, Hlen1; apply length_replicate|].
  split; [exact Hlog|].
  rewrite Hlog. clear. cbn [app].
  induction (List.filter (is_unbound b) (map fst (root_descriptor_descriptions b)))
    as [|n l IH]; [reflexivity|].
  cbn. f_equal. exact IH.
Qed.

Lemma build_warns_once_per_unbound_descriptor_witness :
  exists bind_group log,
    build shadow_pass_builder = Some (bind_group, log) /\
    length (root_parameters bind_group) = 64%nat /\
    log = map no_resources_bound
            (List.filter (is_unbound shadow_pass_builder)
               (map fst (root_descriptor_descriptions shadow_pass_builder))) /\
    List.filter is_warning log = log.
Proof.
  destruct (build shadow_pass_builder) as [[bind_group log]|] eqn:Hbuild;
    [|vm_compute in Hbuild; discriminate Hbuild].
  exists bind_group, log. split; [reflexivity|].
  apply (build_warns_once_per_unbound_descriptor shadow_pass_builder bind_group log).
  exact Hbuild.
Defined.

(** X11. A declared root descriptor that nothing was bound to is still
    made a root descriptor of its type: [build] warns about it and leaves
    the address value-initialised, and binding the group issues the root
    call for it with GPU address 0. *)
Theorem unbound_descriptor_is_bound_at_address_zero b name desc bind_group log :
  (name, desc) ∈ root_descriptor_descriptions b ->
  unbound b name ->
  build b = Some (bind_group, log) ->
  let i := Z.to_nat (idx desc) in
  root_parameters bind_group !! i =
    Some (set_descriptor_type (type desc) empty_root_parameter) /\
  graphics_descriptor_call (type desc) i 0 ∈ bind_to_graphics_signature bind_group /\
  no_resources_bound name ∈ log.
Proof.
  intros Hin Hunb Hbuild i.
  destruct (root_slot_is_fresh _ _ _ name desc Hbuild Hin) as (_ & p1 & Hfill & Hp1).
  pose proof (filled_slot_log _ _ _ _ _ Hfill (is_unbound_true _ _ Hunb)) as ->. split; [exact Hp1|]. split.
  - apply (bind_from_call graphics_call _ 0 i _ _ Hp1).
    unfold graphics_call. cbn. destruct (type desc); apply list_elem_of_singleton; reflexivity.
  - apply build_effect in Hbuild as (params1 & _ & Hroots).
    apply root_loop_effect in Hroots as (_ & _ & _ & _ & _ & ->).
    cbn [app]. apply list_elem_of_fmap. exists name. split; [reflexivity|].
    apply list_elem_of_In. apply filter_In. split.
    + apply list_elem_of_In. apply list_elem_of_fmap. exists (name, desc). auto.
    + apply is_unbound_true. exact Hunb.
Qed.

Lemma unbound_descriptor_is_bound_at_address_zero_witness :
  exists bind_group log,
    build shadow_pass_builder = Some (bind_group, log) /\
    root_parameters bind_group !! 0%nat =
      Some (set_descriptor_type UnorderedAccess empty_root_parameter) /\
    SetGraphicsRootUnorderedAccessView 0 0 ∈ bind_to_graphics_signature bind_group /\
    no_resources_bound "shadow_map" ∈ log.
Proof.
  destruct (build shadow_pass_builder) as [[bind_group log]|] eqn:Hbuild;
    [|vm_compute in Hbuild; discriminate Hbuild].
  exists bind_group, log. split; [reflexivity|].
  apply (unbound_descriptor_is_bound_at_address_zero shadow_pass_builder "shadow_map"
           {| idx := 0; type := UnorderedAccess |} bind_group log).
  - right. left.
  - split; reflexivity.
  - exact Hbuild.
Defined.

(** X12. Binding to a compute signature issues, call for call, the
    compute counterpart of what binding to a graphics signature issues,
    and either issues exactly one call per root parameter that is not
    [Empty]. *)
Theorem compute_binding_mirrors_graphics_binding bind_group :
  bind_to_compute_signature bind_group =
    map to_compute (bind_to_graphics_signature bind_group) /\
  length (bind_to_graphics_signature bind_group) =
    length (List.filter (fun p => negb (is_empty_parameter p)) (root_parameters bind_group)) /\
  length (bind_to_compute_signature bind_group) =
    length (bind_to_graphics_signature bind_group).
Proof.
  unfold bind_to_compute_signature, bind_to_graphics_signature.
  split; [apply bind_from_mirror|]. split; [apply bind_from_length|].
  rewrite bind_from_mirror. apply length_map.
Qed.

(** X13. A descriptor table handle reaches the root signature: with the
    tables declared at distinct indices, a bind group that [build]
    returns has at each declared index a descriptor table with the
    declared handle, which the root-descriptor loop leaves alone, and
    binding the group sets that table, for graphics and for compute. *)
Theorem descriptor_table_reaches_the_root_signature b i h bind_group log :
  (i, h) ∈ descriptor_table_handles b ->
  NoDup (map table_slot (descriptor_table_handles b)) ->
  build b = Some (bind_group, log) ->
  root_parameters bind_group !! Z.to_nat i = Some (set_table h empty_root_parameter) /\
  SetGraphicsRootDescriptorTable (Z.to_nat i) h ∈ bind_to_graphics_signature bind_group /\
  SetComputeRootDescriptorTable (Z.to_nat i) h ∈ bind_to_compute_signature bind_group.
Proof.
  intros Hin Hnd Hbuild.
  apply build_effect in Hbuild as (params1 & Htables & Hroots).
  pose proof (table_loop_values _ _ _ Htables Hnd (i, h) Hin) as Hv.
  apply table_loop_effect in Htables as (_ & _ & Hrange & _).
  apply root_loop_effect in Hroots as (_ & _ & _ & Hkeep & _).
  unfold table_slot in Hv. cbn [fst snd] in Hv.
  rewrite empty_root_parameters in Hv by (specialize (Hrange i h Hin); lia).
  apply Hkeep in Hv; [|discriminate].
  assert (Hcall : SetGraphicsRootDescriptorTable (Z.to_nat i) h ∈
                  bind_to_graphics_signature bind_group).
  { apply (bind_from_call graphics_call _ 0 (Z.to_nat i) _ _ Hv).
    apply list_elem_of_singleton. reflexivity. }
  split; [exact Hv|]. split; [exact Hcall|].
  unfold bind_to_compute_signature. rewrite bind_from_mirror.
  apply list_elem_of_fmap. eexists. split; [|exact Hcall]. reflexivity.
Qed.

Lemma descriptor_table_reaches_the_root_signature_witness :
  exists bind_group log,
    build shadow_pass_builder = Some (bind_group, log) /\
    root_parameters bind_group !! 7%nat = Some (set_table 12288 empty_root_parameter) /\
    SetGraphicsRootDescriptorTable 7 12288 ∈ bind_to_graphics_signature bind_group /\
    SetComputeRootDescriptorTable 7 12288 ∈ bind_to_compute_signature bind_group.
Proof.
  destruct (build shadow_pass_builder) as [[bind_group log]|] eqn:Hbuild;
    [|vm_compute in Hbuild; discriminate Hbuild].
  exists bind_group, log. split; [reflexivity|].
  apply (descriptor_table_reaches_the_root_signature shadow_pass_builder 7 12288
           bind_group log).
  - right. left.
  - cbn. apply NoDup_cons. split; [|apply NoDup_singleton].
    intros Hin. apply list_elem_of_singleton in Hin. discriminate Hin.
  - exact Hbuild.
Defined.

(** X14. [build] does not depend on the order in which its two
    declaration maps are iterated: for the same bindings and the same
    declarations (tables at distinct indices) visited in any two orders,
    either both builds hit an assertion, or both return the same bind
    group, with the same warnings up to their order. *)
Theorem build_ignores_iteration_order b b' :
  same_up_to_order b b' ->
  NoDup (map table_slot (descriptor_table_handles b)) ->
  match build b, build b' with
  | Some (bind_group, log), Some (bind_group', log') =>
      bind_group = bind_group' /\ log ≡ₚ log'
  | None, None => True
  | _, _ => False
  end.
Proof.
  intros Hsame Hnd.
  destruct (build b) as [[bind_group log]|] eqn:Hb;
    destruct (build b') as [[bind_group' log']|] eqn:Hb'.
  - apply (build_up_to_order b b'); assumption.
  - assert (Hs : is_Some (build b')).
    { apply build_succeeds. apply (buildable_up_to_order b b' Hsame).
      apply build_succeeds. rewrite Hb. eexists. reflexivity. }
    rewrite Hb' in Hs. destruct Hs as [x Hx]. discriminate Hx.
  - assert (Hs : is_Some (build b)).
    { apply build_succeeds.
      apply (buildable_up_to_order b' b (same_up_to_order_sym _ _ Hsame)).
      apply build_succeeds. rewrite Hb'. eexists. reflexivity. }
    rewrite Hb in Hs. destruct Hs as [x Hx]. discriminate Hx.
  - exact I.
Qed.

(** The shadow pass with both declaration maps iterated backwards. *)
Definition shadow_pass_builder_reversed : D3D12BindGroupBuilder :=
  new_builder [("shadow_map"%string, {| idx := 0; type := UnorderedAccess |});
               ("lights"%string, {| idx := 5; type := ConstantBuffer |})]
              []
              [(7, 12288); (2, 8192)].

Lemma build_ignores_iteration_order_witness :
  match build shadow_pass_builder, build shadow_pass_builder_reversed with
  | Some (bind_group, log), Some (bind_group', log') =>
      bind_group = bind_group' /\ log ≡ₚ log'
  | None, None => True
  | _, _ => False
  end.
Proof.
  apply (build_ignores_iteration_order shadow_pass_builder shadow_pass_builder_reversed).
  - repeat split; apply perm_swap.
  - cbn. apply NoDup_cons. split; [|apply NoDup_singleton].
    intros Hin. apply list_elem_of_singleton in Hin. discriminate Hin.
Defined.

(** X15. [set_buffer] is [insert_or_assign]: [build] sees only the last
    buffer bound under a name, and bindings under different names can be
    made in either order. *)
Theorem set_buffer_last_binding_wins b name other buffer1 buffer2 :
  name <> other ->
  build (set_buffer name buffer2 (set_buffer name buffer1 b)) =
    build (set_buffer name buffer2 b) /\
  build (set_buffer name buffer1 (set_buffer other buffer2 b)) =
    build (set_buffer other buffer2 (set_buffer name buffer1 b)).
Proof.
  intros Hne. split; f_equal; unfold set_buffer, with_bound_buffers; cbn; f_equal.
  - apply insert_insert_eq.
  - apply insert_insert_ne. exact Hne.
Qed.

Definition probe_buffer : D3D12Buffer :=
  {| buffer_resource := {| GetGPUVirtualAddress := 262144 |} |}.

Lemma set_buffer_last_binding_wins_witness :
  build (set_buffer "lights" light_buffer
           (set_buffer "lights" probe_buffer shadow_pass_builder)) =
    build (set_buffer "lights" light_buffer shadow_pass_builder) /\
  build (set_buffer "lights" probe_buffer
           (set_buffer "shadow_map" light_buffer shadow_pass_builder)) =
    build (set_buffer "shadow_map" light_buffer
             (set_buffer "lights" probe_buffer shadow_pass_builder)).
Proof.
  apply (set_buffer_last_binding_wins shadow_pass_builder "lights" "shadow_map"
           probe_buffer light_buffer).
  discriminate.
Defined.

End BindGroupBuildTheorems.

(** ** Materials: what the builder gives the device *)

Module MaterialFacts.
Import Material.

Section WithDevice.

Variable Offset : Z -> Z -> Z.
Variable descriptor_size : Z.

Lemma update_descriptor_spec b calls entry :
  update_descriptor Offset descriptor_size b calls entry =
  if descriptor_ok b entry then Some (calls ++ entry_calls Offset descriptor_size b entry) else None.
Proof.
  destruct entry as [name d]. unfold update_descriptor, descriptor_ok, entry_calls, RX_ASSERT.
  cbn [fst snd].
  destruct (bound_buffers b !! name) as [buffer|]; [reflexivity|].
  destruct (bound_images b !! name) as [images|].
  - destruct (should_do_validation b); cbn; [|reflexivity].
    destruct (bool_decide (type d = CBV)); cbn; [reflexivity|].
    destruct (bool_decide (images = [])); reflexivity.
  - destruct (should_do_validation b); cbn; [reflexivity|].
    rewrite app_nil_r. reflexivity.
Qed.

Lemma update_loop_spec b calls l :
  BindGroup.for_each (update_descriptor Offset descriptor_size b) calls l =
  if forallb (descriptor_ok b) l
  then Some (calls ++ concat (map (entry_calls Offset descriptor_size b) l))
  else None.
Proof.
  revert calls. induction l as [|entry l IH]; intros calls.
  - cbn. rewrite app_nil_r. reflexivity.
  - cbn [BindGroup.for_each forallb map concat].
    rewrite update_descriptor_spec.
    destruct (descriptor_ok b entry); [|reflexivity].
    cbn [andb]. rewrite IH.
    destruct (forallb (descriptor_ok b) l); [|reflexivity].
    rewrite <- app_assoc. reflexivity.
Qed.

Lemma build_spec b :
  build Offset descriptor_size b =
  if forallb (descriptor_ok b) (descriptors b)
  then Some (concat (map (entry_calls Offset descriptor_size b) (descriptors b)))
  else None.
Proof. unfold build, update_descriptors. apply update_loop_spec. Qed.

Lemma build_calls b calls entry c :
  build Offset descriptor_size b = Some calls ->
  entry ∈ descriptors b -> c ∈ entry_calls Offset descriptor_size b entry -> c ∈ calls.
Proof.
  rewrite build_spec. destruct (forallb _ _); [|discriminate].
  intros H Hin Hc. injection H as <-.
  apply list_elem_of_In. apply in_concat. exists (entry_calls Offset descriptor_size b entry).
  split; [|apply list_elem_of_In; exact Hc].
  apply in_map. apply list_elem_of_In. exact Hin.
Qed.

Lemma each_image_lookup create_view (handle : Z) (images : list D3D12Image)
    (k : nat) (image : D3D12Image) :
  images !! k = Some image ->
  each_image Offset descriptor_size create_view handle images !! k =
  Some (create_view image (Nat.iter k (fun h => Offset h descriptor_size) handle)).
Proof.
  revert handle k. induction images as [|i images IH]; intros handle k Hk.
  - discriminate Hk.
  - destruct k as [|k].
    + injection Hk as ->. reflexivity.
    + cbn [each_image lookup list_lookup]. rewrite (IH _ k Hk).
      rewrite Nat.iter_succ_r. reflexivity.
Qed.

Lemma each_image_length create_view (handle : Z) (images : list D3D12Image) :
  length (each_image Offset descriptor_size create_view handle images) = length images.
Proof.
  revert handle. induction images as [|i images IH]; intros handle; [reflexivity|].
  cbn. rewrite IH. reflexivity.
Qed.

(** The loop reads the two maps only under declared names. *)
Lemma build_ext b b' :
  descriptors b' = descriptors b ->
  should_do_validation b' = should_do_validation b ->
  (forall name, name ∈ map fst (descriptors b) ->
     bound_buffers b' !! name = bound_buffers b !! name /\
     (bound_buffers b !! name = None -> bound_images b' !! name = bound_images b !! name)) ->
  build Offset descriptor_size b' = build Offset descriptor_size b.
Proof.
  intros Hd Hv Hsame. rewrite !build_spec, Hd.
  assert (Hall : forall entry, entry ∈ descriptors b ->
            descriptor_ok b' entry = descriptor_ok b entry /\
            entry_calls Offset descriptor_size b' entry = entry_calls Offset descriptor_size b entry).
  { intros [name d] Hin. unfold descriptor_ok, entry_calls. cbn [fst snd].
    destruct (Hsame name) as [Hb Hi].
    { apply list_elem_of_fmap. exists (name, d). auto. }
    rewrite Hb, Hv. destruct (bound_buffers b !! name); [auto|].
    rewrite Hi by reflexivity. auto. }
  clear Hd Hsame. revert Hall. generalize (descriptors b). intros l Hall.
  induction l as [|entry l IH]; [reflexivity|].
  cbn [forallb map concat].
  destruct (Hall entry) as [-> ->]; [left|].
  assert (IH' := IH (fun e He => Hall e (list_elem_of_further _ _ _ He))).
  destruct (descriptor_ok b entry); [|reflexivity]. cbn [andb].
  destruct (forallb (descriptor_ok b') l), (forallb (descriptor_ok b) l);
    try discriminate IH'; [|reflexivity].
  injection IH' as ->. reflexivity.
Qed.

End WithDevice.

End MaterialFacts.

Module MaterialTheorems.
Import Material MaterialFacts.

Lemma declared_name_is_found b name d :
  (name, d) ∈ descriptors b -> find_descriptor b name = true.
Proof.
  intros Hin. unfold find_descriptor. apply bool_decide_eq_true.
  apply list_elem_of_fmap. exists (name, d). auto.
Qed.

(** X16. The material builder hands an image to the device: for a
    declared shader-resource descriptor with no buffer under its name,
    [set_image] passes both validations and records the image, and every
    [build] that returns has created a texture view of that image at the
    descriptor's handle. *)
Theorem set_image_creates_the_view Offset descriptor_size b name d image :
  (name, d) ∈ descriptors b ->
  type d = SRV ->
  bound_buffers b !! name = None ->
  exists b',
    set_image name image b = Some b' /\
    bound_images b' !! name = Some [image] /\
    forall calls, build Offset descriptor_size b' = Some calls ->
                  image_srv image (handle d) ∈ calls.
Proof.
  intros Hin Hty Hnone.
  exists (with_bound_images b (<[name := [image]]> (bound_images b))).
  split.
  { unfold set_image, set_image_array, RX_ASSERT.
    rewrite (declared_name_is_found _ _ _ Hin), orb_true_r. cbn.
    rewrite orb_true_r. reflexivity. }
  split; [apply lookup_insert_eq|].
  intros calls Hbuild.
  apply (build_calls _ _ _ _ (name, d) _ Hbuild); [exact Hin|].
  unfold entry_calls. cbn [fst snd with_bound_images bound_buffers bound_images].
  rewrite Hnone, lookup_insert_eq. unfold image_views. rewrite Hty.
  apply list_elem_of_singleton. reflexivity.
Qed.

Definition albedo_texture : D3D12Image :=
  {| image_resource := {| BindGroup.GetGPUVirtualAddress := 4096 |}; format := 28 |}.

Definition normal_texture : D3D12Image :=
  {| image_resource := {| BindGroup.GetGPUVirtualAddress := 8192 |}; format := 28 |}.

Definition material_parameters : D3D12Buffer :=
  {| buffer_resource := {| BindGroup.GetGPUVirtualAddress := 65536 |}; size := 256 |}.

(** A material with a constant buffer and a table of textures; validation
    is on. *)
Definition standard_material : D3D12MaterialBuilder :=
  {| descriptors := [("parameters"%string,
                      {| type := CBV; handle := 1000; num_elements := 1; element_size := 256 |});
                     ("textures"%string,
                      {| type := SRV; handle := 1032; num_elements := 2; element_size := 0 |})];
     should_do_validation := true;
     bound_buffers := ∅;
     bound_images := ∅ |}.

(** The same material once its parameter buffer is bound. *)
Definition parameterised_material : D3D12MaterialBuilder :=
  with_bound_buffers standard_material {["parameters"%string := material_parameters]}.

Lemma set_image_creates_the_view_witness :
  exists b' calls,
    set_image "textures" albedo_texture parameterised_material = Some b' /\
    bound_images b' !! "textures"%string = Some [albedo_texture] /\
    build (fun h d => h + d) 32 b' = Some calls /\
    image_srv albedo_texture 1032 ∈ calls.
Proof.
  destruct (set_image_creates_the_view (fun h d => h + d) 32 parameterised_material
              "textures"
              {| type := SRV; handle := 1032; num_elements := 2; element_size := 0 |}
              albedo_texture)
    as (b' & Hset & Himages & Hcalls);
    [right; left|reflexivity|reflexivity|].
  destruct (build (fun h d => h + d) 32 b') as [calls|] eqn:Hbuild.
  - exists b', calls. split; [exact Hset|]. split; [exact Himages|].
    split; [exact Hbuild|]. apply (Hcalls calls eq_refl).
  - vm_compute in Hset. injection Hset as <-. vm_compute in Hbuild. discriminate Hbuild.
Defined.

(** X17. An image array fills consecutive descriptors: when
    [set_image_array] has recorded [images] under a declared name without
    a buffer and [build] returns, the [k]-th image has its view at the
    descriptor's handle advanced [k] times by the device's descriptor
    size, a shader-resource view or an unordered-access view according to
    the descriptor's type; for a constant-buffer descriptor this can only
    be a build without validation. *)
Theorem image_array_fills_consecutive_descriptors
    Offset descriptor_size b b' name d images calls :
  (name, d) ∈ descriptors b ->
  bound_buffers b !! name = None ->
  set_image_array name images b = Some b' ->
  build Offset descriptor_size b' = Some calls ->
  forall k image, images !! k = Some image ->
    let h := Nat.iter k (fun h => Offset h descriptor_size) (handle d) in
    match type d with
    | SRV => image_srv image h ∈ calls
    | UAV => image_uav image h ∈ calls
    | CBV => should_do_validation b = false
    end.
Proof.
  intros Hin Hnone Hset Hbuild k image Hk h.
  unfold set_image_array, RX_ASSERT in Hset.
  destruct (negb (should_do_validation b) || find_descriptor b name); [|discriminate Hset].
  destruct (negb (should_do_validation b) || negb (bool_decide (images = [])));
    [|discriminate Hset].
  injection Hset as <-.
  assert (Hcalls : forall c, c ∈ image_views Offset descriptor_size images d -> c ∈ calls).
  { intros c Hc. apply (build_calls _ _ _ _ (name, d) _ Hbuild); [exact Hin|].
    unfold entry_calls. cbn [fst snd with_bound_images bound_buffers bound_images].
    rewrite Hnone, lookup_insert_eq. exact Hc. }
  unfold image_views in Hcalls.
  destruct (type d) eqn:Hty.
  - rewrite build_spec in Hbuild.
    destruct (forallb _ _) eqn:Hall; [|discriminate Hbuild].
    rewrite forallb_forall in Hall.
    specialize (Hall (name, d) (proj1 (list_elem_of_In _ _) Hin)).
    unfold descriptor_ok in Hall.
    cbn [fst snd with_bound_images bound_buffers bound_images should_do_validation] in Hall.
    rewrite Hnone, lookup_insert_eq, Hty in Hall.
    destruct (should_do_validation b); [|reflexivity].
    cbn in Hall. discriminate Hall.
  - apply Hcalls. apply (list_elem_of_lookup_2 _ k).
    apply each_image_lookup. exact Hk.
  - apply Hcalls. apply (list_elem_of_lookup_2 _ k).
    apply each_image_lookup. exact Hk.
Qed.

Lemma image_array_fills_consecutive_descriptors_witness :
  exists b' calls,
    set_image_array "textures" [albedo_texture; normal_texture] parameterised_material
      = Some b' /\
    build (fun h d => h + d) 32 b' = Some calls /\
    image_srv normal_texture 1064 ∈ calls.
Proof.
  eexists. eexists. split; [reflexivity|]. split; [vm_compute; reflexivity|].
  apply (image_array_fills_consecutive_descriptors (fun h d => h + d) 32
           parameterised_material _ "textures"
           {| type := SRV; handle := 1032; num_elements := 2; element_size := 0 |}
           [albedo_texture; normal_texture] _ ltac:(right; left) eq_refl eq_refl eq_refl
           1%nat normal_texture eq_refl).
Defined.

(** X18. A name that the material does not declare is caught only when
    validating: with validation on, all three setters stop at their
    assertion; with validation off, [set_buffer] records the buffer and
    [build] does exactly what it did without it. *)
Theorem undeclared_name_is_caught_only_when_validating
    Offset descriptor_size b name buffer :
  name ∉ map fst (descriptors b) ->
  if should_do_validation b
  then set_buffer name buffer b = None /\
       (forall image, set_image name image b = None) /\
       (forall images, set_image_array name images b = None)
  else exists b', set_buffer name buffer b = Some b' /\
                  bound_buffers b' !! name = Some buffer /\
                  build Offset descriptor_size b' = build Offset descriptor_size b.
Proof.
  intros Hnot.
  assert (Hfind : find_descriptor b name = false)
    by (apply bool_decide_eq_false; exact Hnot).
  unfold set_buffer, set_image, set_image_array, RX_ASSERT. rewrite Hfind.
  destruct (should_do_validation b) eqn:Hv; cbn.
  - auto.
  - eexists. split; [reflexivity|]. split; [apply lookup_insert_eq|].
    apply build_ext; [reflexivity|reflexivity|].
    intros n Hn. cbn [with_bound_buffers bound_buffers bound_images].
    split; [|reflexivity].
    apply lookup_insert_ne. intros ->. contradiction.
Qed.

Lemma undeclared_name_is_caught_only_when_validating_witness :
  set_buffer "lights" material_parameters standard_material = None /\
  (forall image, set_image "lights" image standard_material = None) /\
  (forall images, set_image_array "lights" images standard_material = None).
Proof.
  apply (undeclared_name_is_caught_only_when_validating (fun h d => h + d) 32
           standard_material "lights" material_parameters).
  cbn. intros Hin.
  repeat (apply elem_of_cons in Hin as [Hin|Hin]; [discriminate Hin|]).
  inversion Hin.
Defined.

(** X19. A buffer hides the images bound under the same name:
    [update_descriptors] looks for a buffer first, so once a buffer is
    bound under [name], binding an image array under it, before or after,
    changes nothing of what [build] does. *)
Theorem buffer_hides_images_of_the_same_name
    Offset descriptor_size b name buffer images b1 b2 b3 b4 :
  set_buffer name buffer b = Some b1 ->
  set_image_array name images b1 = Some b2 ->
  set_image_array name images b = Some b3 ->
  set_buffer name buffer b3 = Some b4 ->
  build Offset descriptor_size b2 = build Offset descriptor_size b1 /\
  build Offset descriptor_size b4 = build Offset descriptor_size b1.
Proof.
  unfold set_buffer, set_image_array, RX_ASSERT. intros H1 H2 H3 H4.
  destruct (negb (should_do_validation b) || find_descriptor b name); [|discriminate H1].
  injection H1 as <-.
  destruct (negb (should_do_validation b) || negb (bool_decide (images = [])));
    [|discriminate H3].
  injection H3 as <-.
  cbn [with_bound_buffers with_bound_images should_do_validation descriptors
       bound_buffers bound_images find_descriptor] in H2, H4.
  destruct (negb (should_do_validation b) || _) in H2; [|discriminate H2].
  destruct (negb (should_do_validation b) || _) in H2; [|discriminate H2].
  injection H2 as <-.
  destruct (negb (should_do_validation b) || _) in H4; [|discriminate H4].
  injection H4 as <-.
  split; (apply build_ext; [reflexivity|reflexivity|]); intros n Hn;
    cbn [with_bound_buffers with_bound_images bound_buffers bound_images];
    (split; [reflexivity|]); intros Hnone;
    (destruct (decide (n = name)) as [->|Hne];
       [rewrite lookup_insert_eq in Hnone; discriminate Hnone
       |apply lookup_insert_ne; congruence]).
Qed.

Lemma buffer_hides_images_of_the_same_name_witness :
  exists b1 b2 b3 b4 calls,
    set_buffer "textures" material_parameters parameterised_material = Some b1 /\
    set_image_array "textures" [albedo_texture] b1 = Some b2 /\
    set_image_array "textures" [albedo_texture] parameterised_material = Some b3 /\
    set_buffer "textures" material_parameters b3 = Some b4 /\
    build (fun h d => h + d) 32 b1 = Some calls /\
    length calls = 2%nat /\
    build (fun h d => h + d) 32 b2 = Some calls /\
    build (fun h d => h + d) 32 b4 = Some calls.
Proof.
  eexists _, _, _, _, _.
  split; [reflexivity|]. split; [reflexivity|]. split; [reflexivity|].
  split; [reflexivity|]. split; [vm_compute; reflexivity|]. split; [reflexivity|].
  destruct (buffer_hides_images_of_the_same_name (fun h d => h + d) 32
              parameterised_material "textures" material_parameters [albedo_texture]
              _ _ _ _ eq_refl eq_refl eq_refl eq_refl) as [H2 H4].
  split; [rewrite H2|rewrite H4]; vm_compute; reflexivity.
Defined.

(** X20. [build] stops at an assertion only when validating: it returns
    exactly when every declared descriptor has a buffer bound, or
    validation is off, or it has a non-empty image array bound and is not
    a constant-buffer descriptor. *)
Theorem material_build_returns_iff Offset descriptor_size b :
  is_Some (build Offset descriptor_size b) <->
  forall name d, (name, d) ∈ descriptors b ->
    is_Some (bound_buffers b !! name) \/
    should_do_validation b = false \/
    exists images, bound_images b !! name = Some images /\ images <> [] /\ type d <> CBV.
Proof.
  rewrite build_spec. split.
  - intros Hsome name d Hin.
    destruct (forallb _ _) eqn:Hall; [|destruct Hsome as [x Hx]; discriminate Hx].
    rewrite forallb_forall in Hall.
    specialize (Hall (name, d) (proj1 (list_elem_of_In _ _) Hin)).
    unfold descriptor_ok in Hall. cbn [fst snd] in Hall.
    destruct (bound_buffers b !! name) as [buffer|]; [left; eexists; reflexivity|].
    right. destruct (should_do_validation b); [right|left; reflexivity].
    destruct (bound_images b !! name) as [images|]; [|discriminate Hall].
    exists images. cbn in Hall. apply andb_true_iff in Hall as [H1 H2].
    apply negb_true_iff, bool_decide_eq_false in H1, H2. auto.
  - intros Hall.
    assert (Hok : forallb (descriptor_ok b) (descriptors b) = true).
    { apply forallb_forall. intros [name d] Hin.
      apply list_elem_of_In in Hin. unfold descriptor_ok. cbn [fst snd].
      destruct (Hall name d Hin) as [[buffer ->]|[->|(images & -> & Hne & Hty)]].
      - reflexivity.
      - destruct (bound_buffers b !! name); [reflexivity|].
        destruct (bound_images b !! name); reflexivity.
      - destruct (bound_buffers b !! name); [reflexivity|].
        apply orb_true_iff. right. apply andb_true_iff.
        split; apply negb_true_iff, bool_decide_eq_false; assumption. }
    rewrite Hok. eexists. reflexivity.
Qed.

(** X21. A material whose declared descriptors all have a buffer bound:
    [build] returns, validating or not, and creates exactly one view per
    declared descriptor, at that descriptor's handle, in iteration
    order. *)
Theorem buffers_get_one_view_each Offset descriptor_size b :
  (forall name d, (name, d) ∈ descriptors b -> is_Some (bound_buffers b !! name)) ->
  exists calls,
    build Offset descriptor_size b = Some calls /\
    map DestDescriptor_of calls = map (fun entry => handle entry.2) (descriptors b).
Proof.
  intros Hall. rewrite build_spec.
  assert (H : forallb (descriptor_ok b) (descriptors b) = true /\
              map DestDescriptor_of
                (concat (map (entry_calls Offset descriptor_size b) (descriptors b))) =
              map (fun entry => handle entry.2) (descriptors b)).
  { revert Hall. generalize (descriptors b). intros l Hall.
    induction l as [|[name d] l IH]; [split; reflexivity|].
    destruct IH as [IH1 IH2].
    { intros n' d' Hin. apply (Hall n' d'). right. exact Hin. }
    destruct (Hall name d) as [buffer Hb]; [left|].
    cbn [forallb map concat]. rewrite map_app, IH1, IH2.
    unfold descriptor_ok, entry_calls. cbn [fst snd]. rewrite Hb.
    split; [reflexivity|]. cbn [map app]. f_equal.
    unfold buffer_view. destruct (type d); reflexivity. }
  destruct H as [-> H]. eexists. split; [reflexivity|exact H].
Qed.

(** A compute material with two buffers. *)
Definition culling_material : D3D12MaterialBuilder :=
  {| descriptors := [("objects"%string,
                      {| type := SRV; handle := 2000; num_elements := 512; element_size := 64 |});
                     ("visible"%string,
                      {| type := UAV; handle := 2032; num_elements := 512; element_size := 4 |})];
     should_do_validation := true;
     bound_buffers := {["objects"%string := material_parameters;
                        "visible"%string := material_parameters]};
     bound_images := ∅ |}.

Lemma buffers_get_one_view_each_witness :
  exists calls,
    build (fun h d => h + d) 32 culling_material = Some calls /\
    map DestDescriptor_of calls = [2000; 2032].
Proof.
  apply (buffers_get_one_view_each (fun h d => h + d) 32 culling_material).
  intros name d Hin. cbn in Hin.
  repeat (apply elem_of_cons in Hin as [Hin|Hin];
          [injection Hin as -> ->; eexists; reflexivity|]).
  inversion Hin.
Defined.

End MaterialTheorems.

(** ** The render device: more of its synchronisation *)

Module DeviceRunsFacts.
Import RenderDevice RenderDeviceSync RenderDeviceSyncFacts DeviceRuns.

Section WithConstants.
Variable c : Z.

Lemma run_app (a1 a2 : list Action) (s : State) :
  run c (a1 ++ a2) s =
  match run c a1 s with
  | Some s1 => run c a2 s1
  | None => None
  end.
Proof.
  revert s. induction a1 as [|a a1 IH]; intros s; [reflexivity|].
  cbn [run app]. destruct (step c a s); [apply IH|reflexivity].
Qed.

Lemma reachable_lists_inv n actions s :
  run c actions (initial n) = Some s -> lists_inv s.
Proof.
  intros Hrun.
  apply (run_invariant c lists_inv (lists_inv_step c) actions (initial n) s Hrun).
  apply lists_inv_initial.
Qed.

(** With the completion thread at the top of its loop, going through the
    queue moves every list in flight to the done queue, in order. *)
Lemma worker_drains_run (l : list (Fence * CommandList)) (s : State) :
  command_completion_thread s = Polling ->
  in_flight_command_lists s = l ->
  exists s',
    run c (worker_drains l) s = Some s' /\
    in_flight_command_lists s' = [] /\
    command_completion_thread s' = Polling /\
    done_command_lists s' = done_command_lists s ++ map snd l /\
    main_thread s' = main_thread s /\
    submitted (events s') = submitted (events s) /\
    completed (events s') = completed (events s).
Proof.
  revert s. induction l as [|[fence cmds] l IH]; intros s Hpoll Hl.
  - exists s. cbn. rewrite app_nil_r. repeat split; reflexivity || assumption.
  - unfold worker_drains. cbn [map concat app run step].
    unfold worker_pop. rewrite Hpoll, Hl.
    unfold worker_wait_returns. cbn [with_queues command_completion_thread].
    match goal with |- context [run c _ ?s1] =>
      destruct (IH s1) as (s' & Hrun & H1 & H2 & H3 & H4 & H5 & H6); [reflexivity|reflexivity|]
    end.
    exists s'. split; [exact Hrun|]. split; [exact H1|]. split; [exact H2|].
    cbn in H3, H4, H5, H6.
    split; [rewrite H3, <- app_assoc; reflexivity|]. split; [exact H4|].
    rewrite submitted_app in H5. rewrite completed_app in H6.
    cbn in H5, H6. rewrite app_nil_r in H5, H6. auto.
Qed.

End WithConstants.

End DeviceRunsFacts.

Module DeviceRunsTheorems.
Import RenderDevice RenderDeviceSync RenderDeviceSyncFacts DeviceRuns DeviceRunsFacts.

(** X22. Every submitted command list gets its completion functions run:
    from any state that a run of the device reaches with the render thread
    outside [begin_frame], once the completion thread has gone through its
    queue (its waits return after two seconds at the latest, whatever the
    GPU does), the next [begin_frame] has run the completion functions of
    every list submitted so far, in submission order. *)
Theorem every_submitted_list_completes (c : Z) (n : nat) (actions : list Action) (s : State) :
  run c actions (initial n) = Some s ->
  main_thread s = Running ->
  exists s',
    forallb of_completion_thread (worker_catches_up s) = true /\
    run c (worker_catches_up s ++ [BeginFrame]) s = Some s' /\
    submitted (events s') = submitted (events s) /\
    completed (events s') = submitted (events s).
Proof.
  intros Hrun Hmain.
  assert (Hdrains : forall l, forallb of_completion_thread (worker_drains l) = true).
  { intros l. induction l as [|p l IH]; [reflexivity|exact IH]. }
  assert (Hcatch : exists s1,
            run c (worker_catches_up s) s = Some s1 /\
            in_flight_command_lists s1 = [] /\
            command_completion_thread s1 = Polling /\
            main_thread s1 = Running /\
            submitted (events s1) = submitted (events s)).
  { unfold worker_catches_up.
    destruct (command_completion_thread s) as [|[fence cmds]] eqn:Hw.
    - destruct (worker_drains_run c _ s Hw eq_refl) as (s1 & H & H1 & H2 & _ & H4 & H5 & _).
      exists s1. rewrite H4. auto.
    - cbn [run step]. unfold worker_wait_returns. rewrite Hw.
      match goal with |- context [run c _ ?s0] =>
        destruct (worker_drains_run c (in_flight_command_lists s) s0 eq_refl eq_refl)
          as (s1 & H & H1 & H2 & _ & H4 & H5 & _)
      end.
      exists s1. cbn in H4, H5. rewrite submitted_app in H5. cbn in H5.
      rewrite app_nil_r in H5. rewrite H4. auto. }
  destruct Hcatch as (s1 & Hrun1 & Hfl & Hw1 & Hmain1 & Hsub1).
  assert (Hinv : lists_inv s1).
  { apply (reachable_lists_inv c n (actions ++ worker_catches_up s)).
    rewrite run_app, Hrun. exact Hrun1. }
  destruct Hinv as [Horder _ _ _ _ _].
  rewrite Hfl, Hw1 in Horder. cbn in Horder. rewrite !app_nil_r in Horder.
  eexists. split.
  { unfold worker_catches_up. destruct (command_completion_thread s); apply Hdrains. }
  rewrite run_app, Hrun1. cbn [run step]. unfold begin_frame_enter. rewrite Hmain1.
  split; [reflexivity|]. cbn.
  rewrite submitted_app, completed_app, submitted_completions, completed_completions.
  rewrite app_nil_r, <- Horder. auto.
Qed.

Lemma every_submitted_list_completes_witness :
  exists s s',
    run 1 [Render "scene"; BeginFrame; FrameSlotFree; EndFrame] (initial 2) = Some s /\
    run 1 (worker_catches_up s ++ [BeginFrame]) s = Some s' /\
    completed (events s') = submitted (events s).
Proof.
  destruct (run 1 [Render "scene"; BeginFrame; FrameSlotFree; EndFrame] (initial 2))
    as [s|] eqn:Hrun; [|vm_compute in Hrun; discriminate Hrun].
  destruct (every_submitted_list_completes 1 2 _ s Hrun) as (s' & _ & H1 & _ & H2).
  { vm_compute in Hrun. injection Hrun as <-. reflexivity. }
  exists s, s'. auto.
Defined.

End DeviceRunsTheorems.

Module DeviceStepFacts.
Import RenderDevice RenderDeviceSync RenderDeviceSyncFacts DeviceRuns DeviceRunsFacts.

Section WithConstants.
Variable c : Z.

(** [submit_command_list] has a next state only with an empty fence pool,
    and then takes a new fence. *)
Lemma submit_command_list_some commands s s' :
  submit_command_list c commands s = Some s' ->
  let fence := CommandListFence (created_fences s) in
  command_list_done_fences s = [] /\
  command_list_done_fences s' = [] /\
  created_fences s' = S (created_fences s) /\
  events s' = events s ++ [Submitted commands fence] /\
  direct_command_queue s' =
    direct_command_queue s ++ [ExecuteCommandLists commands; Signal fence c] /\
  frame_fence_values s' = frame_fence_values s /\
  main_thread s' = main_thread s /\
  GetCompletedValue s' = GetCompletedValue s /\
  GetCurrentBackBufferIndex s' = GetCurrentBackBufferIndex s /\
  num_frames s' = num_frames s.
Proof.
  unfold submit_command_list. intros H. cbv zeta in H.
  destruct (command_list_done_fences (enqueue (ExecuteCommandLists commands) s))
    as [|f pool] eqn:Hpool.
  - cbn in Hpool. cbn in H. injection H as <-. cbn. rewrite <- app_assoc.
    repeat split; first [exact Hpool | reflexivity].
  - unfold get_next_command_list_done_fence in H.
    rewrite dereference_end in H. discriminate H.
Qed.

(** What a step does to the render thread's position, the fence values of
    the frame slots, and the GPU side. *)
Definition device_fields (s s' : State) (thread : MainThread) (values : list Z)
    (completed : Fence -> Z) (back_buffer : nat) (queue : list QueueOp) : Prop :=
  main_thread s' = thread /\
  frame_fence_values s' = values /\
  GetCompletedValue s' = completed /\
  GetCurrentBackBufferIndex s' = back_buffer /\
  direct_command_queue s' = queue /\
  num_frames s' = num_frames s.

Definition fence_fields (s s' : State) (submissions : list Fence) : Prop :=
  command_list_done_fences s' = [] /\
  created_fences s' = (created_fences s + length submissions)%nat /\
  submitted_fences (events s') = submitted_fences (events s) ++ submissions.

Lemma submitted_fences_app evs new :
  submitted_fences (evs ++ new) = submitted_fences evs ++ submitted_fences new.
Proof. unfold submitted_fences. apply omap_app. Qed.

Lemma step_device a s s' :
  step c a s = Some s' ->
  match a with
  | Render name =>
      let fence := CommandListFence (created_fences s) in
      main_thread s = Running /\
      fence_fields s s' [fence] /\
      device_fields s s' Running (frame_fence_values s) (GetCompletedValue s)
        (GetCurrentBackBufferIndex s)
        (direct_command_queue s ++
           [ExecuteCommandLists (new_list s name); Signal fence c])
  | BeginFrame =>
      main_thread s = Running /\
      (command_list_done_fences s = [] -> fence_fields s s' []) /\
      device_fields s s' (InWaitForFrame (GetCurrentBackBufferIndex s))
        (frame_fence_values s) (GetCompletedValue s) (GetCurrentBackBufferIndex s)
        (direct_command_queue s)
  | FrameSlotFree =>
      exists slot desired,
        let fence := CommandListFence (created_fences s) in
        let cmds := new_list s "Transition Swapchain to Render Target" in
        main_thread s = InWaitForFrame slot /\
        frame_fence_values s !! slot = Some desired /\
        desired <= GetCompletedValue s (FrameFence slot) /\
        fence_fields s s' [fence] /\
        device_fields s s' Running (<[slot := desired + 1]> (frame_fence_values s))
          (GetCompletedValue s) (GetCurrentBackBufferIndex s)
          (direct_command_queue s ++ [ExecuteCommandLists cmds; Signal fence c])
  | EndFrame =>
      exists value,
        let fence := CommandListFence (created_fences s) in
        let cmds := new_list s "Transition Swapchain to Presentable" in
        let slot := GetCurrentBackBufferIndex s in
        main_thread s = Running /\
        frame_fence_values s !! slot = Some value /\
        fence_fields s s' [fence] /\
        device_fields s s' Running (frame_fence_values s) (GetCompletedValue s)
          (S slot mod num_frames s)%nat
          (direct_command_queue s ++
             [ExecuteCommandLists cmds; Signal fence c; Signal (FrameFence slot) value])
  | GpuExecutes =>
      exists op rest,
        direct_command_queue s = op :: rest /\
        (command_list_done_fences s = [] -> fence_fields s s' []) /\
        device_fields s s' (main_thread s) (frame_fence_values s)
          (executed op (GetCompletedValue s)) (GetCurrentBackBufferIndex s) rest
  | WorkerPops | WorkerWaitReturns =>
      (command_list_done_fences s = [] -> fence_fields s s' []) /\
      device_fields s s' (main_thread s) (frame_fence_values s) (GetCompletedValue s)
        (GetCurrentBackBufferIndex s) (direct_command_queue s)
  end.
Proof.
  unfold device_fields, fence_fields. destruct a; cbn [step]; intros H.
  - unfold render in H. destruct (main_thread s) eqn:Hmain; [|discriminate H].
    cbn [create_render_command_list] in H.
    apply submit_command_list_some in H
      as (_ & Hpool & Hfences & Hev & Hq & Hv & Hm & Hc & Hb & Hn).
    cbn in Hfences, Hev, Hq, Hv, Hm, Hc, Hb, Hn. unfold new_list. cbv zeta.
    rewrite Hpool, Hfences, Hev, Hq, Hv, Hm, Hc, Hb, Hn, Hmain, submitted_fences_app.
    cbn. repeat split; lia.
  - unfold begin_frame_enter in H. destruct (main_thread s); [|discriminate H].
    injection H as <-. cbn. rewrite submitted_fences_app.
    assert (Hnone : forall l, submitted_fences (map CompletionFunctionsExecuted l) = []).
    { intros l. induction l as [|x l IH]; [reflexivity|exact IH]. }
    rewrite Hnone, app_nil_r. repeat split; try reflexivity; [assumption|lia].
  - unfold begin_frame_proceed in H.
    destruct (main_thread s) as [|slot] eqn:Hmain; [discriminate H|].
    unfold wait_for_frame in H.
    destruct (frame_fence_values s !! slot) as [desired|] eqn:Hvalue; [|discriminate H].
    destruct (Z.leb_spec desired (GetCompletedValue s (FrameFence slot))) as [Hle|Hlt];
      [|discriminate H].
    cbn [create_render_command_list] in H.
    apply submit_command_list_some in H
      as (_ & Hpool & Hfences & Hev & Hq & Hv & Hm & Hc & Hb & Hn).
    cbn in Hfences, Hev, Hq, Hv, Hm, Hc, Hb, Hn. unfold new_list.
    exists slot, desired. cbv zeta.
    rewrite Hpool, Hfences, Hev, Hq, Hv, Hm, Hc, Hb, Hn, !submitted_fences_app.
    cbn. rewrite app_nil_r. repeat split; first [assumption | lia].
  - unfold end_frame in H. destruct (main_thread s) eqn:Hmain; [|discriminate H].
    cbn [create_render_command_list] in H.
    destruct (submit_command_list c _ _) as [s2|] eqn:Hsubmit; [|discriminate H].
    apply submit_command_list_some in Hsubmit
      as (_ & Hpool & Hfences & Hev & Hq & Hv & Hm & Hc & Hb & Hn).
    cbn in Hfences, Hev, Hq, Hv, Hm, Hc, Hb, Hn.
    cbn [with_main GetCurrentBackBufferIndex] in H.
    destruct (frame_fence_values s2 !! GetCurrentBackBufferIndex s) as [value|] eqn:Hvalue;
      [|discriminate H].
    injection H as <-. exists value. cbv zeta. cbn. unfold new_list.
    rewrite Hpool, Hfences, Hev, Hq, Hm, Hc, Hb, Hn, Hmain, !submitted_fences_app,
      <- !app_assoc.
    rewrite Hv in Hvalue.
    repeat split; first [assumption | lia | reflexivity].
  - unfold gpu_execute in H.
    destruct (direct_command_queue s) as [|op rest]; [discriminate H|].
    exists op, rest. split; [reflexivity|].
    destruct op as [cmds|fence value]; injection H as <-; cbn;
      repeat split; first [assumption | lia | rewrite app_nil_r; reflexivity].
  - unfold worker_pop in H.
    destruct (command_completion_thread s); [|discriminate H].
    destruct (in_flight_command_lists s) as [|cur_pair rest]; injection H as <-;
      cbn; repeat split; first [assumption | lia | rewrite app_nil_r; reflexivity].
  - unfold worker_wait_returns in H.
    destruct (command_completion_thread s) as [|[fence cmds]]; [discriminate H|].
    injection H as <-. cbn. rewrite submitted_fences_app. cbn.
    repeat split; first [assumption | lia | rewrite app_nil_r; reflexivity].
Qed.

End WithConstants.

End DeviceStepFacts.

Module DeviceInvariants.
Import RenderDevice RenderDeviceSync RenderDeviceSyncFacts DeviceRuns DeviceRunsFacts
  DeviceStepFacts.

Section WithConstants.
Variable c : Z.

(** The fence of a frame slot never gets ahead of the slot's fence value:
    neither what it has completed nor what the queue still holds for it. *)
Definition frame_fences_bounded (s : State) : Prop :=
  forall slot,
    (forall d, frame_fence_values s !! slot = Some d ->
               GetCompletedValue s (FrameFence slot) <= d) /\
    (forall v, Signal (FrameFence slot) v ∈ direct_command_queue s ->
               exists d, frame_fence_values s !! slot = Some d /\ v <= d).

Lemma frame_fences_bounded_initial n : frame_fences_bounded (initial n).
Proof.
  intros slot. split.
  - intros d Hd. cbn in *. apply lookup_replicate in Hd as [-> _]. lia.
  - intros v Hin. cbn in Hin. inversion Hin.
Qed.

Lemma raised_value (values : list Z) (slot0 slot : nat) (d0 : Z) :
  values !! slot0 = Some d0 ->
  (forall d', <[slot0 := d0 + 1]> values !! slot = Some d' ->
     exists d, values !! slot = Some d /\ d <= d') /\
  (forall d, values !! slot = Some d ->
     exists d', <[slot0 := d0 + 1]> values !! slot = Some d' /\ d <= d').
Proof.
  intros H0. destruct (decide (slot = slot0)) as [->|Hne].
  - rewrite list_lookup_insert_eq by (apply lookup_lt_Some in H0; exact H0).
    split.
    + intros d' Hd'. injection Hd' as <-. exists d0. split; [exact H0|lia].
    + intros d Hd. rewrite H0 in Hd. injection Hd as <-. eexists. split; [reflexivity|lia].
  - rewrite list_lookup_insert_ne by congruence.
    split; intros d Hd; exists d; split; auto; lia.
Qed.

Lemma frame_fences_bounded_step a s s' :
  step c a s = Some s' -> frame_fences_bounded s -> frame_fences_bounded s'.
Proof.
  intros Hstep Hinv. apply step_device in Hstep. unfold device_fields in Hstep.
  destruct a.
  - destruct Hstep as (_ & _ & _ & Hv & Hc & _ & Hq & _).
    intros slot. destruct (Hinv slot) as [H1 H2]. rewrite Hv, Hc, Hq. split; [exact H1|].
    intros v Hin. apply elem_of_app in Hin as [Hin|Hin]; [apply (H2 v Hin)|].
    repeat (apply elem_of_cons in Hin as [Hin|Hin]; [discriminate Hin|]). inversion Hin.
  - destruct Hstep as (_ & _ & _ & Hv & Hc & _ & Hq & _).
    intros slot. rewrite Hv, Hc, Hq. apply Hinv.
  - destruct Hstep as (slot0 & d0 & _ & Hd0 & _ & _ & _ & Hv & Hc & _ & Hq & _).
    intros slot. destruct (Hinv slot) as [H1 H2]. rewrite Hv, Hc, Hq.
    destruct (raised_value _ slot0 slot d0 Hd0) as [Hback Hforth]. split.
    + intros d' Hd'. destruct (Hback d' Hd') as (d & Hd & Hle).
      specialize (H1 d Hd). lia.
    + intros v Hin. apply elem_of_app in Hin as [Hin|Hin].
      * destruct (H2 v Hin) as (d & Hd & Hle).
        destruct (Hforth d Hd) as (d' & Hd' & Hle'). exists d'. split; [exact Hd'|lia].
      * repeat (apply elem_of_cons in Hin as [Hin|Hin]; [discriminate Hin|]). inversion Hin.
  - destruct Hstep as (value & _ & Hvalue & _ & _ & Hv & Hc & _ & Hq & _).
    intros slot. destruct (Hinv slot) as [H1 H2]. rewrite Hv, Hc, Hq. split; [exact H1|].
    intros v Hin. apply elem_of_app in Hin as [Hin|Hin]; [apply (H2 v Hin)|].
    repeat (apply elem_of_cons in Hin as [Hin|Hin]; [try discriminate Hin|]);
      [|inversion Hin].
    injection Hin as -> ->. exists value. split; [exact Hvalue|lia].
  - destruct Hstep as (op & rest & Hqueue & _ & _ & Hv & Hc & _ & Hq & _).
    intros slot. destruct (Hinv slot) as [H1 H2]. rewrite Hv, Hc, Hq. split.
    + intros d Hd. destruct op as [cmds|fence value]; cbn [executed]; [apply (H1 d Hd)|].
      destruct (decide (fence = FrameFence slot)) as [->|Hne].
      * rewrite fn_lookup_insert.
        destruct (H2 value) as (d' & Hd' & Hle); [rewrite Hqueue; left|].
        rewrite Hd in Hd'. injection Hd' as <-. exact Hle.
      * rewrite fn_lookup_insert_ne by exact Hne. apply (H1 d Hd).
    + intros v Hin. apply (H2 v). rewrite Hqueue. right. exact Hin.
  - destruct Hstep as (_ & _ & Hv & Hc & _ & Hq & _).
    intros slot. rewrite Hv, Hc, Hq. apply Hinv.
  - destruct Hstep as (_ & _ & Hv & Hc & _ & Hq & _).
    intros slot. rewrite Hv, Hc, Hq. apply Hinv.
Qed.

Lemma reachable_frame_fences_bounded n actions s :
  run c actions (initial n) = Some s -> frame_fences_bounded s.
Proof.
  intros Hrun.
  apply (run_invariant c frame_fences_bounded frame_fences_bounded_step
           actions (initial n) s Hrun).
  apply frame_fences_bounded_initial.
Qed.

(** The fence pool is never filled, and the k-th submission takes the k-th
    fence made. *)
Definition fences_fresh (s : State) : Prop :=
  command_list_done_fences s = [] /\
  submitted_fences (events s) = map CommandListFence (seq 0 (created_fences s)).

Lemma fences_fresh_step a s s' :
  step c a s = Some s' -> fences_fresh s -> fences_fresh s'.
Proof.
  intros Hstep [Hpool Hfences]. apply step_device in Hstep.
  assert (Hsame : fence_fields s s' [] -> fences_fresh s').
  { intros (H1 & H2 & H3). split; [exact H1|].
    rewrite H3, H2, app_nil_r, Nat.add_0_r. exact Hfences. }
  assert (Hone : fence_fields s s' [CommandListFence (created_fences s)] ->
                 fences_fresh s').
  { intros (H1 & H2 & H3). split; [exact H1|].
    rewrite H3, H2, Hfences. cbn [length]. rewrite Nat.add_1_r, seq_S, map_app.
    reflexivity. }
  destruct a.
  - apply Hone, Hstep.
  - apply Hsame, Hstep, Hpool.
  - destruct Hstep as (slot & d & _ & _ & _ & Hf & _). apply Hone, Hf.
  - destruct Hstep as (v & _ & _ & Hf & _). apply Hone, Hf.
  - destruct Hstep as (op & rest & _ & Hf & _). apply Hsame, Hf, Hpool.
  - apply Hsame, Hstep, Hpool.
  - apply Hsame, Hstep, Hpool.
Qed.

(** The render thread inside a [wait_for_frame] that nothing can end: the
    slot's fence value is [d + 1], and neither the fence nor the queue has
    more than [d] for it. *)
Definition stuck (slot : nat) (d : Z) (s : State) : Prop :=
  main_thread s = InWaitForFrame slot /\
  frame_fence_values s !! slot = Some (d + 1) /\
  GetCompletedValue s (FrameFence slot) <= d /\
  forall v, Signal (FrameFence slot) v ∈ direct_command_queue s -> v <= d.

Lemma stuck_step slot d a s s' :
  stuck slot d s -> step c a s = Some s' ->
  in_the_background a = true /\ stuck slot d s'.
Proof.
  intros (Hmain & Hvalue & Hdone & Hqueue) Hstep.
  destruct (of_render_thread a) eqn:Hrender.
  { rewrite (waiting_thread_is_blocked c a s slot Hmain Hrender) in Hstep.
    discriminate Hstep. }
  destruct a; try discriminate Hrender.
  - rewrite (wait_for_frame_blocks c s slot (d + 1) Hmain Hvalue) in Hstep by lia.
    discriminate Hstep.
  - split; [reflexivity|].
    apply step_device in Hstep
      as (op & rest & Hq & _ & Hm & Hv & Hc & _ & Hq' & _).
    unfold stuck. rewrite Hm, Hv, Hc, Hq'. repeat split; try assumption.
    + destruct op as [cmds|fence value]; cbn [executed]; [exact Hdone|].
      destruct (decide (fence = FrameFence slot)) as [->|Hne].
      * rewrite fn_lookup_insert. apply Hqueue. rewrite Hq. left.
      * rewrite fn_lookup_insert_ne by exact Hne. exact Hdone.
    + intros v Hin. apply Hqueue. rewrite Hq. right. exact Hin.
  - split; [reflexivity|].
    apply step_device in Hstep as (_ & Hm & Hv & Hc & _ & Hq' & _).
    unfold stuck. rewrite Hm, Hv, Hc, Hq'. repeat split; assumption.
  - split; [reflexivity|].
    apply step_device in Hstep as (_ & Hm & Hv & Hc & _ & Hq' & _).
    unfold stuck. rewrite Hm, Hv, Hc, Hq'. repeat split; assumption.
Qed.

Lemma stuck_run slot d others s s' :
  stuck slot d s -> run c others s = Some s' ->
  forallb in_the_background others = true /\ stuck slot d s'.
Proof.
  revert s. induction others as [|a others IH]; intros s Hstuck Hrun.
  - injection Hrun as <-. auto.
  - cbn [run] in Hrun. destruct (step c a s) as [s1|] eqn:Hstep; [|discriminate Hrun].
    destruct (stuck_step slot d a s s1 Hstuck Hstep) as [Ha Hstuck1].
    destruct (IH s1 Hstuck1 Hrun) as [Hothers Hstuck'].
    cbn [forallb]. rewrite Ha, Hothers. auto.
Qed.

End WithConstants.

End DeviceInvariants.

Module DeviceInvariantsTheorems.
Import RenderDevice RenderDeviceSync RenderDeviceSyncFacts DeviceRuns DeviceRunsFacts
  DeviceStepFacts DeviceInvariants.

(** X23. Submissions never share a fence: in every run of the device the
    fence pool stays empty, so [get_next_command_list_done_fence] always
    takes its [CreateFence] branch, and the k-th submitted command list is
    paired with the k-th fence created; no fence is used twice. *)
Theorem every_submission_creates_its_fence (c : Z) (n : nat) (actions : list Action)
    (s : State) :
  run c actions (initial n) = Some s ->
  command_list_done_fences s = [] /\
  submitted_fences (events s) = map CommandListFence (seq 0 (created_fences s)) /\
  NoDup (submitted_fences (events s)) /\
  length (submitted (events s)) = created_fences s.
Proof.
  intros Hrun.
  assert (Hfresh : fences_fresh s).
  { apply (run_invariant c fences_fresh (fences_fresh_step c) actions (initial n) s Hrun).
    split; reflexivity. }
  destruct Hfresh as [Hpool Hfences].
  split; [exact Hpool|]. split; [exact Hfences|]. split.
  - rewrite Hfences. apply NoDup_fmap_2; [|apply NoDup_seq].
    intros x y Heq. injection Heq as ->. reflexivity.
  - assert (Hlen : length (submitted (events s)) = length (submitted_fences (events s))).
    { unfold submitted, submitted_fences. clear.
      induction (events s) as [|e evs IH]; [reflexivity|].
      destruct e; cbn; rewrite ?IH; reflexivity. }
    rewrite Hlen, Hfences, length_map, length_seq. reflexivity.
Qed.

Lemma every_submission_creates_its_fence_witness :
  exists s,
    run 1 [Render "scene"; BeginFrame; FrameSlotFree; EndFrame] (initial 2) = Some s /\
    command_list_done_fences s = [] /\
    submitted_fences (events s) = map CommandListFence (seq 0 (created_fences s)) /\
    NoDup (submitted_fences (events s)) /\
    length (submitted (events s)) = created_fences s.
Proof.
  destruct (run 1 [Render "scene"; BeginFrame; FrameSlotFree; EndFrame] (initial 2))
    as [s|] eqn:Hrun; [|vm_compute in Hrun; discriminate Hrun].
  exists s. split; [reflexivity|].
  apply (every_submission_creates_its_fence 1 2 _ s Hrun).
Defined.

(** X24. [begin_frame] twice without an [end_frame] in between blocks the
    render thread for good: from any state that a run reaches, after a
    complete [begin_frame] and the start of another, whatever happens next
    is a move of the GPU or of the completion thread, the render thread is
    still inside [wait_for_frame], and that wait cannot return. *)
Theorem begin_frame_twice_never_returns (c : Z) (n : nat)
    (actions others : list Action) (s s1 s2 : State) :
  run c actions (initial n) = Some s ->
  run c [BeginFrame; FrameSlotFree; BeginFrame] s = Some s1 ->
  run c others s1 = Some s2 ->
  forallb in_the_background others = true /\
  main_thread s2 = InWaitForFrame (GetCurrentBackBufferIndex s) /\
  step c FrameSlotFree s2 = None.
Proof.
  intros Hreach Hrun Hothers.
  pose proof (reachable_frame_fences_bounded c n actions s Hreach) as Hinv.
  cbn [run] in Hrun.
  destruct (step c BeginFrame s) as [sa|] eqn:Ha; [|discriminate Hrun].
  destruct (step c FrameSlotFree sa) as [sb|] eqn:Hb; [|discriminate Hrun].
  destruct (step c BeginFrame sb) as [sc|] eqn:Hc; [|discriminate Hrun].
  injection Hrun as <-.
  apply step_device in Ha as (_ & _ & Hma & Hva & Hca & Hba & Hqa & _).
  apply step_device in Hb
    as (slot & d & Hslot & Hd & _ & _ & _ & Hvb & Hcb & Hbb & Hqb & _).
  apply step_device in Hc as (_ & _ & Hmc & Hvc & Hcc & Hbc & Hqc & _).
  rewrite Hma in Hslot. injection Hslot as <-.
  rewrite Hva in Hd, Hvb. rewrite Hca in Hcb. rewrite Hba in Hbb. rewrite Hqa in Hqb.
  rewrite Hbb in Hmc. rewrite Hvb in Hvc. rewrite Hcb in Hcc. rewrite Hqb in Hqc.
  destruct (Hinv (GetCurrentBackBufferIndex s)) as [H1 H2].
  assert (Hstuck : stuck (GetCurrentBackBufferIndex s) d sc).
  { unfold stuck. rewrite Hmc, Hvc, Hcc, Hqc. repeat split.
    - apply list_lookup_insert_eq. apply lookup_lt_Some in Hd. exact Hd.
    - apply (H1 d Hd).
    - intros v Hin. apply elem_of_app in Hin as [Hin|Hin].
      + destruct (H2 v Hin) as (d' & Hd' & Hle). rewrite Hd in Hd'.
        injection Hd' as <-. exact Hle.
      + repeat (apply elem_of_cons in Hin as [Hin|Hin]; [discriminate Hin|]).
        inversion Hin. }
  destruct (stuck_run c _ d others sc s2 Hstuck Hothers)
    as [Hback (Hmain & Hvalue & Hdone & _)].
  split; [exact Hback|]. split; [exact Hmain|].
  apply (wait_for_frame_blocks c s2 _ (d + 1) Hmain Hvalue). lia.
Qed.

Lemma begin_frame_twice_never_returns_witness :
  exists s1 s2,
    run 1 [BeginFrame; FrameSlotFree; BeginFrame] (initial 2) = Some s1 /\
    run 1 [GpuExecutes; GpuExecutes; WorkerPops; WorkerWaitReturns] s1 = Some s2 /\
    main_thread s2 = InWaitForFrame 0 /\
    step 1 FrameSlotFree s2 = None.
Proof.
  destruct (run 1 [BeginFrame; FrameSlotFree; BeginFrame] (initial 2))
    as [s1|] eqn:Hrun1; [|vm_compute in Hrun1; discriminate Hrun1].
  destruct (run 1 [GpuExecutes; GpuExecutes; WorkerPops; WorkerWaitReturns] s1)
    as [s2|] eqn:Hrun2.
  - exists s1, s2. split; [reflexivity|]. split; [exact Hrun2|].
    apply (begin_frame_twice_never_returns 1 2 []
             [GpuExecutes; GpuExecutes; WorkerPops; WorkerWaitReturns]
             (initial 2) s1 s2 eq_refl Hrun1 Hrun2).
  - vm_compute in Hrun1. injection Hrun1 as <-. vm_compute in Hrun2. discriminate Hrun2.
Defined.

End DeviceInvariantsTheorems.

Module DeviceProgress.
Import RenderDevice RenderDeviceSync RenderDeviceSyncFacts DeviceRuns DeviceRunsFacts
  DeviceStepFacts DeviceInvariants.

Section WithConstants.
Variable c : Z.

Lemma submit_enabled commands s :
  command_list_done_fences s = [] -> is_Some (submit_command_list c commands s).
Proof.
  intros Hpool. unfold submit_command_list. cbv zeta.
  cbn [enqueue with_gpu command_list_done_fences]. rewrite Hpool. cbn.
  eexists. reflexivity.
Qed.

Lemma begin_frame_enabled s :
  main_thread s = Running -> is_Some (step c BeginFrame s).
Proof.
  intros Hmain. cbn [step]. unfold begin_frame_enter. rewrite Hmain.
  eexists. reflexivity.
Qed.

Lemma frame_slot_free_enabled s slot d :
  main_thread s = InWaitForFrame slot ->
  frame_fence_values s !! slot = Some d ->
  d <= GetCompletedValue s (FrameFence slot) ->
  command_list_done_fences s = [] ->
  is_Some (step c FrameSlotFree s).
Proof.
  intros Hmain Hd Hle Hpool. cbn [step]. unfold begin_frame_proceed, wait_for_frame.
  rewrite Hmain, Hd.
  destruct (Z.leb_spec d (GetCompletedValue s (FrameFence slot))); [|lia].
  cbn [create_render_command_list]. apply submit_enabled. exact Hpool.
Qed.

Lemma end_frame_enabled s value :
  main_thread s = Running ->
  frame_fence_values s !! GetCurrentBackBufferIndex s = Some value ->
  command_list_done_fences s = [] ->
  is_Some (step c EndFrame s).
Proof.
  intros Hmain Hvalue Hpool. cbn [step]. unfold end_frame. rewrite Hmain.
  cbn [create_render_command_list].
  match goal with |- context [submit_command_list c ?cmds ?s0] =>
    destruct (submit_enabled cmds s0 Hpool) as [s2 Hs2];
    pose proof (submit_command_list_some c cmds s0 s2 Hs2) as Hspec
  end.
  rewrite Hs2. destruct Hspec as (_ & _ & _ & _ & _ & Hv & _).
  cbn [with_main GetCurrentBackBufferIndex frame_fence_values] in *.
  rewrite Hv, Hvalue. eexists. reflexivity.
Qed.

(** The GPU executes the operations at the front of its queue. *)
Lemma gpu_executes_prefix (ops rest : list QueueOp) (s : State) :
  direct_command_queue s = ops ++ rest ->
  exists s',
    run c (replicate (length ops) GpuExecutes) s = Some s' /\
    direct_command_queue s' = rest /\
    GetCompletedValue s' = foldl (fun completed op => executed op completed)
                                 (GetCompletedValue s) ops /\
    main_thread s' = main_thread s /\
    frame_fence_values s' = frame_fence_values s /\
    (command_list_done_fences s = [] -> command_list_done_fences s' = []).
Proof.
  revert s. induction ops as [|op ops IH]; intros s Hq.
  - exists s. cbn. repeat split; auto.
  - cbn [length replicate run].
    destruct (step c GpuExecutes s) as [s1|] eqn:Hstep.
    + apply step_device in Hstep
        as (op' & rest' & Hq1 & Hf & Hm & Hv & Hc & _ & Hq' & _).
      rewrite Hq in Hq1. injection Hq1 as <- <-.
      destruct (IH s1 Hq') as (s' & Hrun & H1 & H2 & H3 & H4 & H5).
      exists s'. split; [exact Hrun|]. split; [exact H1|].
      rewrite H2, H3, H4, Hc, Hm, Hv. repeat split.
      intros Hpool. apply H5. apply (Hf Hpool).
    + cbn [step] in Hstep. unfold gpu_execute in Hstep. rewrite Hq in Hstep.
      destruct op; discriminate Hstep.
Qed.

(** [wait_gpu_idle] between its signal and the return of its wait. *)
Definition idle_wait (i : nat) (v : Z) (s : State) : Prop :=
  frame_fence_values s !! i = Some (v + 1) /\
  ((exists q, direct_command_queue s = q ++ [Signal (FrameFence i) (v + 1)] /\
              GetCompletedValue s (FrameFence i) <= v /\
              forall v', Signal (FrameFence i) v' ∈ q -> v' <= v) \/
   (direct_command_queue s = [] /\ GetCompletedValue s (FrameFence i) = v + 1)).

Lemma idle_wait_step i v a s s' :
  in_the_background a = true -> idle_wait i v s -> step c a s = Some s' ->
  idle_wait i v s'.
Proof.
  intros Ha [Hvalue Hcases] Hstep. apply step_device in Hstep.
  destruct a; try discriminate Ha.
  - destruct Hstep as (op & rest & Hq & _ & _ & Hv & Hc & _ & Hq' & _).
    unfold idle_wait. rewrite Hv, Hc, Hq'. split; [exact Hvalue|].
    destruct Hcases as [(q & Hqueue & Hdone & Hbelow)|[Hempty _]].
    + rewrite Hqueue in Hq. destruct q as [|op0 q].
      * injection Hq as <- <-. right. split; [reflexivity|].
        cbn [executed]. apply fn_lookup_insert.
      * injection Hq as <- <-. left. exists q. split; [reflexivity|]. split.
        -- destruct op0 as [cmds|fence value]; cbn [executed]; [exact Hdone|].
           destruct (decide (fence = FrameFence i)) as [->|Hne].
           ++ rewrite fn_lookup_insert. apply Hbelow. left.
           ++ rewrite fn_lookup_insert_ne by exact Hne. exact Hdone.
        -- intros v' Hin. apply Hbelow. right. exact Hin.
    + rewrite Hempty in Hq. discriminate Hq.
  - destruct Hstep as (_ & _ & Hv & Hc & _ & Hq' & _).
    unfold idle_wait. rewrite Hv, Hc, Hq'. auto.
  - destruct Hstep as (_ & _ & Hv & Hc & _ & Hq' & _).
    unfold idle_wait. rewrite Hv, Hc, Hq'. auto.
Qed.

Lemma idle_wait_run i v others s s' :
  forallb in_the_background others = true -> idle_wait i v s ->
  run c others s = Some s' -> idle_wait i v s'.
Proof.
  revert s. induction others as [|a others IH]; intros s Hall Hinv Hrun.
  - injection Hrun as <-. exact Hinv.
  - cbn [forallb] in Hall. apply andb_true_iff in Hall as [Ha Hall].
    cbn [run] in Hrun. destruct (step c a s) as [s1|] eqn:Hstep; [|discriminate Hrun].
    apply (IH s1 Hall (idle_wait_step i v a s s1 Ha Hinv Hstep) Hrun).
Qed.

Lemma idle_wait_returns i v s :
  idle_wait i v s -> (is_Some (wait_for_frame i s) <-> direct_command_queue s = []).
Proof.
  intros [Hvalue Hcases]. unfold wait_for_frame. rewrite Hvalue.
  destruct Hcases as [(q & Hqueue & Hdone & _)|[Hempty Hdone]].
  - destruct (Z.leb_spec (v + 1) (GetCompletedValue s (FrameFence i))); [lia|].
    rewrite Hqueue. split.
    + intros [x Hx]. discriminate Hx.
    + intros Hnil. destruct q; discriminate Hnil.
  - destruct (Z.leb_spec (v + 1) (GetCompletedValue s (FrameFence i))); [|lia].
    split; [intros _; exact Hempty|intros _; eexists; reflexivity].
Qed.

Lemma wait_gpu_idle_signal_spec i s s1 :
  frame_fences_bounded s -> wait_gpu_idle_signal i s = Some s1 ->
  exists v, idle_wait i v s1.
Proof.
  intros Hinv Hsignal. unfold wait_gpu_idle_signal in Hsignal.
  destruct (main_thread s); [|discriminate Hsignal].
  destruct (frame_fence_values s !! i) as [v|] eqn:Hv; [|discriminate Hsignal].
  injection Hsignal as <-. exists v. destruct (Hinv i) as [H1 H2].
  split.
  - cbn. apply list_lookup_insert_eq. apply lookup_lt_Some in Hv. exact Hv.
  - left. exists (direct_command_queue s). cbn. split; [reflexivity|].
    split; [apply (H1 v Hv)|].
    intros v' Hin. destruct (H2 v' Hin) as (d & Hd & Hle).
    rewrite Hv in Hd. injection Hd as <-. exact Hle.
Qed.

(** The device after [k] frames that the render thread ran without the GPU
    executing anything. *)
Definition ahead (n k : nat) (s : State) : Prop :=
  main_thread s = Running /\
  command_list_done_fences s = [] /\
  frame_fence_values s = replicate k 1 ++ replicate (n - k) 0 /\
  GetCurrentBackBufferIndex s = (k mod n)%nat /\
  (forall fence, GetCompletedValue s fence = 0) /\
  num_frames s = n /\
  match k with
  | O => direct_command_queue s = [] /\ created_fences s = 0%nat
  | S _ =>
      exists l1 l2 rest,
        direct_command_queue s =
          [ExecuteCommandLists l1; Signal (CommandListFence 0) c;
           ExecuteCommandLists l2; Signal (CommandListFence 1) c;
           Signal (FrameFence 0) 1] ++ rest
  end.

Lemma ahead_frame n k s :
  (k < n)%nat -> ahead n k s ->
  exists s', run c one_frame s = Some s' /\ ahead n (S k) s'.
Proof.
  intros Hk (Hmain & Hpool & Hvalues & Hbb & Hdone & Hn & Hqueue).
  assert (Hslot : (k mod n)%nat = k) by (apply Nat.mod_small; exact Hk).
  rewrite Hslot in Hbb.
  assert (Hvk : frame_fence_values s !! k = Some 0).
  { rewrite Hvalues, lookup_app_r by (rewrite length_replicate; lia).
    apply lookup_replicate. rewrite length_replicate. split; [reflexivity|lia]. }
  unfold one_frame. cbn [run].
  destruct (begin_frame_enabled s Hmain) as [sa Ha]. rewrite Ha.
  apply step_device in Ha as (_ & Hfa & Hma & Hva & Hca & Hba & Hqa & Hna).
  destruct (Hfa Hpool) as (Hpa & Hcfa & _). cbn in Hcfa. rewrite Nat.add_0_r in Hcfa.
  destruct (frame_slot_free_enabled sa k 0) as [sb Hb].
  { rewrite Hma, Hbb. reflexivity. }
  { rewrite Hva. exact Hvk. }
  { rewrite Hca, Hdone. lia. }
  { exact Hpa. }
  rewrite Hb.
  apply step_device in Hb
    as (slot & d & Hslot' & Hd & _ & Hfb & Hmb & Hvb & Hcb & Hbbb & Hqb & Hnb).
  rewrite Hma, Hbb in Hslot'. injection Hslot' as <-.
  rewrite Hva, Hvk in Hd. injection Hd as <-.
  destruct Hfb as (Hpb & Hcfb & _). cbn in Hcfb.
  assert (Hvb' : frame_fence_values sb = replicate (S k) 1 ++ replicate (n - S k) 0).
  { rewrite Hvb, Hva, Hvalues.
    rewrite insert_app_r_alt by (rewrite length_replicate; lia).
    rewrite length_replicate, Nat.sub_diag.
    replace (n - k)%nat with (S (n - S k)) by lia.
    rewrite (replicate_S_end k), <- app_assoc. reflexivity. }
  destruct (end_frame_enabled sb 1) as [sc Hc].
  { exact Hmb. }
  { rewrite Hbbb, Hba, Hbb, Hvb'.
    rewrite lookup_app_l by (rewrite length_replicate; lia).
    apply lookup_replicate. split; [reflexivity|lia]. }
  { exact Hpb. }
  rewrite Hc. eexists. split; [reflexivity|].
  apply step_device in Hc
    as (value & _ & Hvalue & Hfc & Hmc & Hvc & Hcc & Hbc & Hqc & Hnc).
  rewrite Hbbb, Hba, Hbb in Hvalue, Hbc, Hqc.
  rewrite Hvb', lookup_app_l in Hvalue by (rewrite length_replicate; lia).
  apply lookup_replicate in Hvalue as [-> _].
  destruct Hfc as (Hpc & _).
  unfold ahead. rewrite Hmc, Hpc, Hvc, Hvb', Hbc, Hcc, Hcb, Hca, Hnc, Hnb, Hna, Hn.
  repeat split; try assumption.
  rewrite Hqc, Hqb, Hqa, Hcfb, Hcfa.
  destruct k as [|k].
  - destruct Hqueue as [-> ->]. eexists _, _, []. reflexivity.
  - destruct Hqueue as (l1 & l2 & rest & ->). eexists l1, l2, _.
    rewrite <- !app_assoc. reflexivity.
Qed.

Lemma ahead_frames n k :
  (k <= n)%nat ->
  exists s, run c (concat (replicate k one_frame)) (initial n) = Some s /\ ahead n k s.
Proof.
  induction k as [|k IH]; intros Hk.
  - exists (initial n). split; [reflexivity|].
    unfold ahead. cbn. rewrite Nat.sub_0_r.
    repeat split. symmetry. apply Nat.Div0.mod_0_l.
  - destruct IH as (s & Hrun & Hahead); [lia|].
    destruct (ahead_frame n k s) as (s' & Hrun' & Hahead'); [lia|exact Hahead|].
    exists s'. split; [|exact Hahead'].
    rewrite replicate_S_end, concat_app, run_app, Hrun. cbn [concat].
    rewrite app_nil_r. exact Hrun'.
Qed.

End WithConstants.

End DeviceProgress.

Module DeviceProgressTheorems.
Import RenderDevice RenderDeviceSync RenderDeviceSyncFacts DeviceRuns DeviceRunsFacts
  DeviceStepFacts DeviceInvariants DeviceProgress.

(** X25. [wait_gpu_idle] waits for an idle GPU, and the wait ends: from any
    state that a run of the device reaches, after [wait_gpu_idle] has
    raised the slot's fence value and queued its signal, and while only
    the GPU and the completion thread move, [wait_for_frame] returns
    exactly when the direct queue is empty; and it does return once the
    GPU has executed what the queue holds. *)
Theorem wait_gpu_idle_returns_when_the_queue_is_empty (c : Z) (n : nat)
    (actions : list Action) (i : nat) (s s1 : State) :
  run c actions (initial n) = Some s ->
  wait_gpu_idle_signal i s = Some s1 ->
  (forall others s2,
     forallb in_the_background others = true ->
     run c others s1 = Some s2 ->
     (is_Some (wait_for_frame i s2) <-> direct_command_queue s2 = [])) /\
  exists s2,
    run c (replicate (length (direct_command_queue s1)) GpuExecutes) s1 = Some s2 /\
    is_Some (wait_for_frame i s2).
Proof.
  intros Hreach Hsignal.
  pose proof (reachable_frame_fences_bounded c n actions s Hreach) as Hinv.
  destruct (wait_gpu_idle_signal_spec i s s1 Hinv Hsignal) as [v Hidle].
  assert (Hall : forall others s2,
            forallb in_the_background others = true ->
            run c others s1 = Some s2 ->
            (is_Some (wait_for_frame i s2) <-> direct_command_queue s2 = [])).
  { intros others s2 Hback Hrun. apply (idle_wait_returns i v).
    apply (idle_wait_run c i v others s1 s2 Hback Hidle Hrun). }
  split; [exact Hall|].
  destruct (gpu_executes_prefix c (direct_command_queue s1) [] s1)
    as (s2 & Hrun & Hempty & _).
  { rewrite app_nil_r. reflexivity. }
  exists s2. split; [exact Hrun|].
  apply (Hall (replicate (length (direct_command_queue s1)) GpuExecutes) s2);
    [|exact Hrun|exact Hempty].
  clear. induction (length (direct_command_queue s1)) as [|k IH]; [reflexivity|exact IH].
Qed.

Lemma wait_gpu_idle_returns_when_the_queue_is_empty_witness :
  exists s s1 s2,
    run 1 [Render "scene"] (initial 2) = Some s /\
    wait_gpu_idle_signal 0 s = Some s1 /\
    run 1 (replicate (length (direct_command_queue s1)) GpuExecutes) s1 = Some s2 /\
    is_Some (wait_for_frame 0 s2).
Proof.
  destruct (run 1 [Render "scene"] (initial 2)) as [s|] eqn:Hrun;
    [|vm_compute in Hrun; discriminate Hrun].
  destruct (wait_gpu_idle_signal 0 s) as [s1|] eqn:Hsignal.
  - destruct (wait_gpu_idle_returns_when_the_queue_is_empty 1 2 _ 0 s s1 Hrun Hsignal)
      as [_ (s2 & H1 & H2)].
    exists s, s1, s2. split; [reflexivity|]. split; [exact Hsignal|]. split; assumption.
  - vm_compute in Hrun. injection Hrun as <-. vm_compute in Hsignal. discriminate Hsignal.
Defined.

(** X26. The render thread gets at most [num_frames] frames ahead of the
    GPU: on a device with [n] frame slots, [n] frames run from start to
    end while the GPU executes nothing; the [begin_frame] of the next
    frame then waits, and its wait cannot return until the GPU has work
    done; once the GPU has executed the five operations of the first
    frame, the wait returns. *)
Theorem render_thread_runs_num_frames_ahead (c : Z) (n : nat) :
  (0 < n)%nat ->
  exists s s' s'',
    run c (concat (replicate n one_frame)) (initial n) = Some s /\
    (forall fence, GetCompletedValue s fence = 0) /\
    frame_fence_values s = replicate n 1 /\
    step c BeginFrame s = Some s' /\
    step c FrameSlotFree s' = None /\
    run c (replicate 5 GpuExecutes) s' = Some s'' /\
    is_Some (step c FrameSlotFree s'').
Proof.
  intros Hn.
  destruct (ahead_frames c n n) as (s & Hrun & Hahead); [lia|].
  destruct Hahead as (Hmain & Hpool & Hvalues & Hbb & Hdone & _ & Hqueue).
  rewrite Nat.sub_diag, app_nil_r in Hvalues.
  rewrite Nat.Div0.mod_same in Hbb.
  destruct n as [|m]; [lia|]. destruct Hqueue as (l1 & l2 & rest & Hqueue).
  destruct (begin_frame_enabled c s Hmain) as [s' Hbegin].
  pose proof Hbegin as Hfields.
  apply step_device in Hfields as (_ & Hfa & Hma & Hva & Hca & _ & Hqa & _).
  destruct (Hfa Hpool) as (Hpa & _).
  rewrite Hbb in Hma. rewrite Hvalues in Hva. rewrite Hqueue in Hqa.
  assert (Hslot : frame_fence_values s' !! 0%nat = Some 1) by (rewrite Hva; reflexivity).
  destruct (gpu_executes_prefix c _ rest s' Hqa) as (s'' & Hgpu & _ & Hc2 & Hm2 & Hv2 & Hp2).
  exists s, s', s''.
  split; [exact Hrun|]. split; [exact Hdone|]. split; [exact Hvalues|].
  split; [exact Hbegin|]. split.
  { apply (wait_for_frame_blocks c s' 0 1 Hma Hslot). rewrite Hca, Hdone. lia. }
  split; [exact Hgpu|].
  apply (frame_slot_free_enabled c s'' 0 1).
  - rewrite Hm2. exact Hma.
  - rewrite Hv2. exact Hslot.
  - rewrite Hc2. cbn [foldl executed]. rewrite fn_lookup_insert. lia.
  - apply Hp2. exact Hpa.
Qed.

Lemma render_thread_runs_num_frames_ahead_witness :
  exists s s' s'',
    run 1 (concat (replicate 2 one_frame)) (initial 2) = Some s /\
    (forall fence, GetCompletedValue s fence = 0) /\
    frame_fence_values s = replicate 2 1 /\
    step 1 BeginFrame s = Some s' /\
    step 1 FrameSlotFree s' = None /\
    run 1 (replicate 5 GpuExecutes) s' = Some s'' /\
    is_Some (step 1 FrameSlotFree s'').
Proof.
  apply (render_thread_runs_num_frames_ahead 1 2). lia.
Defined.

End DeviceProgressTheorems.

(** ** The fence of a submission *)

Module FencePoolRunsTheorems.
Import RenderDevice RenderDeviceSync RenderDeviceSyncFacts DeviceRuns DeviceRunsFacts
  DeviceStepFacts DeviceInvariants DeviceProgress.



End FencePoolRunsTheorems.

(** ** Material data buffer: the elements behind the handles *)

Module MaterialStorageFacts.
Import MaterialDataBuffer MaterialAllocations MaterialStorage.

Lemma store_outside (offset : Z) (value : list Z) (bytes : Bytes) (a : Z) :
  a < offset \/ offset + Z.of_nat (length value) <= a ->
  store offset value bytes a = bytes a.
Proof.
  revert offset bytes. induction value as [|byte rest IH]; intros offset bytes Ha.
  - reflexivity.
  - cbn [store]. rewrite IH by (cbn [length] in Ha; lia).
    apply fn_lookup_insert_ne. cbn [length] in Ha. lia.
Qed.

Lemma load_ext (offset : Z) (count : nat) (bytes bytes' : Bytes) :
  (forall a, offset <= a < offset + Z.of_nat count -> bytes a = bytes' a) ->
  load offset count bytes = load offset count bytes'.
Proof.
  revert offset. induction count as [|k IH]; intros offset Hsame; [reflexivity|].
  cbn [load]. rewrite (Hsame offset) by lia. f_equal.
  apply IH. intros a Ha. apply Hsame. lia.
Qed.

Lemma load_store (offset : Z) (value : list Z) (bytes : Bytes) :
  load offset (length value) (store offset value bytes) = value.
Proof.
  revert offset bytes. induction value as [|byte rest IH]; intros offset bytes.
  - reflexivity.
  - cbn [length load store]. rewrite IH. f_equal.
    rewrite store_outside by lia. apply fn_lookup_insert.
Qed.

Lemma load_store_disjoint (offset1 : Z) (count : nat) (offset2 : Z) (value : list Z)
    (bytes : Bytes) :
  offset1 + Z.of_nat count <= offset2 \/ offset2 + Z.of_nat (length value) <= offset1 ->
  load offset1 count (store offset2 value bytes) = load offset1 count bytes.
Proof.
  intros Hdisjoint. apply load_ext. intros a Ha. apply store_outside. lia.
Qed.

Lemma allocate_sizes (sizes : list Z) (b : t) :
  map fst (allocate sizes b).1 = sizes.
Proof.
  revert b. induction sizes as [|S sizes IH]; intros b; [reflexivity|].
  rewrite MaterialAllocationsFacts.allocate_cons. cbn. rewrite IH. reflexivity.
Qed.

Lemma allocated_size_positive (sizes : list Z) (b : t) (i : nat) (S : Z)
    (h : MaterialHandle) :
  Forall (fun S => 0 < S) sizes -> (allocate sizes b).1 !! i = Some (S, h) -> 0 < S.
Proof.
  intros Hpos Hi. rewrite Forall_forall in Hpos. apply Hpos.
  rewrite <- (allocate_sizes sizes b). apply list_elem_of_fmap. exists (S, h).
  split; [reflexivity|]. apply (list_elem_of_lookup_2 _ i). exact Hi.
Qed.

End MaterialStorageFacts.

Module MaterialStorageTheorems.
Import MaterialDataBuffer MaterialAllocations MaterialAllocationsFacts
  MaterialStorage MaterialStorageFacts.

(** X27. Materials do not overwrite each other: for two handles that
    successive [get_next_free_material] calls returned, for struct types
    of any sizes and while the 32-bit cursor does not wrap, a value
    assigned through [at] to one of them is read back from it, and
    assigning through [at] to either leaves what [at] reads from the other
    unchanged. *)
Theorem materials_do_not_overwrite_each_other (sizes : list Z) (b : t)
    (i j : nat) (Si Sj : Z) (hi hj : MaterialHandle) (vi vj : list Z) (bytes : Bytes) :
  Forall (fun S => 0 < S) sizes ->
  is_uint32 (num_allocated_bytes b) ->
  num_allocated_bytes b + room_for sizes < UINT32_MODULUS ->
  (i < j)%nat ->
  (allocate sizes b).1 !! i = Some (Si, hi) ->
  (allocate sizes b).1 !! j = Some (Sj, hj) ->
  length vi = Z.to_nat Si ->
  length vj = Z.to_nat Sj ->
  in_buffer Si b hi = true ->
  in_buffer Sj b hj = true ->
  (exists bytes', at_assign Si b hi vi bytes = Some bytes' /\
                  at_read Si b hi bytes' = Some vi /\
                  at_read Sj b hj bytes' = at_read Sj b hj bytes) /\
  (exists bytes', at_assign Sj b hj vj bytes = Some bytes' /\
                  at_read Sj b hj bytes' = Some vj /\
                  at_read Si b hi bytes' = at_read Si b hi bytes).
Proof.
  intros Hpos Hcursor Hroom Hij Hi Hj Hvi Hvj Hini Hinj.
  destruct (allocate_ordered sizes b i j Si hi Sj hj Hpos Hcursor Hroom Hij Hi Hj)
    as (_ & Hlen & Hbefore).
  pose proof (allocated_size_positive sizes b i Si hi Hpos Hi) as HSi.
  pose proof (allocated_size_positive sizes b j Sj hj Hpos Hj) as HSj.
  unfold at_assign, at_read. rewrite Hini, Hinj.
  unfold byte_end, byte_offset in *.
  split; eexists; (split; [reflexivity|]); split.
  - rewrite <- Hvi. rewrite load_store. reflexivity.
  - f_equal. apply load_store_disjoint. rewrite Hvi. lia.
  - rewrite <- Hvj. rewrite load_store. reflexivity.
  - f_equal. apply load_store_disjoint. rewrite Hvj. lia.
Qed.

(** A buffer of 64 bytes; a 4-byte material, then a 12-byte material. *)
Definition small_buffer : t := {| buffer_size := 64; num_allocated_bytes := 0 |}.

Lemma materials_do_not_overwrite_each_other_witness :
  (allocate [4; 12] small_buffer).1 = [(4, {| index := 1 |}); (12, {| index := 1 |})] /\
  exists bytes',
    at_assign 12 small_buffer {| index := 1 |}
      [1; 2; 3; 4; 5; 6; 7; 8; 9; 10; 11; 12] (fun _ => 0) = Some bytes' /\
    at_read 12 small_buffer {| index := 1 |} bytes'
      = Some [1; 2; 3; 4; 5; 6; 7; 8; 9; 10; 11; 12] /\
    at_read 4 small_buffer {| index := 1 |} bytes'
      = at_read 4 small_buffer {| index := 1 |} (fun _ => 0).
Proof.
  split; [reflexivity|].
  apply (materials_do_not_overwrite_each_other [4; 12] small_buffer 0 1 4 12
           {| index := 1 |} {| index := 1 |}
           [255; 255; 255; 255] [1; 2; 3; 4; 5; 6; 7; 8; 9; 10; 11; 12] (fun _ => 0)).
  - repeat constructor.
  - unfold is_uint32, UINT32_MODULUS. cbn. lia.
  - unfold UINT32_MODULUS. cbn. lia.
  - lia.
  - reflexivity.
  - reflexivity.
  - reflexivity.
  - reflexivity.
  - reflexivity.
  - reflexivity.
Defined.

End MaterialStorageTheorems.

(** ** The BVE wrapper: colours, textures and meshes *)

Module BveWrapperFacts.
Import BveWrapper.

Lemma land_low_high (a b k : Z) :
  0 <= k -> 0 <= a < 2 ^ k -> Z.land a (b * 2 ^ k) = 0.
Proof.
  intros Hk Ha. apply Z.bits_inj'. intros n Hn.
  rewrite Z.land_spec, Z.bits_0.
  destruct (Z.lt_ge_cases n k) as [Hlt|Hge].
  - rewrite Z.mul_pow2_bits_low by exact Hlt. apply andb_false_r.
  - rewrite <- (Z.mod_small a (2 ^ k)) by exact Ha.
    rewrite Z.mod_pow2_bits_high by lia. reflexivity.
Qed.

Lemma lor_low_high (a b k : Z) :
  0 <= k -> 0 <= a < 2 ^ k -> Z.lor a (b * 2 ^ k) = a + b * 2 ^ k.
Proof.
  intros Hk Ha. pose proof (Z.add_lor_land a (b * 2 ^ k)) as H.
  rewrite (land_low_high a b k Hk Ha) in H. lia.
Qed.

Lemma int_to_uint32 (v : Z) : 0 <= v < 2 ^ 32 -> wrap32 (to_int v) = v.
Proof.
  intros Hv. unfold wrap32, to_int, UINT32_MODULUS.
  change (2 ^ 32) with 4294967296 in *. change (2 ^ 31) with 2147483648.
  Z.to_euclidean_division_equations. lia.
Qed.

(** [new_data] after the pixels below [k] of [n] have been written. *)
Definition expanded_upto (texture_data : list Z) (n k : Z) (new_data : list (option Z))
  : Prop :=
  length new_data = Z.to_nat (4 * n) /\
  (forall i ch, 0 <= i < k -> 0 <= ch < 3 ->
     exists v, texture_data !! Z.to_nat (3 * i + ch) = Some v /\
               new_data !! Z.to_nat (4 * i + ch) = Some (Some v)) /\
  (forall i, 0 <= i < k -> new_data !! Z.to_nat (4 * i + 3) = Some (Some 255)) /\
  (forall p, 4 * k <= p < 4 * n -> new_data !! Z.to_nat p = Some None).

Lemma expand_pixel_step (texture_data : list Z) (n k : Z) (new_data : list (option Z)) :
  0 <= k < n ->
  3 * n <= Z.of_nat (length texture_data) ->
  expanded_upto texture_data n k new_data ->
  exists new_data',
    expand_pixel texture_data new_data k = Some new_data' /\
    expanded_upto texture_data n (k + 1) new_data'.
Proof.
  intros Hk Hsize (Hlen & Hrgb & Ha & Hrest).
  unfold expand_pixel. cbv zeta.
  destruct (lookup_lt_is_Some_2 texture_data (Z.to_nat (k * 3))) as [r Hr]; [lia|].
  destruct (lookup_lt_is_Some_2 texture_data (Z.to_nat (k * 3 + 1))) as [g Hg]; [lia|].
  destruct (lookup_lt_is_Some_2 texture_data (Z.to_nat (k * 3 + 2))) as [b Hb]; [lia|].
  rewrite Hr, Hg, Hb. eexists. split; [reflexivity|].
  assert (Hother : forall p v,
            0 <= p -> (p < 4 * k \/ 4 * k + 4 <= p) ->
            new_data !! Z.to_nat p = v ->
            <[Z.to_nat (k * 4 + 3) := Some 255]>
              (<[Z.to_nat (k * 4 + 2) := Some b]>
                 (<[Z.to_nat (k * 4 + 1) := Some g]>
                    (<[Z.to_nat (k * 4) := Some r]> new_data))) !! Z.to_nat p = v).
  { intros p v Hp Hout <-. rewrite !list_lookup_insert_ne by lia. reflexivity. }
  split; [rewrite !length_insert; exact Hlen|]. split; [|split].
  - intros i ch Hi Hch. destruct (decide (i = k)) as [->|Hne].
    + assert (Hcases : ch = 0 \/ ch = 1 \/ ch = 2) by lia.
      destruct Hcases as [-> | [-> | ->]].
      * exists r. split; [rewrite <- Hr; f_equal; lia|].
        rewrite !list_lookup_insert_ne by lia.
        replace (Z.to_nat (4 * k + 0)) with (Z.to_nat (k * 4)) by lia.
        apply list_lookup_insert_eq. lia.
      * exists g. split; [rewrite <- Hg; f_equal; lia|].
        rewrite !list_lookup_insert_ne by lia.
        replace (Z.to_nat (4 * k + 1)) with (Z.to_nat (k * 4 + 1)) by lia.
        apply list_lookup_insert_eq. rewrite !length_insert. lia.
      * exists b. split; [rewrite <- Hb; f_equal; lia|].
        rewrite !list_lookup_insert_ne by lia.
        replace (Z.to_nat (4 * k + 2)) with (Z.to_nat (k * 4 + 2)) by lia.
        apply list_lookup_insert_eq. rewrite !length_insert. lia.
    + destruct (Hrgb i ch) as (v & Hv & Hnew); [lia|lia|].
      exists v. split; [exact Hv|]. apply Hother; [lia|lia|exact Hnew].
  - intros i Hi. destruct (decide (i = k)) as [->|Hne].
    + replace (Z.to_nat (4 * k + 3)) with (Z.to_nat (k * 4 + 3)) by lia.
      apply list_lookup_insert_eq. rewrite !length_insert. lia.
    + apply Hother; [lia|lia|]. apply Ha. lia.
  - intros p Hp. apply Hother; [lia|lia|]. apply Hrest. lia.
Qed.

Lemma expand_loop (texture_data : list Z) (n : Z) (new_data : list (option Z))
    (count : nat) :
  Z.of_nat count <= n ->
  3 * n <= Z.of_nat (length texture_data) ->
  expanded_upto texture_data n 0 new_data ->
  exists new_data',
    BindGroup.for_each (expand_pixel texture_data) new_data (seqZ 0 (Z.of_nat count))
      = Some new_data' /\
    expanded_upto texture_data n (Z.of_nat count) new_data'.
Proof.
  intros Hcount Hsize Hstart. induction count as [|count IH].
  - exists new_data. split; [reflexivity|exact Hstart].
  - destruct IH as (new1 & Hrun & Hinv); [lia|].
    destruct (expand_pixel_step texture_data n (Z.of_nat count) new1) as (new2 & Hstep & Hinv2);
      [lia|exact Hsize|exact Hinv|].
    exists new2. split.
    + rewrite seqZ_S, BindGroupBuildFacts.for_each_app, Hrun.
      cbn [BindGroup.for_each]. rewrite Z.add_0_l, Hstep. reflexivity.
    + replace (Z.of_nat (S count)) with (Z.of_nat count + 1) by lia. exact Hinv2.
Qed.

Section WithFloat.

Variable Float32 : Type.
Variable fneg : Float32 -> Float32.

(** A read inside the vertices does not depend on what lies behind them. *)
Lemma double_sided_at_inside (beyond beyond' : Z -> bool)
    (bve_vertices : list (BVE_Vertex Float32)) (e : Z) :
  wrap32 e < Z.of_nat (length bve_vertices) ->
  double_sided_at Float32 beyond bve_vertices (wrap32 e) =
  double_sided_at Float32 beyond' bve_vertices (wrap32 e).
Proof.
  intros Hin. unfold double_sided_at.
  pose proof (wrap32_range e) as Hr. unfold is_uint32 in Hr.
  destruct (lookup_lt_is_Some_2 bve_vertices (Z.to_nat (wrap32 e))) as [v ->]; [lia|].
  reflexivity.
Qed.

Lemma double_sided_at_single (beyond : Z -> bool)
    (bve_vertices : list (BVE_Vertex Float32)) (e : Z) :
  wrap32 e < Z.of_nat (length bve_vertices) ->
  (forall v, v ∈ bve_vertices -> double_sided Float32 v = false) ->
  double_sided_at Float32 beyond bve_vertices (wrap32 e) = false.
Proof.
  intros Hin Hsingle. unfold double_sided_at.
  pose proof (wrap32_range e) as Hr. unfold is_uint32 in Hr.
  destruct (lookup_lt_is_Some_2 bve_vertices (Z.to_nat (wrap32 e))) as [v Hv]; [lia|].
  rewrite Hv. apply Hsingle. apply (list_elem_of_lookup_2 _ _ _ Hv).
Qed.

(** What the loop over the triangles adds to the index vector: it has a
    result for every whole number of triangles, whatever the indices
    are. *)
Lemma each_triangle_spec (beyond : Z -> bool) (triangles : nat) :
  forall (bve_vertices : list (BVE_Vertex Float32)) (bve_indices indices : list Z),
    length bve_indices = (3 * triangles)%nat ->
    exists added k,
      each_triangle Float32 beyond bve_vertices bve_indices indices
        = Some (indices ++ added) /\
      length added = (3 * k)%nat /\
      (length bve_indices <= length added <= 2 * length bve_indices)%nat /\
      (forall idx, idx ∈ added <-> idx ∈ map wrap32 bve_indices).
Proof.
  induction triangles as [|t IH]; intros bve_vertices bve_indices indices Hlen.
  - destruct bve_indices; [|discriminate Hlen].
    exists [], 0%nat. cbn. rewrite app_nil_r. repeat split; auto.
  - destruct bve_indices as [|e0 [|e1 [|e2 rest]]]; try (cbn in Hlen; lia).
    cbn [each_triangle]. cbv zeta.
    destruct (double_sided_at Float32 beyond bve_vertices (wrap32 e0) ||
              double_sided_at Float32 beyond bve_vertices (wrap32 e1) ||
              double_sided_at Float32 beyond bve_vertices (wrap32 e2)).
    + destruct (IH bve_vertices rest
                  ((indices ++ [wrap32 e0; wrap32 e1; wrap32 e2]) ++
                   [wrap32 e2; wrap32 e1; wrap32 e0]))
        as (added & k & Hrun & Hk & Hbounds & Hmem); [cbn in Hlen; lia|].
      exists ([wrap32 e0; wrap32 e1; wrap32 e2] ++ [wrap32 e2; wrap32 e1; wrap32 e0] ++ added),
             (2 + k)%nat.
      split; [rewrite Hrun, <- !app_assoc; reflexivity|].
      split; [cbn [length app]; lia|]. split; [cbn [length app]; lia|].
      intros idx. cbn [map app]. rewrite !elem_of_cons, (Hmem idx). tauto.
    + destruct (IH bve_vertices rest (indices ++ [wrap32 e0; wrap32 e1; wrap32 e2]))
        as (added & k & Hrun & Hk & Hbounds & Hmem); [cbn in Hlen; lia|].
      exists ([wrap32 e0; wrap32 e1; wrap32 e2] ++ added), (1 + k)%nat.
      split; [rewrite Hrun, <- !app_assoc; reflexivity|].
      split; [cbn [length app]; lia|]. split; [cbn [length app]; lia|].
      intros idx. cbn [map app]. rewrite !elem_of_cons, (Hmem idx). tauto.
Qed.

(** With every index inside the vertices the loop does not depend on what
    lies behind them, and a mesh without double-sided vertices keeps its
    indices. *)
Lemma each_triangle_inside (beyond beyond' : Z -> bool) (triangles : nat) :
  forall (bve_vertices : list (BVE_Vertex Float32)) (bve_indices indices : list Z),
    length bve_indices = (3 * triangles)%nat ->
    (forall e, e ∈ bve_indices -> wrap32 e < Z.of_nat (length bve_vertices)) ->
    each_triangle Float32 beyond bve_vertices bve_indices indices =
      each_triangle Float32 beyond' bve_vertices bve_indices indices /\
    ((forall v, v ∈ bve_vertices -> double_sided Float32 v = false) ->
     each_triangle Float32 beyond bve_vertices bve_indices indices =
       Some (indices ++ map wrap32 bve_indices)).
Proof.
  induction triangles as [|t IH]; intros bve_vertices bve_indices indices Hlen Hin.
  - destruct bve_indices; [|discriminate Hlen]. cbn. rewrite app_nil_r. auto.
  - destruct bve_indices as [|e0 [|e1 [|e2 rest]]]; try (cbn in Hlen; lia).
    assert (Hrest : forall e, e ∈ rest -> wrap32 e < Z.of_nat (length bve_vertices))
      by (intros e He; apply Hin; do 3 right; exact He).
    assert (H0 : wrap32 e0 < Z.of_nat (length bve_vertices)) by (apply Hin; left).
    assert (H1 : wrap32 e1 < Z.of_nat (length bve_vertices)) by (apply Hin; right; left).
    assert (H2 : wrap32 e2 < Z.of_nat (length bve_vertices))
      by (apply Hin; right; right; left).
    cbn [each_triangle]. cbv zeta.
    rewrite (double_sided_at_inside beyond beyond' _ e0 H0),
            (double_sided_at_inside beyond beyond' _ e1 H1),
            (double_sided_at_inside beyond beyond' _ e2 H2).
    split.
    + destruct (_ || _ || _); apply IH; try assumption; cbn in Hlen; lia.
    + intros Hsingle.
      rewrite (double_sided_at_single beyond' _ e0 H0 Hsingle),
              (double_sided_at_single beyond' _ e1 H1 Hsingle),
              (double_sided_at_single beyond' _ e2 H2 Hsingle).
      cbn [orb].
      destruct (IH bve_vertices rest (indices ++ [wrap32 e0; wrap32 e1; wrap32 e2]))
        as [_ Hkeep]; [cbn in Hlen; lia|exact Hrest|].
      rewrite (Hkeep Hsingle), <- app_assoc. reflexivity.
Qed.

End WithFloat.

End BveWrapperFacts.

Module BveWrapperTheorems.
Import BveWrapper BveWrapperFacts.

(** X28. [to_uint32] packs the four channels of a colour into one word
    without losing any: for channels that are bytes the result is
    [x + y * 2^8 + z * 2^16 + w * 2^24], a 32-bit value, and every channel
    is read back from it by a shift and a mask. *)
Theorem to_uint32_packs_the_channels (bve_color : BVE_Vector4) :
  0 <= x bve_color < 256 -> 0 <= y bve_color < 256 ->
  0 <= z bve_color < 256 -> 0 <= w bve_color < 256 ->
  let color := to_uint32 bve_color in
  color = x bve_color + y bve_color * 2 ^ 8 + z bve_color * 2 ^ 16 + w bve_color * 2 ^ 24 /\
  is_uint32 color /\
  Z.land color 255 = x bve_color /\
  Z.land (Z.shiftr color 8) 255 = y bve_color /\
  Z.land (Z.shiftr color 16) 255 = z bve_color /\
  Z.land (Z.shiftr color 24) 255 = w bve_color.
Proof.
  destruct bve_color as [x y z w]. cbn [BveWrapper.x BveWrapper.y BveWrapper.z BveWrapper.w].
  intros Hx Hy Hz Hw.
  assert (Hsum : to_uint32 {| x := x; y := y; z := z; w := w |} =
                 x + y * 2 ^ 8 + z * 2 ^ 16 + w * 2 ^ 24).
  { unfold to_uint32, or_assign. cbn [BveWrapper.x BveWrapper.y BveWrapper.z BveWrapper.w].
    rewrite !Z.shiftl_mul_pow2 by lia.
    rewrite !int_to_uint32 by lia.
    rewrite (wrap32_small x) by (unfold is_uint32, UINT32_MODULUS; lia).
    rewrite Z.lor_0_l.
    rewrite (lor_low_high x y 8) by lia.
    rewrite (lor_low_high (x + y * 2 ^ 8) z 16) by lia.
    rewrite (lor_low_high (x + y * 2 ^ 8 + z * 2 ^ 16) w 24) by lia.
    reflexivity. }
  cbv zeta. rewrite Hsum. clear Hsum.
  change 255 with (Z.ones 8). rewrite !Z.land_ones, !Z.shiftr_div_pow2 by lia.
  unfold is_uint32, UINT32_MODULUS.
  change (2 ^ 8) with 256. change (2 ^ 16) with 65536. change (2 ^ 24) with 16777216.
  change (2 ^ 32) with 4294967296.
  repeat split; try lia; Z.to_euclidean_division_equations; lia.
Qed.

Lemma to_uint32_packs_the_channels_witness :
  let color := to_uint32 {| x := 255; y := 128; z := 64; w := 200 |} in
  color = 255 + 128 * 2 ^ 8 + 64 * 2 ^ 16 + 200 * 2 ^ 24 /\
  is_uint32 color /\
  Z.land color 255 = 255 /\
  Z.land (Z.shiftr color 8) 255 = 128 /\
  Z.land (Z.shiftr color 16) 255 = 64 /\
  Z.land (Z.shiftr color 24) 255 = 200.
Proof.
  apply (to_uint32_packs_the_channels {| x := 255; y := 128; z := 64; w := 200 |});
    cbn; lia.
Defined.

(** X29. [expand_rgb8_to_rgba8] turns every RGB pixel into an RGBA pixel
    with full alpha: for a texture of [width * height] pixels whose RGBA
    size fits an [int] and whose data holds three bytes per pixel, the new
    array has [4 * width * height] bytes, every one of them written;
    pixel [i] keeps its three channels in order and gets alpha [0xFF]. *)
Theorem expand_rgb8_to_rgba8_adds_full_alpha (texture_data : list Z) (width height : Z) :
  0 <= width -> 0 <= height ->
  width * height * 4 <= INT_MAX ->
  3 * (width * height) <= Z.of_nat (length texture_data) ->
  exists new_data,
    expand_rgb8_to_rgba8 texture_data width height = Some new_data /\
    length new_data = Z.to_nat (4 * (width * height)) /\
    (forall i ch, 0 <= i < width * height -> 0 <= ch < 3 ->
       exists v, texture_data !! Z.to_nat (3 * i + ch) = Some v /\
                 new_data !! Z.to_nat (4 * i + ch) = Some (Some v)) /\
    (forall i, 0 <= i < width * height ->
       new_data !! Z.to_nat (4 * i + 3) = Some (Some 255)) /\
    None ∉ new_data.
Proof.
  intros Hw Hh Hfit Hsize.
  assert (Hn : 0 <= width * height) by nia.
  assert (Hmax : INT_MAX = 2147483647) by reflexivity.
  assert (Hmin : INT_MIN = -2147483648) by reflexivity.
  unfold expand_rgb8_to_rgba8, int_mul.
  rewrite (proj2 (Z.leb_le INT_MIN (width * height))) by lia.
  rewrite (proj2 (Z.leb_le (width * height) INT_MAX)) by lia.
  cbn [andb].
  rewrite (proj2 (Z.leb_le INT_MIN (width * height * 4))) by lia.
  rewrite (proj2 (Z.leb_le (width * height * 4) INT_MAX)) by lia.
  cbn [andb].
  rewrite (proj2 (Z.ltb_ge (width * height * 4) 0)) by lia.
  destruct (expand_loop texture_data (width * height)
              (replicate (Z.to_nat (width * height * 4)) None)
              (Z.to_nat (width * height)))
    as (new_data & Hrun & Hlen & Hrgb & Ha & _).
  { lia. }
  { exact Hsize. }
  { split; [rewrite length_replicate; lia|]. split; [intros; lia|]. split; [intros; lia|].
    intros p Hp. apply lookup_replicate. split; [reflexivity|lia]. }
  rewrite Z2Nat.id in Hrun, Hrgb, Ha by lia.
  exists new_data. split; [exact Hrun|]. split; [exact Hlen|].
  split; [exact Hrgb|]. split; [exact Ha|].
  intros Hnone. apply list_elem_of_lookup in Hnone as [p Hp].
  assert (Hlt : (p < length new_data)%nat) by (apply lookup_lt_Some in Hp; exact Hp).
  assert (Hi : 0 <= Z.of_nat p / 4 < width * height)
    by (Z.to_euclidean_division_equations; lia).
  assert (Hcases : Z.of_nat p mod 4 = 0 \/ Z.of_nat p mod 4 = 1 \/
                   Z.of_nat p mod 4 = 2 \/ Z.of_nat p mod 4 = 3)
    by (Z.to_euclidean_division_equations; lia).
  assert (Hp' : p = Z.to_nat (4 * (Z.of_nat p / 4) + Z.of_nat p mod 4))
    by (Z.to_euclidean_division_equations; lia).
  rewrite Hp' in Hp.
  destruct Hcases as [Hc|[Hc|[Hc|Hc]]]; rewrite Hc in Hp.
  - destruct (Hrgb (Z.of_nat p / 4) 0 Hi) as (v & _ & Hv); [lia|]. congruence.
  - destruct (Hrgb (Z.of_nat p / 4) 1 Hi) as (v & _ & Hv); [lia|]. congruence.
  - destruct (Hrgb (Z.of_nat p / 4) 2 Hi) as (v & _ & Hv); [lia|]. congruence.
  - rewrite (Ha (Z.of_nat p / 4) Hi) in Hp. discriminate Hp.
Qed.

(** Two pixels, red and blue. *)
Lemma expand_rgb8_to_rgba8_adds_full_alpha_witness :
  expand_rgb8_to_rgba8 [255; 0; 0; 0; 0; 255] 2 1
    = Some [Some 255; Some 0; Some 0; Some 255; Some 0; Some 0; Some 255; Some 255] /\
  exists new_data,
    expand_rgb8_to_rgba8 [255; 0; 0; 0; 0; 255] 2 1 = Some new_data /\
    length new_data = Z.to_nat (4 * (2 * 1)) /\
    (forall i ch, 0 <= i < 2 * 1 -> 0 <= ch < 3 ->
       exists v, [255; 0; 0; 0; 0; 255] !! Z.to_nat (3 * i + ch) = Some v /\
                 new_data !! Z.to_nat (4 * i + ch) = Some (Some v)) /\
    (forall i, 0 <= i < 2 * 1 -> new_data !! Z.to_nat (4 * i + 3) = Some (Some 255)) /\
    None ∉ new_data.
Proof.
  split; [reflexivity|].
  apply (expand_rgb8_to_rgba8_adds_full_alpha [255; 0; 0; 0; 0; 255] 2 1).
  - lia.
  - lia.
  - unfold INT_MAX. lia.
  - cbn. lia.
Defined.

(** X30. [process_vertices] turns a BVE mesh into a vertex vector and an
    index vector without looking at what the indices refer to: for an
    index count that is a multiple of three (and counts that the [Uint32]
    loop counters reach) it returns, with one vertex per BVE vertex and
    whole triangles, between one and two per triangle of the BVE mesh,
    whose indices are exactly the BVE mesh's, as [Uint32].  So the result
    is a mesh whose indices refer to its own vertices exactly when the
    BVE mesh's do; then it does not depend on what lies behind the
    vertices in memory, and a mesh without double-sided vertices keeps
    its indices as they are. *)
Theorem process_vertices_returns_a_mesh (Float32 : Type) (fneg : Float32 -> Float32)
    (beyond : Z -> bool) (mesh : BVE_Mesh Float32) :
  Z.of_nat (length (mesh_indices Float32 mesh)) mod 3 = 0 ->
  Z.of_nat (length (mesh_vertices Float32 mesh)) < UINT32_MODULUS ->
  Z.of_nat (length (mesh_indices Float32 mesh)) + 3 <= UINT32_MODULUS ->
  exists vertices indices,
    process_vertices Float32 fneg beyond mesh = Some (vertices, indices) /\
    length vertices = length (mesh_vertices Float32 mesh) /\
    (exists triangles, length indices = (3 * triangles)%nat) /\
    (length (mesh_indices Float32 mesh) <= length indices
       <= 2 * length (mesh_indices Float32 mesh))%nat /\
    (forall idx, idx ∈ indices <-> idx ∈ map wrap32 (mesh_indices Float32 mesh)) /\
    (MeshUploads.refers_to_own_vertices vertices indices <->
     forall e, e ∈ mesh_indices Float32 mesh ->
               wrap32 e < Z.of_nat (length (mesh_vertices Float32 mesh))) /\
    ((forall e, e ∈ mesh_indices Float32 mesh ->
                wrap32 e < Z.of_nat (length (mesh_vertices Float32 mesh))) ->
     (forall beyond',
        process_vertices Float32 fneg beyond' mesh = Some (vertices, indices)) /\
     ((forall v, v ∈ mesh_vertices Float32 mesh -> double_sided Float32 v = false) ->
      indices = map wrap32 (mesh_indices Float32 mesh))).
Proof.
  intros Hmod Hvertices Hindices.
  assert (Hlen : length (mesh_indices Float32 mesh) =
                 (3 * Z.to_nat (Z.of_nat (length (mesh_indices Float32 mesh)) / 3))%nat)
    by (Z.to_euclidean_division_equations; lia).
  destruct (each_triangle_spec Float32 beyond _ (mesh_vertices Float32 mesh)
              (mesh_indices Float32 mesh) [] Hlen)
    as (added & k & Hrun & Hk & Hbounds & Hmem).
  cbn [app] in Hrun.
  assert (Hguards : forall b,
            process_vertices Float32 fneg b mesh =
            match each_triangle Float32 b (mesh_vertices Float32 mesh)
                    (mesh_indices Float32 mesh) [] with
            | Some indices =>
                Some (map (to_standard_vertex Float32 fneg) (mesh_vertices Float32 mesh),
                      indices)
            | None => None
            end).
  { intros b. unfold process_vertices, Material.RX_ASSERT.
    rewrite (proj2 (Z.eqb_eq _ _) Hmod).
    rewrite (proj2 (Z.ltb_lt _ _) Hvertices), (proj2 (Z.leb_le _ _) Hindices).
    reflexivity. }
  exists (map (to_standard_vertex Float32 fneg) (mesh_vertices Float32 mesh)), added.
  split; [rewrite Hguards, Hrun; reflexivity|].
  split; [apply length_map|]. split; [exists k; exact Hk|]. split; [exact Hbounds|].
  split; [exact Hmem|]. split.
  - unfold MeshUploads.refers_to_own_vertices. rewrite length_map. split.
    + intros Hrefers e He. apply (Hrefers (wrap32 e)). apply Hmem.
      apply list_elem_of_fmap. exists e. auto.
    + intros Hinside idx Hidx. apply Hmem in Hidx.
      apply list_elem_of_fmap in Hidx as (e & -> & He).
      pose proof (wrap32_range e) as Hr. unfold is_uint32 in Hr.
      specialize (Hinside e He). lia.
  - intros Hinside. split.
    + intros beyond'. rewrite Hguards.
      destruct (each_triangle_inside Float32 beyond' beyond _ (mesh_vertices Float32 mesh)
                  (mesh_indices Float32 mesh) [] Hlen Hinside) as [-> _].
      rewrite Hrun. reflexivity.
    + intros Hsingle.
      destruct (each_triangle_inside Float32 beyond beyond _ (mesh_vertices Float32 mesh)
                  (mesh_indices Float32 mesh) [] Hlen Hinside) as [_ Hkeep].
      rewrite (Hkeep Hsingle) in Hrun. cbn [app] in Hrun. congruence.
Qed.

(** A quad of two triangles; its last vertex is double-sided. *)
Definition bve_quad : BVE_Mesh Z :=
  {| mesh_vertices :=
       [{| position := (0, 0, 0); normal := (0, 0, 1); coord := (0, 0);
           color := {| x := 255; y := 255; z := 255; w := 255 |}; double_sided := false |};
        {| position := (1, 0, 0); normal := (0, 0, 1); coord := (1, 0);
           color := {| x := 255; y := 255; z := 255; w := 255 |}; double_sided := false |};
        {| position := (1, 1, 0); normal := (0, 0, 1); coord := (1, 1);
           color := {| x := 255; y := 255; z := 255; w := 255 |}; double_sided := false |};
        {| position := (0, 1, 0); normal := (0, 0, 1); coord := (0, 1);
           color := {| x := 255; y := 255; z := 255; w := 255 |}; double_sided := true |}];
     mesh_indices := [0; 1; 2; 0; 2; 3] |}.

(** One triangle whose last index is outside the vertices of the quad. *)
Definition bve_stray_triangle : BVE_Mesh Z :=
  {| mesh_vertices := mesh_vertices Z bve_quad;
     mesh_indices := [0; 1; 7] |}.

Lemma process_vertices_returns_a_mesh_witness :
  (exists vertices,
     process_vertices Z Z.opp (fun _ => false) bve_quad
       = Some (vertices, [0; 1; 2; 0; 2; 3; 3; 2; 0]) /\
     length vertices = 4%nat /\
     MeshUploads.refers_to_own_vertices vertices [0; 1; 2; 0; 2; 3; 3; 2; 0]) /\
  (exists vertices,
     process_vertices Z Z.opp (fun _ => false) bve_stray_triangle
       = Some (vertices, [0; 1; 7]) /\
     length vertices = 4%nat /\
     ~ MeshUploads.refers_to_own_vertices vertices [0; 1; 7]).
Proof.
  split.
  - destruct (process_vertices_returns_a_mesh Z Z.opp (fun _ => false) bve_quad)
      as (vertices & indices & Hrun & Hlen & _ & _ & _ & Hrefers & _);
      [reflexivity|reflexivity|unfold UINT32_MODULUS; cbn; lia|].
    assert (Hindices : indices = [0; 1; 2; 0; 2; 3; 3; 2; 0])
      by (vm_compute in Hrun; injection Hrun as _ <-; reflexivity).
    subst indices. exists vertices. split; [exact Hrun|]. split; [exact Hlen|].
    apply Hrefers. intros e He. cbn in He.
    repeat (apply elem_of_cons in He as [->|He]; [reflexivity|]). inversion He.
  - destruct (process_vertices_returns_a_mesh Z Z.opp (fun _ => false) bve_stray_triangle)
      as (vertices & indices & Hrun & Hlen & _ & _ & _ & Hrefers & _);
      [reflexivity|reflexivity|unfold UINT32_MODULUS; cbn; lia|].
    assert (Hindices : indices = [0; 1; 7])
      by (vm_compute in Hrun; injection Hrun as _ <-; reflexivity).
    subst indices. exists vertices. split; [exact Hrun|]. split; [exact Hlen|].
    intros H. pose proof (proj1 Hrefers H 7 ltac:(right; right; left)) as Hseven.
    vm_compute in Hseven. discriminate Hseven.
Defined.

End BveWrapperTheorems.
